(** * TravelMate: the MRT map viewer of [js/app.js]

    A shallow embedding of class [MRTMapInteraction]: its pan/zoom state,
    the station hover and click handlers, and the two guarded set-up paths
    ([init] and [setupSVGInteraction]).

    JavaScript numbers are IEEE-754 binary64 values.  The embedding is
    written once over an interface of the arithmetic the class uses and is
    instantiated twice: with binary64 ([spec_float], precision 53, round to
    nearest even) and with exact rationals ([Q]).

    The file has three parts: the model of the class, the vocabulary the
    properties are stated in, and the properties with their proofs. *)

From Stdlib Require Import ZArith QArith Qminmax Lqa Lia List String Ascii Bool.
From Stdlib Require Import Floats.SpecFloat.
Import ListNotations.

Set Implicit Arguments.

(* ================================================================= *)
(** ** Arithmetic *)

(** The numeric literals and operators that occur in the class.  [nlt] is
    JavaScript's [<] ([a > b] is [nlt b a]); [nle] is [<=], used only to
    state bounds.  [isFinite x] says whether the text of [x] in a template
    literal is a number of CSS: [Infinity], [-Infinity] and [NaN] are not.
    [parseFloat_String x] is [parseFloat(String(x))], the number read back
    from an attribute [x] was stored in. *)
Class Arith (num : Type) : Type := {
  lit_0 : num;
  lit_0_2 : num;
  lit_0_5 : num;
  lit_1 : num;
  lit_1_5 : num;
  lit_3 : num;
  lit_10 : num;
  nadd : num -> num -> num;
  nsub : num -> num -> num;
  nmul : num -> num -> num;
  ndiv : num -> num -> num;
  nlt : num -> num -> bool;
  nle : num -> num -> bool;
  Math_min : num -> num -> num;
  Math_max : num -> num -> num;
  isFinite : num -> bool;
  parseFloat_String : num -> num
}.

(** *** Exact rationals *)

Definition Qltb (a b : Q) : bool := negb (Qle_bool b a).

#[export] Instance exact : Arith Q := {|
  lit_0 := 0%Q;
  lit_0_2 := (2 # 10)%Q;
  lit_0_5 := (5 # 10)%Q;
  lit_1 := 1%Q;
  lit_1_5 := (15 # 10)%Q;
  lit_3 := 3%Q;
  lit_10 := 10%Q;
  nadd := Qplus;
  nsub := Qminus;
  nmul := Qmult;
  ndiv := Qdiv;
  nlt := Qltb;
  nle := Qle_bool;
  Math_min := Qmin;
  Math_max := Qmax;
  isFinite := fun _ => true;
  parseFloat_String := fun x => x
|}.

(** *** IEEE-754 binary64 *)

Module B64.

Definition prec : Z := 53.
Definition emax : Z := 1024.

Definition float : Type := spec_float.

Definition of_Z (z : Z) : float := binary_normalize prec emax z 0 false.

Definition add : float -> float -> float := SFadd prec emax.
Definition sub : float -> float -> float := SFsub prec emax.
Definition mul : float -> float -> float := SFmul prec emax.
Definition div : float -> float -> float := SFdiv prec emax.
Definition ltb : float -> float -> bool := SFltb.
Definition leb : float -> float -> bool := SFleb.

(** [Math.min]: NaN if either argument is NaN, and [-0] below [+0]. *)
Definition min (a b : float) : float :=
  match SFcompare a b with
  | None => S754_nan
  | Some Lt => a
  | Some Gt => b
  | Some Eq => match a with S754_zero true => a | _ => b end
  end.

(** [Math.max]: NaN if either argument is NaN, and [+0] above [-0]. *)
Definition max (a b : float) : float :=
  match SFcompare a b with
  | None => S754_nan
  | Some Lt => b
  | Some Gt => a
  | Some Eq => match a with S754_zero false => a | _ => b end
  end.

(** The doubles denoted by the decimal literals of the source. *)
Definition d0 : float := S754_zero false.
Definition d0_2 : float := S754_finite false 7205759403792794 (-55).
Definition d0_5 : float := S754_finite false 4503599627370496 (-53).
Definition d1 : float := S754_finite false 4503599627370496 (-52).
Definition d1_5 : float := S754_finite false 6755399441055744 (-52).
Definition d3 : float := S754_finite false 6755399441055744 (-51).
Definition d10 : float := S754_finite false 5629499534213120 (-49).

(** Structural equality, used to search lists of doubles. *)
Definition eqb (a b : float) : bool :=
  match a, b with
  | S754_zero s, S754_zero t => Bool.eqb s t
  | S754_infinity s, S754_infinity t => Bool.eqb s t
  | S754_nan, S754_nan => true
  | S754_finite s m e, S754_finite t n f =>
      Bool.eqb s t && Pos.eqb m n && Z.eqb e f
  | _, _ => false
  end.

Definition mem (x : float) (l : list float) : bool := existsb (eqb x) l.

Definition is_finite (x : float) : bool :=
  match x with
  | S754_zero _ | S754_finite _ _ _ => true
  | S754_infinity _ | S754_nan => false
  end.

(** [parseFloat(String(x))]: [String] writes the shortest decimal that
    reads back as [x], ["Infinity"] and ["NaN"] read back as themselves,
    and [-0] is written ["0"]. *)
Definition parseFloat_String (x : float) : float :=
  match x with
  | S754_zero true => S754_zero false
  | _ => x
  end.

End B64.

#[export] Instance binary64 : Arith B64.float := {|
  lit_0 := B64.d0;
  lit_0_2 := B64.d0_2;
  lit_0_5 := B64.d0_5;
  lit_1 := B64.d1;
  lit_1_5 := B64.d1_5;
  lit_3 := B64.d3;
  lit_10 := B64.d10;
  nadd := B64.add;
  nsub := B64.sub;
  nmul := B64.mul;
  ndiv := B64.div;
  nlt := B64.ltb;
  nle := B64.leb;
  Math_min := B64.min;
  Math_max := B64.max;
  isFinite := B64.is_finite;
  parseFloat_String := B64.parseFloat_String
|}.

(* ================================================================= *)
(** ** Strings

    A JavaScript string is a sequence of UTF-16 code units. *)

Definition jsstring : Type := list N.

Fixpoint lit (s : string) : jsstring :=
  match s with
  | EmptyString => []
  | String c s' => N_of_ascii c :: lit s'
  end.

(* ================================================================= *)
(** ** The page: elements, events and ambient effects *)

(** A [classList]: a set of tokens kept in insertion order. *)
Definition DOMTokenList : Type := list string.

Definition contains (t : string) (l : DOMTokenList) : bool :=
  existsb (String.eqb t) l.

Definition token_add (t : string) (l : DOMTokenList) : DOMTokenList :=
  if contains t l then l else l ++ [t].

Definition token_remove (t : string) (l : DOMTokenList) : DOMTokenList :=
  filter (fun u => negb (String.eqb t u)) l.

Inductive JsError : Type :=
| TypeError
| SecurityError.

(** A node of the embedded SVG document, an XML document: a selector
    matches its local name, and its [tagName] is its qualified name.  [r]
    is the number that [parseFloat(getAttribute('r'))] yields;
    [setAttribute('r', x)] stores the text of [x]. *)
Record Station (num : Type) : Type := mkStation {
  prefix : option string;
  localName : string;
  id : option jsstring;
  title : option jsstring;
  textContent : jsstring;
  r : num;
  style_fill : string;
  style_cursor : string;
  style_transition : string
}.

(** [station.tagName]: the prefix, if any, a colon and the local name. *)
Definition tagName {num : Type} (s : Station num) : string :=
  match prefix s with
  | Some p => (p ++ ":" ++ localName s)%string
  | None => localName s
  end.

(** What reading [mapObject.contentDocument] does. *)
Inductive ContentDocument (num : Type) : Type :=
| DocNull
| DocDenied (e : JsError)
| DocLoaded (nodes : list (Station num)).
Arguments DocNull {num}.
Arguments DocDenied {num} e.
Arguments DocLoaded {num} nodes.

(** The value of [style.transform]:
    [translate(${tx}px, ${ty}px) scale(${sc})]. *)
Record Transform (num : Type) : Type := mkTransform {
  tx : num;
  ty : num;
  sc : num
}.

(** [#map-wrapper]; [rect_left] and [rect_top] are what
    [getBoundingClientRect()] reports. *)
Record Wrapper (num : Type) : Type := mkWrapper {
  classList : DOMTokenList;
  rect_left : num;
  rect_top : num
}.

(** [#mrt-map-svg], the embedding [<object>]. *)
Record MapObject (num : Type) : Type := mkMapObject {
  style_transform : option (Transform num);
  contentDocument : ContentDocument num
}.

(** [#station-tooltip]; [style_left] and [style_top] are pixel lengths. *)
Record Tooltip (num : Type) : Type := mkTooltip {
  tip_textContent : jsstring;
  tip_classList : DOMTokenList;
  style_left : option num;
  style_top : option num
}.

Inductive Button : Type := ButtonElement.

(** [document.getElementById] at the seven identifiers the constructor
    looks up. *)
Record Document (num : Type) : Type := mkDocument {
  map_wrapper : option (Wrapper num);
  mrt_map_svg : option (MapObject num);
  station_tooltip : option (Tooltip num);
  zoom_in : option Button;
  zoom_out : option Button;
  reset_zoom : option Button;
  fullscreen : option Button
}.

(** Mouse events and touch points: only the pointer position is read. *)
Record MouseEvent (num : Type) : Type := mkMouseEvent {
  clientX : num;
  clientY : num
}.

(** The fields of an [MRTMapInteraction] instance. *)
Record Viewer (num : Type) : Type := mkViewer {
  mapWrapper : option (Wrapper num);
  mapObject : option (MapObject num);
  tooltip : option (Tooltip num);
  zoomInBtn : option Button;
  zoomOutBtn : option Button;
  resetBtn : option Button;
  fullscreenBtn : option Button;
  scale : num;
  minScale : num;
  maxScale : num;
  isPanning : bool;
  startX : num;
  startY : num;
  translateX : num;
  translateY : num
}.

(** Event targets and the listeners [addEventListener] registers. *)
Inductive Target : Type :=
| OnMapWrapper
| OnMapObject
| OnZoomInBtn
| OnZoomOutBtn
| OnResetBtn
| OnFullscreenBtn
| OnStation (index : nat).

Inductive Handler : Type :=
| HSetupSVGInteraction
| HZoomIn
| HZoomOut
| HResetZoom
| HToggleFullscreen
| HStartPan
| HPan
| HEndPan
| HTouchStart
| HTouchMove
| HTouchEnd
| HWheel
| HStationEnter
| HStationLeave
| HStationMove
| HStationClick.

Record Listener : Type := mkListener {
  target : Target;
  type : string;
  handler : Handler
}.

(** Lines written to the console. *)
Inductive ConsoleEntry : Type :=
| LogMapInitialized
| LogStationsInitialized (count : nat)
| LogStationClicked (stationName : jsstring)
| ErrorSettingUpSVG (e : JsError).

(** The viewer together with the ambient effects of its methods. *)
Record World (num : Type) : Type := mkWorld {
  this : Viewer num;
  listeners : list Listener;
  console : list ConsoleEntry;
  alerts : list jsstring
}.

(* ================================================================= *)
(** ** Field updates *)

Section Updates.
Context {num : Type}.

Definition set_scale (x : num) (v : Viewer num) : Viewer num :=
  mkViewer (mapWrapper v) (mapObject v) (tooltip v) (zoomInBtn v)
    (zoomOutBtn v) (resetBtn v) (fullscreenBtn v) x (minScale v)
    (maxScale v) (isPanning v) (startX v) (startY v) (translateX v)
    (translateY v).

Definition set_isPanning (b : bool) (v : Viewer num) : Viewer num :=
  mkViewer (mapWrapper v) (mapObject v) (tooltip v) (zoomInBtn v)
    (zoomOutBtn v) (resetBtn v) (fullscreenBtn v) (scale v) (minScale v)
    (maxScale v) b (startX v) (startY v) (translateX v) (translateY v).

Definition set_startX (x : num) (v : Viewer num) : Viewer num :=
  mkViewer (mapWrapper v) (mapObject v) (tooltip v) (zoomInBtn v)
    (zoomOutBtn v) (resetBtn v) (fullscreenBtn v) (scale v) (minScale v)
    (maxScale v) (isPanning v) x (startY v) (translateX v) (translateY v).

Definition set_startY (y : num) (v : Viewer num) : Viewer num :=
  mkViewer (mapWrapper v) (mapObject v) (tooltip v) (zoomInBtn v)
    (zoomOutBtn v) (resetBtn v) (fullscreenBtn v) (scale v) (minScale v)
    (maxScale v) (isPanning v) (startX v) y (translateX v) (translateY v).

Definition set_translateX (x : num) (v : Viewer num) : Viewer num :=
  mkViewer (mapWrapper v) (mapObject v) (tooltip v) (zoomInBtn v)
    (zoomOutBtn v) (resetBtn v) (fullscreenBtn v) (scale v) (minScale v)
    (maxScale v) (isPanning v) (startX v) (startY v) x (translateY v).

Definition set_translateY (y : num) (v : Viewer num) : Viewer num :=
  mkViewer (mapWrapper v) (mapObject v) (tooltip v) (zoomInBtn v)
    (zoomOutBtn v) (resetBtn v) (fullscreenBtn v) (scale v) (minScale v)
    (maxScale v) (isPanning v) (startX v) (startY v) (translateX v) y.

Definition set_mapWrapper (w : option (Wrapper num)) (v : Viewer num)
  : Viewer num :=
  mkViewer w (mapObject v) (tooltip v) (zoomInBtn v) (zoomOutBtn v)
    (resetBtn v) (fullscreenBtn v) (scale v) (minScale v) (maxScale v)
    (isPanning v) (startX v) (startY v) (translateX v) (translateY v).

Definition set_mapObject (o : option (MapObject num)) (v : Viewer num)
  : Viewer num :=
  mkViewer (mapWrapper v) o (tooltip v) (zoomInBtn v) (zoomOutBtn v)
    (resetBtn v) (fullscreenBtn v) (scale v) (minScale v) (maxScale v)
    (isPanning v) (startX v) (startY v) (translateX v) (translateY v).

Definition set_tooltip (t : option (Tooltip num)) (v : Viewer num)
  : Viewer num :=
  mkViewer (mapWrapper v) (mapObject v) t (zoomInBtn v) (zoomOutBtn v)
    (resetBtn v) (fullscreenBtn v) (scale v) (minScale v) (maxScale v)
    (isPanning v) (startX v) (startY v) (translateX v) (translateY v).

Definition set_classList (l : DOMTokenList) (w : Wrapper num)
  : Wrapper num :=
  mkWrapper l (rect_left w) (rect_top w).

Definition set_style_transform (t : Transform num) (o : MapObject num)
  : MapObject num :=
  mkMapObject (Some t) (contentDocument o).

Definition set_contentDocument (d : ContentDocument num)
  (o : MapObject num) : MapObject num :=
  mkMapObject (style_transform o) d.

Definition set_tip_textContent (s : jsstring) (t : Tooltip num)
  : Tooltip num :=
  mkTooltip s (tip_classList t) (style_left t) (style_top t).

Definition set_tip_classList (l : DOMTokenList) (t : Tooltip num)
  : Tooltip num :=
  mkTooltip (tip_textContent t) l (style_left t) (style_top t).

Definition set_tip_position (x y : num) (t : Tooltip num) : Tooltip num :=
  mkTooltip (tip_textContent t) (tip_classList t) (Some x) (Some y).

Definition set_r (x : num) (s : Station num) : Station num :=
  mkStation (prefix s) (localName s) (id s) (title s) (textContent s) x (style_fill s)
    (style_cursor s) (style_transition s).

Definition set_style_fill (c : string) (s : Station num) : Station num :=
  mkStation (prefix s) (localName s) (id s) (title s) (textContent s) (r s) c
    (style_cursor s) (style_transition s).

Definition set_style_cursor (c : string) (s : Station num) : Station num :=
  mkStation (prefix s) (localName s) (id s) (title s) (textContent s) (r s)
    (style_fill s) c (style_transition s).

Definition set_style_transition (c : string) (s : Station num)
  : Station num :=
  mkStation (prefix s) (localName s) (id s) (title s) (textContent s) (r s)
    (style_fill s) (style_cursor s) c.

Definition set_this (v : Viewer num) (w : World num) : World num :=
  mkWorld v (listeners w) (console w) (alerts w).

Definition push_listener (l : Listener) (w : World num) : World num :=
  mkWorld (this w) (listeners w ++ [l]) (console w) (alerts w).

Definition push_console (e : ConsoleEntry) (w : World num) : World num :=
  mkWorld (this w) (listeners w) (console w ++ [e]) (alerts w).

Definition push_alert (s : jsstring) (w : World num) : World num :=
  mkWorld (this w) (listeners w) (console w) (alerts w ++ [s]).

End Updates.

(* ================================================================= *)
(** ** Completions: a state monad with exceptions *)

Inductive Outcome (A : Type) : Type :=
| Done (a : A)
| Thrown (e : JsError).
Arguments Done {A} a.
Arguments Thrown {A} e.

Definition Js (S A : Type) : Type := S -> Outcome A * S.

Definition ret {S A : Type} (a : A) : Js S A := fun s => (Done a, s).

Definition throw {S A : Type} (e : JsError) : Js S A :=
  fun s => (Thrown e, s).

Definition bind {S A B : Type} (m : Js S A) (k : A -> Js S B) : Js S B :=
  fun s =>
    match m s with
    | (Done a, s') => k a s'
    | (Thrown e, s') => (Thrown e, s')
    end.

Definition modify {S : Type} (f : S -> S) : Js S unit :=
  fun s => (Done tt, f s).

(** [try { m } catch (error) { h error }] *)
Definition try_catch {S A : Type} (m : Js S A) (h : JsError -> Js S A)
  : Js S A :=
  fun s =>
    match m s with
    | (Done a, s') => (Done a, s')
    | (Thrown e, s') => h e s'
    end.

(** Reading a property of a possibly-null reference. *)
Definition deref {S A : Type} (o : option A) : Js S A :=
  match o with
  | Some a => ret a
  | None => throw TypeError
  end.

Declare Scope js_scope.
Delimit Scope js_scope with js.
Notation "x <- m ;; k" := (bind m (fun x => k))
  (at level 61, m at next level, right associativity) : js_scope.
Notation "m ;; k" := (bind m (fun _ => k))
  (at level 61, right associativity) : js_scope.

(** Running a statement of the viewer next to another piece of state. *)
Definition on_world {W T A : Type} (m : Js W A) : Js (W * T) A :=
  fun s =>
    let '(o, w') := m (fst s) in (o, (w', snd s)).

(* ================================================================= *)
(** ** String operations of the label clean-up *)

Local Open Scope N_scope.

(** [s.replace(/_/g, ' ')] *)
Definition replace_underscores (s : jsstring) : jsstring :=
  map (fun c => if c =? 95 then 32 else c) s.

(** Case folding of the [i] flag without the [u] flag: only the ASCII
    letters fold onto each other. *)
Definition canonicalize (c : N) : N :=
  if (97 <=? c) && (c <=? 122) then c - 32 else c.

Fixpoint matches_at (pattern s : jsstring) : bool :=
  match pattern, s with
  | [], _ => true
  | _ :: _, [] => false
  | p :: pattern', c :: s' =>
      (canonicalize p =? canonicalize c) && matches_at pattern' s'
  end.

(** [s.replace(/pattern/gi, '')] for a literal, non-empty pattern: the
    scan goes left to right and resumes after each match; [skip] counts
    the code units of the current match still to drop. *)
Fixpoint remove_matches (pattern : jsstring) (skip : nat) (s : jsstring)
  : jsstring :=
  match s with
  | [] => []
  | c :: s' =>
      match skip with
      | S k => remove_matches pattern k s'
      | O =>
          if matches_at pattern s
          then remove_matches pattern (Nat.pred (List.length pattern)) s'
          else c :: remove_matches pattern O s'
      end
  end.

Definition remove_station (s : jsstring) : jsstring :=
  remove_matches (lit "station") O s.

(** White space and line terminators, as [String.prototype.trim] sees
    them. *)
Definition is_space (c : N) : bool :=
  ((9 <=? c) && (c <=? 13)) || (c =? 32) || (c =? 160) || (c =? 5760)
  || ((8192 <=? c) && (c <=? 8202)) || (c =? 8232) || (c =? 8233)
  || (c =? 8239) || (c =? 8287) || (c =? 12288) || (c =? 65279).

Fixpoint trim_start (s : jsstring) : jsstring :=
  match s with
  | [] => []
  | c :: s' => if is_space c then trim_start s' else s
  end.

Definition trim (s : jsstring) : jsstring :=
  rev (trim_start (rev (trim_start s))).

(** The clean-up chain of [showStationTooltip]. *)
Definition clean_name (s : jsstring) : jsstring :=
  trim (remove_station (replace_underscores s)).

(** [a || b] on a possibly-null string: the empty string is falsy. *)
Definition or_else (a : option jsstring) (b : jsstring) : jsstring :=
  match a with
  | Some (c :: s) => c :: s
  | _ => b
  end.

(** [s.includes(t)], the test behind the [[id*="t"]] selector. *)
Fixpoint starts_with (t s : jsstring) : bool :=
  match t, s with
  | [], _ => true
  | _ :: _, [] => false
  | p :: t', c :: s' => (p =? c) && starts_with t' s'
  end.

Fixpoint includes (t s : jsstring) : bool :=
  starts_with t s ||
  match s with
  | [] => false
  | _ :: s' => includes t s'
  end.

Local Close Scope N_scope.

(* ================================================================= *)
(** ** class MRTMapInteraction *)

Section MRTMapInteraction.
Context {num : Type} {A : Arith num}.
Local Open Scope js_scope.
Local Open Scope string_scope.

Definition getThis : Js (World num) (Viewer num) :=
  fun w => (Done (this w), w).

Definition setThis (f : Viewer num -> Viewer num) : Js (World num) unit :=
  modify (fun w => set_this (f (this w)) w).

Definition addEventListener (t : Target) (type : string) (h : Handler)
  : Js (World num) unit :=
  modify (push_listener (mkListener t type h)).

Definition console_log (e : ConsoleEntry) : Js (World num) unit :=
  modify (push_console e).

Definition alert (s : jsstring) : Js (World num) unit :=
  modify (push_alert s).

Definition when {S : Type} (b : bool) (m : Js S unit) : Js S unit :=
  if b then m else ret tt.

Definition present {X : Type} (o : option X) : bool :=
  match o with
  | Some _ => true
  | None => false
  end.

(** *** Zoom *)

(** A transform of the template [translate(${tx}px, ${ty}px) scale(${sc})]
    is a declaration CSS accepts when the three numbers are finite. *)
Definition valid_transform (t : Transform num) : bool :=
  isFinite (tx t) && isFinite (ty t) && isFinite (sc t).

(** [o.style.transform = t]: a value that CSS does not accept is ignored
    and the property keeps what it had. *)
Definition assign_style_transform (t : Transform num) (o : MapObject num)
  : MapObject num :=
  if valid_transform t then set_style_transform t o else o.

Definition updateTransform : Js (World num) unit :=
  v <- getThis ;;
  match mapObject v with
  | Some o =>
      setThis (set_mapObject (Some (assign_style_transform
        (mkTransform (translateX v) (translateY v) (scale v)) o)))
  | None => ret tt
  end.

Definition zoomIn : Js (World num) unit :=
  v <- getThis ;;
  if nlt (scale v) (maxScale v) then
    setThis (set_scale (Math_min (nadd (scale v) lit_0_2) (maxScale v))) ;;
    updateTransform
  else ret tt.

Definition zoomOut : Js (World num) unit :=
  v <- getThis ;;
  if nlt (minScale v) (scale v) then
    setThis (set_scale (Math_max (nsub (scale v) lit_0_2) (minScale v))) ;;
    updateTransform
  else ret tt.

Definition resetZoom : Js (World num) unit :=
  setThis (set_scale lit_1) ;;
  setThis (set_translateX lit_0) ;;
  setThis (set_translateY lit_0) ;;
  updateTransform.

(** *** Pan *)

Definition startPan (event : MouseEvent num) : Js (World num) unit :=
  setThis (set_isPanning true) ;;
  v <- getThis ;;
  setThis (set_startX (nsub (clientX event) (translateX v))) ;;
  setThis (set_startY (nsub (clientY event) (translateY v))) ;;
  w <- deref (mapWrapper v) ;;
  setThis (set_mapWrapper
    (Some (set_classList (token_add "grabbing" (classList w)) w))).

Definition pan (event : MouseEvent num) : Js (World num) unit :=
  v <- getThis ;;
  if negb (isPanning v) then ret tt
  else
    setThis (set_translateX (nsub (clientX event) (startX v))) ;;
    setThis (set_translateY (nsub (clientY event) (startY v))) ;;
    updateTransform.

Definition endPan : Js (World num) unit :=
  setThis (set_isPanning false) ;;
  v <- getThis ;;
  w <- deref (mapWrapper v) ;;
  setThis (set_mapWrapper
    (Some (set_classList (token_remove "grabbing" (classList w)) w))).

(** *** Tooltip *)

Definition updateTooltipPosition (event : MouseEvent num)
  : Js (World num) unit :=
  v <- getThis ;;
  match tooltip v with
  | None => ret tt
  | Some t =>
      if negb (contains "visible" (tip_classList t)) then ret tt
      else
        w <- deref (mapWrapper v) ;;
        let x := nsub (clientX event) (rect_left w) in
        let y := nsub (nsub (clientY event) (rect_top w)) lit_10 in
        setThis (set_tooltip (Some (set_tip_position x y t)))
  end.

Definition showStationTooltip (event : MouseEvent num)
  (station : Station num) : Js (World num) unit :=
  v <- getThis ;;
  match tooltip v with
  | None => ret tt
  | Some t =>
      let stationName :=
        or_else (id station)
          (or_else (title station)
             (or_else (Some (textContent station)) (lit "Station"))) in
      let stationName :=
        trim (remove_station (replace_underscores stationName)) in
      let t := set_tip_textContent stationName t in
      let t := set_tip_classList (token_add "visible" (tip_classList t)) t in
      setThis (set_tooltip (Some t)) ;;
      updateTooltipPosition event
  end.

Definition hideTooltip : Js (World num) unit :=
  v <- getThis ;;
  match tooltip v with
  | Some t =>
      setThis (set_tooltip (Some
        (set_tip_classList (token_remove "visible" (tip_classList t)) t)))
  | None => ret tt
  end.

(** *** Station click *)

Definition alert_details : jsstring :=
  ([10%N; 10%N]
   ++ lit "This feature can be expanded to show:" ++ [10%N]
   ++ lit "- Connected lines" ++ [10%N]
   ++ lit "- Nearby attractions" ++ [10%N]
   ++ lit "- Transfer information" ++ [10%N]
   ++ lit "- Exit information")%list.

Definition handleStationClick (station : Station num)
  : Js (World num) unit :=
  let stationName :=
    or_else (id station)
      (or_else (title station)
         (or_else (Some (textContent station)) (lit "Unknown Station"))) in
  console_log (LogStationClicked stationName) ;;
  alert (lit "Station: " ++ stationName ++ alert_details)%list.

(** *** Station hover: the listeners of [setupSVGInteraction]

    Each listener closes over its [station]; the state is the world and
    that node. *)

Definition getStation : Js (World num * Station num) (Station num) :=
  fun s => (Done (snd s), s).

Definition setStation (f : Station num -> Station num)
  : Js (World num * Station num) unit :=
  modify (fun s => (fst s, f (snd s))).

Definition station_mouseenter (e : MouseEvent num)
  : Js (World num * Station num) unit :=
  station <- getStation ;;
  on_world (showStationTooltip e station) ;;
  if String.eqb (tagName station) "circle" then
    setStation (set_r (parseFloat_String (nmul (r station) lit_1_5))) ;;
    setStation (set_style_fill "#B40000")
  else ret tt.

Definition station_mouseleave (e : MouseEvent num)
  : Js (World num * Station num) unit :=
  station <- getStation ;;
  on_world hideTooltip ;;
  if String.eqb (tagName station) "circle" then
    setStation (set_r (parseFloat_String (ndiv (r station) lit_1_5))) ;;
    setStation (set_style_fill "")
  else ret tt.

Definition station_mousemove (e : MouseEvent num)
  : Js (World num * Station num) unit :=
  on_world (updateTooltipPosition e).

Definition station_click (e : MouseEvent num)
  : Js (World num * Station num) unit :=
  station <- getStation ;;
  on_world (handleStationClick station).

(** *** Set-up of the station listeners *)

(** [circle, text, g[id*="station"], g[id*="Station"]]: a type selector
    matches the local name, whatever the prefix. *)
Definition is_station (n : Station num) : bool :=
  String.eqb (localName n) "circle" || String.eqb (localName n) "text"
  || (String.eqb (localName n) "g"
      && match id n with
         | Some i => includes (lit "station") i || includes (lit "Station") i
         | None => false
         end).

Definition querySelectorAll (nodes : list (Station num))
  : list (Station num) :=
  filter is_station nodes.

(** The body of [stations.forEach], at the node of index [i]. *)
Definition make_interactive (i : nat) (station : Station num)
  : Js (World num) (Station num) :=
  let station := set_style_cursor "pointer" station in
  let station := set_style_transition "all 0.2s ease" station in
  addEventListener (OnStation i) "mouseenter" HStationEnter ;;
  addEventListener (OnStation i) "mouseleave" HStationLeave ;;
  addEventListener (OnStation i) "mousemove" HStationMove ;;
  addEventListener (OnStation i) "click" HStationClick ;;
  ret station.

Fixpoint forEach_station (i : nat) (nodes : list (Station num))
  : Js (World num) (list (Station num)) :=
  match nodes with
  | [] => ret []
  | n :: rest =>
      n' <- (if is_station n then make_interactive i n else ret n) ;;
      rest' <- forEach_station (S i) rest ;;
      ret (n' :: rest')
  end.

Definition setupSVGInteraction : Js (World num) unit :=
  try_catch
    (v <- getThis ;;
     o <- deref (mapObject v) ;;
     match contentDocument o with
     | DocDenied e => throw e
     | DocNull => ret tt
     | DocLoaded nodes =>
         nodes' <- forEach_station O nodes ;;
         setThis (set_mapObject
           (Some (set_contentDocument (DocLoaded nodes') o))) ;;
         console_log
           (LogStationsInitialized (List.length (querySelectorAll nodes)))
     end)
    (fun error => console_log (ErrorSettingUpSVG error)).

(** *** Construction *)

Definition init : Js (World num) unit :=
  v <- getThis ;;
  if negb (present (mapWrapper v)) || negb (present (mapObject v))
  then ret tt
  else
    console_log LogMapInitialized ;;
    addEventListener OnMapObject "load" HSetupSVGInteraction ;;
    when (present (zoomInBtn v))
      (addEventListener OnZoomInBtn "click" HZoomIn) ;;
    when (present (zoomOutBtn v))
      (addEventListener OnZoomOutBtn "click" HZoomOut) ;;
    when (present (resetBtn v))
      (addEventListener OnResetBtn "click" HResetZoom) ;;
    when (present (fullscreenBtn v))
      (addEventListener OnFullscreenBtn "click" HToggleFullscreen) ;;
    addEventListener OnMapWrapper "mousedown" HStartPan ;;
    addEventListener OnMapWrapper "mousemove" HPan ;;
    addEventListener OnMapWrapper "mouseup" HEndPan ;;
    addEventListener OnMapWrapper "mouseleave" HEndPan ;;
    addEventListener OnMapWrapper "touchstart" HTouchStart ;;
    addEventListener OnMapWrapper "touchmove" HTouchMove ;;
    addEventListener OnMapWrapper "touchend" HTouchEnd ;;
    addEventListener OnMapWrapper "wheel" HWheel.

(** [new MRTMapInteraction()] on a page [document]. *)
Definition constructor (document : Document num)
  : Outcome unit * World num :=
  let this :=
    mkViewer (map_wrapper document) (mrt_map_svg document)
      (station_tooltip document) (zoom_in document) (zoom_out document)
      (reset_zoom document) (fullscreen document)
      lit_1 lit_0_5 lit_3 false lit_0 lit_0 lit_0 lit_0 in
  init (mkWorld this [] [] []).

(** *** Sequences of calls *)

Inductive Call : Type :=
| call_zoomIn
| call_zoomOut
| call_resetZoom
| call_startPan (event : MouseEvent num)
| call_pan (event : MouseEvent num)
| call_endPan.

Definition call (c : Call) : Js (World num) unit :=
  match c with
  | call_zoomIn => zoomIn
  | call_zoomOut => zoomOut
  | call_resetZoom => resetZoom
  | call_startPan event => startPan event
  | call_pan event => pan event
  | call_endPan => endPan
  end.

(** The worlds after each call of a sequence, in order.  A call that
    throws ends that call only; the next one runs on the world it left. *)
Fixpoint trace (cs : list Call) (w : World num) : list (World num) :=
  match cs with
  | [] => []
  | c :: cs' => let w' := snd (call c w) in w' :: trace cs' w'
  end.

Definition run (cs : list Call) (w : World num) : World num :=
  fold_left (fun w c => snd (call c w)) cs w.

(** The bounds of the data model. *)
Definition scale_in_bounds (v : Viewer num) : Prop :=
  nle (minScale v) (scale v) = true /\ nle (scale v) (maxScale v) = true.

(** A viewer as the constructor leaves its bounds. *)
Definition default_bounds (v : Viewer num) : Prop :=
  minScale v = lit_0_5 /\ maxScale v = lit_3.

End MRTMapInteraction.

(* ================================================================= *)
(** * Vocabulary of the properties *)

Section Vocabulary.
Context {num : Type} {A : Arith num}.

(** The scale [zoomIn] and [zoomOut] leave, as functions of the scale
    and the bounds. *)
Definition zoomed_in (hi s : num) : num :=
  if nlt s hi then Math_min (nadd s lit_0_2) hi else s.

Definition zoomed_out (lo s : num) : num :=
  if nlt lo s then Math_max (nsub s lit_0_2) lo else s.

(** The scale after any call is one of three values; the bounds are
    never assigned. *)
Definition next_scales (lo hi s : num) : list num :=
  [zoomed_in hi s; zoomed_out lo s; lit_1; s].

(** The node and the world after the pointer enters and then leaves. *)
Definition hover_enter (e : MouseEvent num) (w : World num)
  (station : Station num) : Outcome unit * (World num * Station num) :=
  station_mouseenter e (w, station).

Definition hover_enter_leave (e e' : MouseEvent num) (w : World num)
  (station : Station num) : Outcome unit * (World num * Station num) :=
  station_mouseleave e' (snd (hover_enter e w station)).

(** The name both handlers start from: the first non-empty of [id],
    [title] and the text content, else the handler's own default. *)
Definition resolved_name (default : jsstring) (station : Station num)
  : jsstring :=
  or_else (id station)
    (or_else (title station)
       (or_else (Some (textContent station)) default)).

(** The text the tooltip shows, if there is a tooltip. *)
Definition tooltip_label (w : World num) : option jsstring :=
  option_map (@tip_textContent num) (tooltip (this w)).

(** The radius a circle has after the pointer has entered and left it. *)
Definition round_trip_radius (x : num) : num :=
  parseFloat_String
    (ndiv (parseFloat_String (nmul x lit_1_5)) lit_1_5).

(** The pan/zoom state of a viewer. *)
Definition pan_zoom_state (v : Viewer num)
  : num * num * num * (bool * num * num) * (num * num) :=
  (scale v, translateX v, translateY v,
   (isPanning v, startX v, startY v), (minScale v, maxScale v)).

End Vocabulary.

(** A node has a name when its [id], its [title] or its text content is
    a non-empty string. *)
Definition has_name {num : Type} (station : Station num) : bool :=
  match id station, title station, textContent station with
  | Some (_ :: _), _, _ => true
  | _, Some (_ :: _), _ => true
  | _, _, _ :: _ => true
  | _, _, _ => false
  end.

(** Removing every match of a pattern, scanning from the left: at a match
    the matched code units go and the scan resumes behind them; elsewhere
    one code unit is kept. *)
Inductive stripped (pattern : jsstring) : jsstring -> jsstring -> Prop :=
| stripped_end : stripped pattern [] []
| stripped_match (m rest out : jsstring) :
    List.length m = List.length pattern ->
    matches_at pattern m = true ->
    stripped pattern rest out ->
    stripped pattern (m ++ rest) out
| stripped_keep (c : N) (rest out : jsstring) :
    matches_at pattern (c :: rest) = false ->
    stripped pattern rest out ->
    stripped pattern (c :: rest) (c :: out).

(** Cutting white space off both ends of [s] leaves [t]. *)
Definition trimmed (s t : jsstring) : Prop :=
  exists pre post,
    s = pre ++ t ++ post
    /\ forallb is_space pre = true
    /\ forallb is_space post = true
    /\ match t with
       | [] => True
       | c :: _ => is_space c = false /\ is_space (last t c) = false
       end.

(** The derivation of a label in words: underscores become spaces, the
    matches of "station" go, and the ends are trimmed. *)
Definition label_of (name label : jsstring) : Prop :=
  exists removed,
    stripped (lit "station") (replace_underscores name) removed
    /\ trimmed removed label.

(** ** Binary64 seen from the integers

    Doubles near 1 counted in units of [2^-55], the exponent of the
    double 0.2, and the invariant of the right shifts that rounding
    makes. *)

Section Units.
Local Open Scope Z_scope.

(** After [k+1] right shifts of [M], the record holds the quotient, the
    bit just below it and whether anything lower is set. *)
Definition shifted (M : Z) (k : nat) (x : shr_record) : Prop :=
  exists rest,
    M = 2 ^ Z.of_nat (S k) * shr_m x
        + Z.b2z (shr_r x) * 2 ^ Z.of_nat k + rest
    /\ 0 <= rest < 2 ^ Z.of_nat k
    /\ shr_s x = negb (rest =? 0)
    /\ 0 <= shr_m x.

(** A canonical positive double, counted in units of [2^-55]. *)
Definition units (x : B64.float) : Z :=
  match x with
  | S754_finite false m e => Zpos m * 2 ^ (e + 55)
  | _ => 0
  end.

Definition canonical (x : B64.float) : Prop :=
  exists m e, x = S754_finite false m e
              /\ Zpos (digits2_pos m) = 53 /\ -55 <= e.

(** The double 0.2 in units of [2^-55]. *)
Definition step_units : Z := 7205759403792794.

End Units.

(** ** The scales a viewer can reach in binary64

    Starting from 1 and closing under the ways a call can change the scale
    gives a finite set of doubles. *)

Definition visit (t : B64.float) (st : list B64.float * list B64.float)
  : list B64.float * list B64.float :=
  if B64.mem t (fst st) then st else (fst st ++ [t], snd st ++ [t]).

Fixpoint saturate (fuel : nat) (seen todo : list B64.float)
  : list B64.float :=
  match fuel, todo with
  | S fuel', s :: todo' =>
      let '(seen', todo'') :=
        fold_right visit (seen, todo') (next_scales B64.d0_5 B64.d3 s) in
      saturate fuel' seen' todo''
  | _, _ => seen
  end.

Definition reachable_scales : list B64.float :=
  Eval vm_compute in saturate 1000 [B64.d1] [B64.d1].

Definition closed_under_calls (l : list B64.float) : bool :=
  forallb
    (fun s => forallb (fun t => B64.mem t l) (next_scales B64.d0_5 B64.d3 s))
    l.

Definition all_within (lo hi : B64.float) (l : list B64.float) : bool :=
  forallb (fun s => B64.leb lo s && B64.leb s hi) l.

Definition round_trips (l : list B64.float) : bool :=
  forallb
    (fun s =>
       implb (B64.leb (B64.add s B64.d0_2) B64.d3)
             (B64.eqb (zoomed_out B64.d0_5 (zoomed_in B64.d3 s)) s)
       && implb (B64.leb B64.d0_5 (B64.sub s B64.d0_2))
                (B64.eqb (zoomed_in B64.d3 (zoomed_out B64.d0_5 s)) s))
    l.

(** The invariant carried along a sequence of calls in binary64. *)
Definition reachable_state (w : World B64.float) : Prop :=
  default_bounds (this w) /\ In (scale (this w)) reachable_scales.

(** The invariant carried along a sequence of calls in exact arithmetic. *)
Definition bounded_state (w : World Q) : Prop :=
  default_bounds (this w) /\ scale_in_bounds (this w).

Definition integer_radii_restored (n : nat) : bool :=
  forallb
    (fun k =>
       B64.eqb (round_trip_radius (B64.of_Z (Z.of_nat k)))
               (B64.of_Z (Z.of_nat k)))
    (seq 1 n).

Section Radii.
Local Open Scope Z_scope.

(** A positive double counted in units of [2^-1075], and the unit in the
    last place of a double in the same units. *)
Definition position (x : B64.float) : Z :=
  match x with
  | S754_finite false m e => Zpos m * 2 ^ (e + 1075)
  | _ => 0
  end.

Definition ulp (x : B64.float) : Z :=
  match x with
  | S754_finite _ _ e => 2 ^ (e + 1075)
  | _ => 0
  end.

(** The positive normal doubles from [2^-1021] up to, not including,
    [2^1022]. *)
Definition normal_radius (x : B64.float) : bool :=
  match x with
  | S754_finite false m e =>
      (Zpos (digits2_pos m) =? 53) && (-1073 <=? e) && (e <=? 969)
  | _ => false
  end.

(** The largest radius of the form [1.5 * 2^k]: [1.5 * 2^1023]. *)
Definition huge_radius : B64.float :=
  S754_finite false 6755399441055744 971.

(** A record that holds the quotient of [N] by [2 * D], the bit just
    below it and whether anything lower is set. *)
Definition located (N D : Z) (x : shr_record) : Prop :=
  exists rest,
    N = D * (2 * shr_m x + Z.b2z (shr_r x)) + rest
    /\ 0 <= rest < D
    /\ shr_s x = negb (rest =? 0)
    /\ 0 <= shr_m x.

(** The mantissa of the double 1.5. *)
Definition mantissa_1_5 : positive := 6755399441055744.

End Radii.

(** ** Sample pages, used to run the methods on concrete input *)

Module Sample.
Section Page.
Context {num : Type} {A : Arith num}.

Definition raffles_place (radius : num) : Station num :=
  mkStation None "circle" (Some (lit "Raffles_Place_Station")) None []
    radius "" "" "".



Definition document (radius : num) : Document num :=
  mkDocument
    (Some (mkWrapper [] lit_0 lit_0))
    (Some (mkMapObject None (DocLoaded [raffles_place radius])))
    (Some (mkTooltip [] [] None None))
    (Some ButtonElement) (Some ButtonElement) (Some ButtonElement)
    (Some ButtonElement).

Definition world (radius : num) : World num :=
  snd (constructor (document radius)).

Definition at_ (x y : num) : MouseEvent num := mkMouseEvent x y.

(** A page without [#map-wrapper]. *)
Definition without_wrapper : Document num :=
  mkDocument None (Some (mkMapObject None DocNull)) None None None None
    None.

(** A page whose embedded document reads as [svgDoc]. *)
Definition embedding (svgDoc : ContentDocument num) : Document num :=
  mkDocument (Some (mkWrapper [] lit_0 lit_0))
    (Some (mkMapObject None svgDoc)) None None None None None.

End Page.
End Sample.

(* ================================================================= *)
(** * Events, utilities and the other components *)

(** ** MRTMapInteraction: the listeners of [init] *)

Definition Target_eqb (a b : Target) : bool :=
  match a, b with
  | OnMapWrapper, OnMapWrapper => true
  | OnMapObject, OnMapObject => true
  | OnZoomInBtn, OnZoomInBtn => true
  | OnZoomOutBtn, OnZoomOutBtn => true
  | OnResetBtn, OnResetBtn => true
  | OnFullscreenBtn, OnFullscreenBtn => true
  | OnStation i, OnStation j => Nat.eqb i j
  | _, _ => false
  end.

Definition handler_code (h : Handler) : nat :=
  match h with
  | HSetupSVGInteraction => 0
  | HZoomIn => 1
  | HZoomOut => 2
  | HResetZoom => 3
  | HToggleFullscreen => 4
  | HStartPan => 5
  | HPan => 6
  | HEndPan => 7
  | HTouchStart => 8
  | HTouchMove => 9
  | HTouchEnd => 10
  | HWheel => 11
  | HStationEnter => 12
  | HStationLeave => 13
  | HStationMove => 14
  | HStationClick => 15
  end.

Definition Handler_eqb (a b : Handler) : bool :=
  Nat.eqb (handler_code a) (handler_code b).

Section Events.
Context {num : Type} {A : Arith num}.
Local Open Scope js_scope.
Local Open Scope string_scope.

(** The events [init] listens to, except the click on the full-screen
    control.  A touch event carries its primary touch point
    [e.touches[0]]. *)
Inductive DomEvent : Type :=
| ev_load
| ev_click_zoomIn
| ev_click_zoomOut
| ev_click_reset
| ev_mousedown (e : MouseEvent num)
| ev_mousemove (e : MouseEvent num)
| ev_mouseup
| ev_mouseleave
| ev_touchstart (touch : MouseEvent num)
| ev_touchmove (touch : MouseEvent num)
| ev_touchend
| ev_wheel (deltaY : num).

(** Where an event is delivered: its target and its type. *)
Definition event_target (ev : DomEvent) : Target :=
  match ev with
  | ev_load => OnMapObject
  | ev_click_zoomIn => OnZoomInBtn
  | ev_click_zoomOut => OnZoomOutBtn
  | ev_click_reset => OnResetBtn
  | _ => OnMapWrapper
  end.

Definition event_type (ev : DomEvent) : string :=
  match ev with
  | ev_load => "load"
  | ev_click_zoomIn | ev_click_zoomOut | ev_click_reset => "click"
  | ev_mousedown _ => "mousedown"
  | ev_mousemove _ => "mousemove"
  | ev_mouseup => "mouseup"
  | ev_mouseleave => "mouseleave"
  | ev_touchstart _ => "touchstart"
  | ev_touchmove _ => "touchmove"
  | ev_touchend => "touchend"
  | ev_wheel _ => "wheel"
  end.

Definition event_handler (ev : DomEvent) : Handler :=
  match ev with
  | ev_load => HSetupSVGInteraction
  | ev_click_zoomIn => HZoomIn
  | ev_click_zoomOut => HZoomOut
  | ev_click_reset => HResetZoom
  | ev_mousedown _ => HStartPan
  | ev_mousemove _ => HPan
  | ev_mouseup | ev_mouseleave => HEndPan
  | ev_touchstart _ => HTouchStart
  | ev_touchmove _ => HTouchMove
  | ev_touchend => HTouchEnd
  | ev_wheel _ => HWheel
  end.

(** The arrow functions [init] passes to [addEventListener]. *)
Definition listener_body (ev : DomEvent) : Js (World num) unit :=
  match ev with
  | ev_load => setupSVGInteraction
  | ev_click_zoomIn => zoomIn
  | ev_click_zoomOut => zoomOut
  | ev_click_reset => resetZoom
  | ev_mousedown e => startPan e
  | ev_mousemove e => pan e
  | ev_mouseup => endPan
  | ev_mouseleave => endPan
  | ev_touchstart touch => startPan touch
  | ev_touchmove touch => pan touch
  | ev_touchend => endPan
  | ev_wheel deltaY => if nlt deltaY lit_0 then zoomIn else zoomOut
  end.

(** The listeners of [init] registered on the event's target for its
    type. *)
Definition listening (ev : DomEvent) (l : Listener) : bool :=
  Target_eqb (target l) (event_target ev)
  && String.eqb (type l) (event_type ev)
  && Handler_eqb (handler l) (event_handler ev).

(** Delivery of an event: each listener registered for it runs once, in
    registration order; a listener that throws does not stop the others. *)
Definition dispatch (ev : DomEvent) (w : World num) : World num :=
  fold_left (fun w _ => snd (listener_body ev w))
    (filter (listening ev) (listeners w)) w.

Definition dispatch_all (evs : list DomEvent) (w : World num) : World num :=
  fold_left (fun w ev => dispatch ev w) evs w.

End Events.

Section Wiring.
Context {num : Type} {A : Arith num}.
Local Open Scope string_scope.

(** Whether the page has the control an event is delivered to; the
    container and the graphic are asked for separately. *)
Definition control_present (d : Document num) (ev : @DomEvent num) : bool :=
  match ev with
  | ev_click_zoomIn => present (zoom_in d)
  | ev_click_zoomOut => present (zoom_out d)
  | ev_click_reset => present (reset_zoom d)
  | _ => true
  end.

(** The listeners [init] registers on a page with the container and the
    graphic, in registration order. *)
Definition wired_listeners (d : Document num) : list Listener :=
  ([mkListener OnMapObject "load" HSetupSVGInteraction]
   ++ (if present (zoom_in d)
       then [mkListener OnZoomInBtn "click" HZoomIn] else [])
   ++ (if present (zoom_out d)
       then [mkListener OnZoomOutBtn "click" HZoomOut] else [])
   ++ (if present (reset_zoom d)
       then [mkListener OnResetBtn "click" HResetZoom] else [])
   ++ (if present (fullscreen d)
       then [mkListener OnFullscreenBtn "click" HToggleFullscreen] else [])
   ++ [mkListener OnMapWrapper "mousedown" HStartPan;
       mkListener OnMapWrapper "mousemove" HPan;
       mkListener OnMapWrapper "mouseup" HEndPan;
       mkListener OnMapWrapper "mouseleave" HEndPan;
       mkListener OnMapWrapper "touchstart" HTouchStart;
       mkListener OnMapWrapper "touchmove" HTouchMove;
       mkListener OnMapWrapper "touchend" HTouchEnd;
       mkListener OnMapWrapper "wheel" HWheel])%list.

(** The four listeners the set-up registers on the node of index [i]. *)
Definition station_listeners (i : nat) : list Listener :=
  [mkListener (OnStation i) "mouseenter" HStationEnter;
   mkListener (OnStation i) "mouseleave" HStationLeave;
   mkListener (OnStation i) "mousemove" HStationMove;
   mkListener (OnStation i) "click" HStationClick].

Fixpoint setup_listeners (i : nat) (nodes : list (Station num))
  : list Listener :=
  match nodes with
  | [] => []
  | n :: rest =>
      ((if is_station n then station_listeners i else [])
       ++ setup_listeners (S i) rest)%list
  end.

(** A node after the set-up: the nodes the selector matches get the
    pointer cursor and the transition, the others are left alone. *)
Definition styled (n : Station num) : Station num :=
  if is_station n
  then set_style_transition "all 0.2s ease" (set_style_cursor "pointer" n)
  else n.

(** A listener on a node of the graphic. *)
Definition on_station (l : Listener) : Prop :=
  exists i, target l = OnStation i.

(** The listeners of [w0] stay, and only listeners on nodes of the
    graphic are added. *)
Definition wiring_kept (w0 w : World num) : Prop :=
  exists ls,
    listeners w = (listeners w0 ++ ls)%list /\ Forall on_station ls.

(** A drag: press at [e0], moves, release. *)
Definition drag (e0 : MouseEvent num) (moves : list (MouseEvent num))
  : list (@Call num) :=
  (call_startPan e0 :: map (@call_pan num) moves ++ [call_endPan])%list.

End Wiring.

Section EventVocabulary.
Context {num : Type} {A : Arith num}.

(** The transform [updateTransform] assigns in a state. *)
Definition transform_of (v : Viewer num) : Transform num :=
  mkTransform (translateX v) (translateY v) (scale v).

(** The graphic shows the state: its [style.transform] is the one
    [updateTransform] assigns for the current offsets and scale, or it is
    still the page's own ([original]) while the state is the initial
    one. *)
Definition shows_state (original : option (Transform num))
  (w : World num) : Prop :=
  match mapObject (this w) with
  | None => True
  | Some o =>
      style_transform o = Some (transform_of (this w))
      \/ (style_transform o = original
          /\ scale (this w) = lit_1
          /\ translateX (this w) = lit_0
          /\ translateY (this w) = lit_0)
  end.

(** The graphic shows the state whenever CSS accepts the transform of the
    state. *)
Definition transform_synced (original : option (Transform num))
  (w : World num) : Prop :=
  valid_transform (transform_of (this w)) = true -> shows_state original w.

(** A world without the transform of its graphic. *)
Definition forget_transform (w : World num) : World num :=
  mkWorld
    (set_mapObject
       (option_map
          (fun o => mkMapObject None (contentDocument o))
          (mapObject (this w)))
       (this w))
    (listeners w) (console w) (alerts w).

Definition original_transform (d : Document num) : option (Transform num) :=
  match mrt_map_svg d with
  | Some o => style_transform o
  | None => None
  end.

End EventVocabulary.

(** ** MRTMapInteraction: full screen *)

(** [classList.replace(token, newToken)]: nothing happens when [token]
    is not in the list; otherwise the first of the two tokens becomes
    [newToken] and every other instance of either goes. *)
Fixpoint set_replace (token newToken : string) (l : DOMTokenList)
  : DOMTokenList :=
  match l with
  | [] => []
  | u :: rest =>
      if String.eqb token u || String.eqb newToken u
      then newToken :: token_remove token (token_remove newToken rest)
      else u :: set_replace token newToken rest
  end.

Definition token_replace (token newToken : string) (l : DOMTokenList)
  : DOMTokenList :=
  if contains token l then set_replace token newToken l else l.

(** The calls [toggleFullscreen] makes to the browser. *)
Inductive FullscreenCall : Type :=
| RequestFullscreen
| WebkitRequestFullscreen
| MsRequestFullscreen
| ExitFullscreen
| WebkitExitFullscreen
| MsExitFullscreen.

(** What [toggleFullscreen] reads and writes besides the viewer: whether
    [document.fullscreenElement] is set, which request methods the
    container has and which exit methods the document has, the class list
    of the [<i>] in the full-screen button ([None] when there is none),
    and the calls made. *)
Record Screen : Type := mkScreen {
  fullscreenElement : bool;
  has_requestFullscreen : bool;
  has_webkitRequestFullscreen : bool;
  has_msRequestFullscreen : bool;
  has_exitFullscreen : bool;
  has_webkitExitFullscreen : bool;
  has_msExitFullscreen : bool;
  icon : option DOMTokenList;
  calls : list FullscreenCall
}.

Definition set_fullscreenElement (b : bool) (s : Screen) : Screen :=
  mkScreen b (has_requestFullscreen s) (has_webkitRequestFullscreen s)
    (has_msRequestFullscreen s) (has_exitFullscreen s)
    (has_webkitExitFullscreen s) (has_msExitFullscreen s) (icon s)
    (calls s).

Definition set_icon (l : DOMTokenList) (s : Screen) : Screen :=
  mkScreen (fullscreenElement s) (has_requestFullscreen s)
    (has_webkitRequestFullscreen s) (has_msRequestFullscreen s)
    (has_exitFullscreen s) (has_webkitExitFullscreen s)
    (has_msExitFullscreen s) (Some l) (calls s).

Definition push_call (c : FullscreenCall) (s : Screen) : Screen :=
  mkScreen (fullscreenElement s) (has_requestFullscreen s)
    (has_webkitRequestFullscreen s) (has_msRequestFullscreen s)
    (has_exitFullscreen s) (has_webkitExitFullscreen s)
    (has_msExitFullscreen s) (icon s) (calls s ++ [c]).

Section Fullscreen.
Context {num : Type} {A : Arith num}.
Local Open Scope js_scope.
Local Open Scope string_scope.

Definition getScreen : Js (World num * Screen) Screen :=
  fun s => (Done (snd s), s).

Definition setScreen (f : Screen -> Screen) : Js (World num * Screen) unit :=
  modify (fun s => (fst s, f (snd s))).

Definition toggleFullscreen : Js (World num * Screen) unit :=
  s <- getScreen ;;
  if negb (fullscreenElement s) then
    v <- on_world getThis ;;
    w <- deref (mapWrapper v) ;;
    on_world (setThis (set_mapWrapper
      (Some (set_classList (token_add "fullscreen" (classList w)) w)))) ;;
    (if has_requestFullscreen s then setScreen (push_call RequestFullscreen)
     else if has_webkitRequestFullscreen s
          then setScreen (push_call WebkitRequestFullscreen)
     else if has_msRequestFullscreen s
          then setScreen (push_call MsRequestFullscreen)
     else ret tt) ;;
    _ <- deref (fullscreenBtn v) ;;
    i <- deref (icon s) ;;
    setScreen (set_icon (token_replace "fa-expand" "fa-compress" i))
  else
    (if has_exitFullscreen s then setScreen (push_call ExitFullscreen)
     else if has_webkitExitFullscreen s
          then setScreen (push_call WebkitExitFullscreen)
     else if has_msExitFullscreen s
          then setScreen (push_call MsExitFullscreen)
     else ret tt) ;;
    v <- on_world getThis ;;
    w <- deref (mapWrapper v) ;;
    on_world (setThis (set_mapWrapper
      (Some (set_classList (token_remove "fullscreen" (classList w)) w)))) ;;
    _ <- deref (fullscreenBtn v) ;;
    i <- deref (icon s) ;;
    setScreen (set_icon (token_replace "fa-compress" "fa-expand" i)).

(** [n] clicks on the full-screen control with no reaction of the
    browser in between. *)
Fixpoint clicks (n : nat) (s : World num * Screen) : World num * Screen :=
  match n with
  | O => s
  | S n' => clicks n' (snd (toggleFullscreen s))
  end.

(** The browser enters full screen, or leaves it (on a request of the
    page, or when the user presses Escape). *)
Definition browser_enters (s : World num * Screen) : World num * Screen :=
  (fst s, set_fullscreenElement true (snd s)).

Definition browser_leaves (s : World num * Screen) : World num * Screen :=
  (fst s, set_fullscreenElement false (snd s)).

(** The request and the exit the browser offers, if any. *)
Definition request_call (s : Screen) : list FullscreenCall :=
  if has_requestFullscreen s then [RequestFullscreen]
  else if has_webkitRequestFullscreen s then [WebkitRequestFullscreen]
  else if has_msRequestFullscreen s then [MsRequestFullscreen]
  else [].

Definition exit_call (s : Screen) : list FullscreenCall :=
  if has_exitFullscreen s then [ExitFullscreen]
  else if has_webkitExitFullscreen s then [WebkitExitFullscreen]
  else if has_msExitFullscreen s then [MsExitFullscreen]
  else [].

(** The class list of the container. *)
Definition wrapper_classes (s : World num * Screen)
  : option DOMTokenList :=
  option_map (@classList num) (mapWrapper (this (fst s))).

End Fullscreen.

(* ================================================================= *)
(** * Utility functions *)

(** ** Timers

    What [setTimeout] and [clearTimeout] do to the list of pending
    timers.  A timer is its handle, its delay and its callback; the
    callbacks of one closure are told apart by [Task].  Time is not
    measured: when a pending timer runs is up to the event loop, so a
    property holds for every moment at which it may run. *)

Section Timers.
Variable Task : Type.

Record Timers : Type := mkTimers {
  pending : list (nat * nat * Task);
  next_handle : nat
}.

Definition no_timers : Timers := mkTimers [] 1.

Definition handle_is (h : nat) (p : nat * nat * Task) : bool :=
  Nat.eqb (fst (fst p)) h.

Definition setTimeout (task : Task) (delay : nat) (ts : Timers)
  : nat * Timers :=
  (next_handle ts,
   mkTimers (pending ts ++ [(next_handle ts, delay, task)])
     (S (next_handle ts))).

(** [clearTimeout(undefined)] does nothing. *)
Definition clearTimeout (h : option nat) (ts : Timers) : Timers :=
  match h with
  | Some h =>
      mkTimers (filter (fun p => negb (handle_is h p)) (pending ts))
        (next_handle ts)
  | None => ts
  end.

(** The event loop takes a pending timer off the list and runs its
    callback; a timer that is not pending never runs. *)
Definition take (h : nat) (ts : Timers) : option (Task * Timers) :=
  match find (handle_is h) (pending ts) with
  | Some (_, _, task) => Some (task, clearTimeout (Some h) ts)
  | None => None
  end.

End Timers.

(** What happens to a closure: it is called, or one of its timers runs. *)
Inductive TimedEvent (Args : Type) : Type :=
| Invoke (args : Args)
| Fire (h : nat).
Arguments Fire {Args} h.

(** ** [debounce] *)

Module Debounce.
Section Closure.
Variables Args St : Type.
Variable func : Args -> Js St unit.
Variable wait : nat.
Local Open Scope js_scope.

(** The closure [debounce(func, wait)] returns: its variable [timeout],
    its timers (each a [later], closed over its [args]) and the state
    [func] acts on; [func] may throw, and does not call the closure
    itself. *)
Record Closure : Type := mkClosure {
  timeout : option nat;
  timers : Timers Args;
  state : St
}.

Definition initial (s : St) : Closure := mkClosure None (no_timers Args) s.

Definition set_timeout (h : option nat) (c : Closure) : Closure :=
  mkClosure h (timers c) (state c).

Definition set_timers (ts : Timers Args) (c : Closure) : Closure :=
  mkClosure (timeout c) ts (state c).

Definition get : Js Closure Closure := fun c => (Done c, c).

Definition call_func (args : Args) : Js Closure unit :=
  fun c =>
    let '(o, s') := func args (state c) in
    (o, mkClosure (timeout c) (timers c) s').

Definition later (args : Args) : Js Closure unit :=
  c <- get ;;
  modify (set_timers (clearTimeout (timeout c) (timers c))) ;;
  call_func args.

Definition executedFunction (args : Args) : Js Closure unit :=
  c <- get ;;
  modify (set_timers (clearTimeout (timeout c) (timers c))) ;;
  c <- get ;;
  let '(h, ts) := setTimeout args wait (timers c) in
  modify (set_timers ts) ;;
  modify (set_timeout (Some h)).

Definition fire (h : nat) (c : Closure) : Closure :=
  match take h (timers c) with
  | Some (args, ts) => snd (later args (set_timers ts c))
  | None => c
  end.

Definition step (c : Closure) (ev : TimedEvent Args) : Closure :=
  match ev with
  | Invoke args => snd (executedFunction args c)
  | Fire h => fire h c
  end.

Definition run (evs : list (TimedEvent Args)) (c : Closure) : Closure :=
  fold_left step evs c.

(** At most the timer [timeout] names is pending. *)
Definition settled (c : Closure) : Prop :=
  pending (timers c) = []
  \/ exists h args,
       timeout c = Some h /\ pending (timers c) = [(h, wait, args)].

End Closure.
End Debounce.

(** ** [throttle] *)

Module Throttle.
Section Closure.
Variables Args St : Type.
Variable func : Args -> Js St unit.
Variable limit : nat.
Local Open Scope js_scope.

(** The closure [throttle(func, limit)] returns: its variable
    [inThrottle] ([None] is [undefined]), its timers (each resets
    [inThrottle]) and the state [func] acts on; [func] may throw, and
    does not call the closure itself. *)
Record Closure : Type := mkClosure {
  inThrottle : option bool;
  timers : Timers unit;
  state : St
}.

Definition initial (s : St) : Closure := mkClosure None (no_timers unit) s.

Definition truthy (b : option bool) : bool :=
  match b with
  | Some true => true
  | _ => false
  end.

Definition set_inThrottle (b : bool) (c : Closure) : Closure :=
  mkClosure (Some b) (timers c) (state c).

Definition set_timers (ts : Timers unit) (c : Closure) : Closure :=
  mkClosure (inThrottle c) ts (state c).

Definition get : Js Closure Closure := fun c => (Done c, c).

Definition call_func (args : Args) : Js Closure unit :=
  fun c =>
    let '(o, s') := func args (state c) in
    (o, mkClosure (inThrottle c) (timers c) s').

Definition throttled (args : Args) : Js Closure unit :=
  c <- get ;;
  if negb (truthy (inThrottle c)) then
    call_func args ;;
    modify (set_inThrottle true) ;;
    c <- get ;;
    modify (set_timers (snd (setTimeout tt limit (timers c))))
  else ret tt.

Definition fire (h : nat) (c : Closure) : Closure :=
  match take h (timers c) with
  | Some (_, ts) => set_inThrottle false (set_timers ts c)
  | None => c
  end.

Definition step (c : Closure) (ev : TimedEvent Args) : Closure :=
  match ev with
  | Invoke args => snd (throttled args c)
  | Fire h => fire h c
  end.

Definition run (evs : list (TimedEvent Args)) (c : Closure) : Closure :=
  fold_left step evs c.

(** The closure is open when no timer is pending and [inThrottle] is
    falsy, closed when exactly one timer is pending and [inThrottle] is
    [true]. *)
Definition open (c : Closure) : Prop :=
  truthy (inThrottle c) = false /\ pending (timers c) = [].

Definition closed (c : Closure) : Prop :=
  inThrottle c = Some true
  /\ exists h, pending (timers c) = [(h, limit, tt)].

End Closure.
End Throttle.

(* ================================================================= *)
(** * Components driven by scrolling and typing *)

(** ** Header and back-to-top button

    [Navigation.handleScroll] and [BackToTop.init] each register a
    throttled handler for the [scroll] event of the window. *)

Module Scrolling.
Local Open Scope js_scope.
Local Open Scope string_scope.

(** What the two handlers read and write: [window.scrollY], the class
    list of [.header] and that of [#back-to-top]. *)
Record Page : Type := mkPage {
  scrollY : B64.float;
  header : option DOMTokenList;
  button : option DOMTokenList
}.

Definition set_scrollY (y : B64.float) (p : Page) : Page :=
  mkPage y (header p) (button p).

Definition set_header (l : DOMTokenList) (p : Page) : Page :=
  mkPage (scrollY p) (Some l) (button p).

Definition set_button (l : DOMTokenList) (p : Page) : Page :=
  mkPage (scrollY p) (header p) (Some l).

Definition get : Js Page Page := fun p => (Done p, p).

(** The function [Navigation.handleScroll] throttles. *)
Definition header_handler (_ : unit) : Js Page unit :=
  p <- get ;;
  if B64.ltb (B64.of_Z 50) (scrollY p) then
    h <- deref (header p) ;;
    modify (set_header (token_add "scrolled" h))
  else
    h <- deref (header p) ;;
    modify (set_header (token_remove "scrolled" h)).

(** The function [BackToTop.init] throttles; it is only registered when
    the button exists. *)
Definition button_handler (_ : unit) : Js Page unit :=
  p <- get ;;
  if B64.ltb (B64.of_Z 300) (scrollY p) then
    b <- deref (button p) ;;
    modify (set_button (token_add "visible" b))
  else
    b <- deref (button p) ;;
    modify (set_button (token_remove "visible" b)).

Definition limit : nat := 100.

(** The window has scrolled to [y]. *)
Definition at_position (y : B64.float) (c : Throttle.Closure Page)
  : Throttle.Closure Page :=
  Throttle.mkClosure (Throttle.inThrottle c) (Throttle.timers c)
    (set_scrollY y (Throttle.state c)).

(** A [scroll] event at position [y], delivered to a throttled
    handler. *)
Definition scroll (func : unit -> Js Page unit) (y : B64.float)
  (c : Throttle.Closure Page) : Throttle.Closure Page :=
  snd (Throttle.throttled func limit tt (at_position y c)).

Definition scrolls (func : unit -> Js Page unit) (ys : list B64.float)
  (c : Throttle.Closure Page) : Throttle.Closure Page :=
  fold_left (fun c y => scroll func y c) ys c.

End Scrolling.

(** ** Search box

    [SearchFunctionality.init] debounces [performSearch] by 300 ms and
    calls it with the value of the input on each [input] event. *)

Module Search.

(** [console.log('Searching for:', query)]; the state is the console. *)
Definition performSearch (query : jsstring) : Js (list jsstring) unit :=
  modify (fun console => console ++ [query]).

Definition wait : nat := 300.

(** The [input] events of a history deliver the values typed. *)
Definition typed (values : list jsstring) : list (TimedEvent jsstring) :=
  map (@Invoke jsstring) values.

Definition run (evs : list (TimedEvent jsstring))
  (c : Debounce.Closure jsstring (list jsstring))
  : Debounce.Closure jsstring (list jsstring) :=
  Debounce.run performSearch wait evs c.

End Search.

(* ================================================================= *)
(** * External links *)

Module ExternalLinksHandler.
Local Open Scope string_scope.

(** An element below a link: its classes and the two style properties
    [init] sets on the icon it creates. *)
Record Element : Type := mkElement {
  className : DOMTokenList;
  marginLeft : string;
  fontSize : string
}.

(** An [<a>] element: its attributes [href], [rel] and [target] ([None]
    when the attribute is absent) and the elements below it, in tree
    order. *)
Record Anchor : Type := mkAnchor {
  href : option jsstring;
  descendants : list Element;
  rel : option jsstring;
  target : option jsstring
}.

(** [a[href^="http"]] *)
Definition is_external (a : Anchor) : bool :=
  match href a with
  | Some h => starts_with (lit "http") h
  | None => false
  end.

(** [link.querySelector('.external-icon')] is not null. *)
Definition has_icon (a : Anchor) : bool :=
  existsb (fun e => contains "external-icon" (className e)) (descendants a).

Definition icon : Element :=
  mkElement ["fas"; "fa-external-link-alt"; "external-icon"]
    "0.25rem" "0.8em".

Definition appendChild (e : Element) (a : Anchor) : Anchor :=
  mkAnchor (href a) (descendants a ++ [e])%list (rel a) (target a).

Definition set_rel (v : jsstring) (a : Anchor) : Anchor :=
  mkAnchor (href a) (descendants a) (Some v) (target a).

Definition set_target (v : jsstring) (a : Anchor) : Anchor :=
  mkAnchor (href a) (descendants a) (rel a) (Some v).

(** The body of [externalLinks.forEach]. *)
Definition secure (link : Anchor) : Anchor :=
  let link := if negb (has_icon link) then appendChild icon link else link in
  let link :=
    if negb (present (rel link))
    then set_rel (lit "noopener noreferrer") link else link in
  if negb (present (target link))
  then set_target (lit "_blank") link else link.

(** [init], on the [<a>] elements of the document in tree order. *)
Definition init (anchors : list Anchor) : list Anchor :=
  map (fun a => if is_external a then secure a else a) anchors.

End ExternalLinksHandler.

(* ================================================================= *)
(** * Navigation menu *)

Module Navigation.
Local Open Scope js_scope.
Local Open Scope string_scope.

(** The elements [Navigation] holds: the class list of [.nav-menu], the
    [aria-expanded] attribute of [.nav-toggle] ([None] when absent) and
    the class lists of the [.nav-link] elements. *)
Record Nav : Type := mkNav {
  navMenu : option DOMTokenList;
  navToggle : option (option string);
  navLinks : list DOMTokenList
}.

Definition get : Js Nav Nav := fun n => (Done n, n).

Definition set_navMenu (l : DOMTokenList) (n : Nav) : Nav :=
  mkNav (Some l) (navToggle n) (navLinks n).

Definition set_aria_expanded (v : string) (n : Nav) : Nav :=
  mkNav (navMenu n) (Some (Some v)) (navLinks n).

Definition set_navLinks (ls : list DOMTokenList) (n : Nav) : Nav :=
  mkNav (navMenu n) (navToggle n) ls.

(** [classList.toggle(t)] *)
Definition token_toggle (t : string) (l : DOMTokenList) : DOMTokenList :=
  if contains t l then token_remove t l else (l ++ [t])%list.

(** [String(b)], as [setAttribute] stores a boolean. *)
Definition String_of_bool (b : bool) : string :=
  if b then "true" else "false".

Definition toggleMenu : Js Nav unit :=
  n <- get ;;
  menu <- deref (navMenu n) ;;
  modify (set_navMenu (token_toggle "active" menu)) ;;
  n <- get ;;
  menu <- deref (navMenu n) ;;
  let isExpanded := contains "active" menu in
  _ <- deref (navToggle n) ;;
  modify (set_aria_expanded (String_of_bool isExpanded)).

(** Applies [f] to the element of index [i]. *)
Fixpoint update_nth {X : Type} (i : nat) (f : X -> X) (l : list X)
  : list X :=
  match l, i with
  | [], _ => []
  | x :: l', O => f x :: l'
  | x :: l', S i' => x :: update_nth i' f l'
  end.

(** [setActiveLink(clickedLink)], the clicked link being the link of
    index [i]. *)
Definition setActiveLink (i : nat) : Js Nav unit :=
  modify (fun n => set_navLinks (map (token_remove "active") (navLinks n)) n) ;;
  modify (fun n =>
            set_navLinks (update_nth i (token_add "active") (navLinks n)) n).

(** The [click] listener [init] registers on the link of index [i]. *)
Definition link_click (i : nat) : Js Nav unit :=
  n <- get ;;
  menu <- deref (navMenu n) ;;
  (if contains "active" menu then toggleMenu else ret tt) ;;
  setActiveLink i.

End Navigation.

(** ** Navigation: the active link follows the scroll position *)

Module ScrollSpy.
Local Open Scope js_scope.
Local Open Scope string_scope.

(** A [section[id]] element. *)
Record Section_ : Type := mkSection {
  offsetTop : B64.float;
  offsetHeight : B64.float;
  id : jsstring
}.

(** A [.nav-link] element; [href] is [None] when the attribute is
    absent. *)
Record Link : Type := mkLink {
  classList : DOMTokenList;
  href : option jsstring
}.

(** What the handler of [updateActiveOnScroll] reads and writes;
    [header] is the [offsetHeight] of [.header], [None] when the page has
    no such element. *)
Record Page : Type := mkPage {
  scrollY : B64.float;
  header : option B64.float;
  sections : list Section_;
  navLinks : list Link
}.

Definition get : Js Page Page := fun p => (Done p, p).

Definition set_navLinks (ls : list Link) (p : Page) : Page :=
  mkPage (scrollY p) (header p) (sections p) ls.

Definition jsstring_eqb (a b : jsstring) : bool :=
  Nat.eqb (List.length a) (List.length b)
  && forallb (fun p => N.eqb (fst p) (snd p)) (combine a b).

(** [link.getAttribute('href') === `#${sectionId}`] *)
Definition points_to (sectionId : jsstring) (link : Link) : bool :=
  match href link with
  | Some h => jsstring_eqb h (lit "#" ++ sectionId)%list
  | None => false
  end.

(** The body of the inner [navLinks.forEach]. *)
Definition mark (sectionId : jsstring) (link : Link) : Link :=
  let l := token_remove "active" (classList link) in
  mkLink (if points_to sectionId link then token_add "active" l else l)
    (href link).

(** The test of the outer loop. *)
Definition around (scrollPosition : B64.float) (section : Section_) : bool :=
  B64.leb (offsetTop section) scrollPosition
  && B64.ltb scrollPosition (B64.add (offsetTop section) (offsetHeight section)).

Fixpoint forEach_section (scrollPosition : B64.float)
  (todo : list Section_) : Js Page unit :=
  match todo with
  | [] => ret tt
  | section :: rest =>
      (if around scrollPosition section
       then modify (fun p => set_navLinks (map (mark (id section)) (navLinks p)) p)
       else ret tt) ;;
      forEach_section scrollPosition rest
  end.

(** The function [updateActiveOnScroll] throttles. *)
Definition scrollHandler (_ : unit) : Js Page unit :=
  p <- get ;;
  h <- deref (header p) ;;
  let scrollPosition := B64.add (B64.add (scrollY p) h) (B64.of_Z 100) in
  forEach_section scrollPosition (sections p).

(** The last section around a position, in tree order. *)
Definition last_around (scrollPosition : B64.float)
  (l : list Section_) : option Section_ :=
  fold_left
    (fun found section =>
       if around scrollPosition section then Some section else found)
    l None.

(** The links once [found] has been the last section around. *)
Definition marked_for (found : option Section_) (links : list Link)
  : list Link :=
  match found with
  | Some section => map (mark (id section)) links
  | None => links
  end.

End ScrollSpy.

(* ================================================================= *)
(** * Form validation *)

(** ** Regular expressions

    The fragment the e-mail pattern uses, over UTF-16 code units:
    classes, concatenation and [+]; [Never], [Empty] and [Alt] are what
    derivatives of these need.  Without captures and look-around,
    [/^r$/.test(s)] is membership of [s] in the language of [r]; it is
    decided by derivatives. *)

Module Regex.

Inductive regex : Type :=
| Never
| Empty
| Class (p : N -> bool)
| Cat (r1 r2 : regex)
| Alt (r1 r2 : regex)
| Plus (r : regex).

Fixpoint nullable (r : regex) : bool :=
  match r with
  | Never => false
  | Empty => true
  | Class _ => false
  | Cat r1 r2 => nullable r1 && nullable r2
  | Alt r1 r2 => nullable r1 || nullable r2
  | Plus r => nullable r
  end.

Fixpoint derive (c : N) (r : regex) : regex :=
  match r with
  | Never => Never
  | Empty => Never
  | Class p => if p c then Empty else Never
  | Cat r1 r2 =>
      if nullable r1
      then Alt (Cat (derive c r1) r2) (derive c r2)
      else Cat (derive c r1) r2
  | Alt r1 r2 => Alt (derive c r1) (derive c r2)
  | Plus r => Cat (derive c r) (Alt Empty (Plus r))
  end.

(** [/^r$/.test(s)] *)
Definition test (r : regex) (s : jsstring) : bool :=
  nullable (fold_left (fun r c => derive c r) s r).

(** The language of an expression. *)
Inductive matches : regex -> jsstring -> Prop :=
| matches_Empty : matches Empty []
| matches_Class p c : p c = true -> matches (Class p) [c]
| matches_Cat r1 r2 s1 s2 :
    matches r1 s1 -> matches r2 s2 -> matches (Cat r1 r2) (s1 ++ s2)
| matches_Alt_l r1 r2 s : matches r1 s -> matches (Alt r1 r2) s
| matches_Alt_r r1 r2 s : matches r2 s -> matches (Alt r1 r2) s
| matches_Plus_one r s : matches r s -> matches (Plus r) s
| matches_Plus_more r s1 s2 :
    matches r s1 -> matches (Plus r) s2 -> matches (Plus r) (s1 ++ s2).

End Regex.

(** ** [FormValidator] *)

Module FormValidator.
Local Open Scope js_scope.
Local Open Scope string_scope.

(** [[^\s@]] *)
Definition not_space_or_at (c : N) : bool :=
  negb (is_space c || N.eqb c 64).

(** [/^[^\s@]+@[^\s@]+\.[^\s@]+$/] *)
Definition regex : Regex.regex :=
  Regex.Cat (Regex.Plus (Regex.Class not_space_or_at))
    (Regex.Cat (Regex.Class (N.eqb 64))
       (Regex.Cat (Regex.Plus (Regex.Class not_space_or_at))
          (Regex.Cat (Regex.Class (N.eqb 46))
             (Regex.Plus (Regex.Class not_space_or_at))))).

Definition isValidEmail (email : jsstring) : bool := Regex.test regex email.

(** An element of class [error-message] below the parent of a field. *)
Record ErrorElement : Type := mkErrorElement {
  className : string;
  textContent : jsstring;
  color : string;
  fontSize : string;
  marginTop : string
}.

(** A field of the form: whether it has the attribute [required], its
    [type], its [value], its class list and which element is its
    parent. *)
Record Input : Type := mkInput {
  required : bool;
  type : string;
  value : jsstring;
  classList : DOMTokenList;
  parentElement : nat
}.

(** The form: its [input] and [textarea] elements in tree order, for
    each parent the elements of class [error-message] below it in tree
    order, and the console.  The parents of the fields are not nested in
    each other. *)
Record Form : Type := mkForm {
  inputs : list Input;
  parents : list (list ErrorElement);
  console : list string
}.

Definition get : Js Form Form := fun f => (Done f, f).

Definition set_input_classList (l : DOMTokenList) (input : Input) : Input :=
  mkInput (required input) (type input) (value input) l
    (parentElement input).

Definition update_input (i : nat) (f : Input -> Input) (form : Form)
  : Form :=
  mkForm (Navigation.update_nth i f (inputs form)) (parents form)
    (console form).

Definition update_parent (k : nat)
  (f : list ErrorElement -> list ErrorElement) (form : Form) : Form :=
  mkForm (inputs form) (Navigation.update_nth k f (parents form))
    (console form).

Definition createErrorElement (message : jsstring) : ErrorElement :=
  mkErrorElement "error-message" message "#B40000" "0.875rem" "0.25rem".

(** [input.parentElement] of the field of index [i] and the elements of
    class [error-message] below it; a field without a parent makes the
    access throw. *)
Definition parent_of (i : nat) : Js Form (nat * list ErrorElement) :=
  form <- get ;;
  input <- deref (nth_error (inputs form) i) ;;
  errors <- deref (nth_error (parents form) (parentElement input)) ;;
  ret (parentElement input, errors).

(** [appendChild] moves an element that is already in the document. *)
Definition showError (i : nat) (message : jsstring) : Js Form unit :=
  p <- parent_of i ;;
  let '(k, errors) := p in
  let errorElement :=
    match errors with
    | e :: _ => e
    | [] => createErrorElement message
    end in
  modify (update_parent k (fun errors => (tl errors ++ [errorElement])%list)) ;;
  modify (update_input i (fun input =>
            set_input_classList (token_add "error" (classList input)) input)).

Definition clearError (i : nat) : Js Form unit :=
  p <- parent_of i ;;
  let '(k, errors) := p in
  modify (update_parent k (fun errors => tl errors)) ;;
  modify (update_input i (fun input =>
            set_input_classList (token_remove "error" (classList input))
              input)).

Definition is_empty (s : jsstring) : bool :=
  match s with
  | [] => true
  | _ :: _ => false
  end.

(** The body of [inputs.forEach], on the fields of the given indices. *)
Fixpoint forEach_input (indices : list nat) (isValid : bool)
  : Js Form bool :=
  match indices with
  | [] => ret isValid
  | i :: rest =>
      form <- get ;;
      input <- deref (nth_error (inputs form) i) ;;
      if required input && is_empty (trim (value input)) then
        showError i (lit "This field is required") ;;
        forEach_input rest false
      else if String.eqb (type input) "email"
              && negb (isValidEmail (value input)) then
        showError i (lit "Please enter a valid email") ;;
        forEach_input rest false
      else
        clearError i ;;
        forEach_input rest isValid
  end.

Definition validateForm : Js Form bool :=
  form <- get ;;
  forEach_input (seq 0 (List.length (inputs form))) true.

Definition submitForm : Js Form unit :=
  modify (fun form =>
            mkForm (inputs form) (parents form)
              (console form ++ ["Form submitted successfully"])%list).

(** The [submit] listener of [init]. *)
Definition on_submit : Js Form unit :=
  ok <- validateForm ;;
  if ok then submitForm else ret tt.

(** What the loop decides for a field, and the class it leaves on it. *)
Definition field_ok (input : Input) : bool :=
  negb (required input && is_empty (trim (value input)))
  && negb (String.eqb (type input) "email"
           && negb (isValidEmail (value input))).

Definition marked (input : Input) : Input :=
  set_input_classList
    (if field_ok input
     then token_remove "error" (classList input)
     else token_add "error" (classList input)) input.

(** The message [validateForm] shows for a field that fails. *)
Definition message_for (input : Input) : jsstring :=
  if required input && is_empty (trim (value input))
  then lit "This field is required"
  else lit "Please enter a valid email".

(** What validating a field does to the error elements below its
    parent. *)
Definition errors_after (input : Input) (errors : list ErrorElement)
  : list ErrorElement :=
  if field_ok input then tl errors
  else
    (tl errors
     ++ [match errors with
         | e :: _ => e
         | [] => createErrorElement (message_for input)
         end])%list.

Definition parents_after (fields : list Input)
  (ps : list (list ErrorElement)) : list (list ErrorElement) :=
  fold_left
    (fun ps input =>
       Navigation.update_nth (parentElement input) (errors_after input) ps)
    fields ps.


(** Every field has a parent. *)
Definition well_formed (form : Form) : Prop :=
  Forall (fun input => parentElement input < List.length (parents form))%nat
    (inputs form).


End FormValidator.

(* ================================================================= *)
(** * Properties *)

Arguments contains : simpl never.
Arguments token_add : simpl never.
Arguments token_remove : simpl never.

(** Unfolds the monadic plumbing of a method body. *)
Ltac js_unfold :=
  cbv beta iota delta
    [resetZoom zoomIn zoomOut startPan pan endPan updateTransform
     updateTooltipPosition showStationTooltip hideTooltip handleStationClick
     station_mouseenter station_mouseleave station_mousemove station_click
     getStation setStation on_world console_log alert
     addEventListener when call
     bind ret throw modify try_catch deref getThis setThis];
  cbn.

(** ** Literals *)

(** The binary64 constants are the doubles nearest to the decimal
    literals: the integers convert exactly, and 0.2, 0.5 and 1.5 are the
    correctly rounded quotients 2/10, 1/2 and 3/2.  All are canonical. *)
Lemma binary64_literals :
  B64.d1 = B64.of_Z 1
  /\ B64.d3 = B64.of_Z 3
  /\ B64.d10 = B64.of_Z 10
  /\ B64.d0_2 = B64.div (B64.of_Z 2) (B64.of_Z 10)
  /\ B64.d0_5 = B64.div (B64.of_Z 1) (B64.of_Z 2)
  /\ B64.d1_5 = B64.div (B64.of_Z 3) (B64.of_Z 2)
  /\ forallb (valid_binary B64.prec B64.emax)
       [B64.d0; B64.d0_2; B64.d0_5; B64.d1; B64.d1_5; B64.d3; B64.d10]
     = true.
Proof. repeat split; vm_compute; reflexivity. Qed.

(** ** Strings *)

Section StringFacts.
Local Open Scope N_scope.

Lemma replace_underscores_length (s : jsstring) :
  List.length (replace_underscores s) = List.length s.
Proof. apply length_map. Qed.

Lemma replace_underscores_clean (s : jsstring) :
  ~ In 95 (replace_underscores s).
Proof.
  unfold replace_underscores. rewrite in_map_iff. intros [c [E _]].
  revert E. destruct (N.eqb_spec c 95); [discriminate | congruence].
Qed.

(** Removing matches and trimming only delete code units. *)
Lemma remove_matches_keeps (P : N -> Prop) (pattern : jsstring) :
  forall (s : jsstring) (skip : nat),
    Forall P s -> Forall P (remove_matches pattern skip s).
Proof.
  induction s as [|c s IH]; intros skip H; cbn; [constructor|].
  inversion H as [|? ? Hc Hs]; subst.
  destruct skip; [|apply IH, Hs].
  destruct (matches_at pattern (c :: s)); [apply IH, Hs|].
  constructor; [exact Hc | apply IH, Hs].
Qed.

Lemma trim_start_keeps (P : N -> Prop) (s : jsstring) :
  Forall P s -> Forall P (trim_start s).
Proof.
  induction s as [|c s IH]; intros H; cbn; [constructor|].
  destruct (is_space c); [|exact H].
  inversion H; subst. apply IH. assumption.
Qed.

Lemma trim_keeps (P : N -> Prop) (s : jsstring) :
  Forall P s -> Forall P (trim s).
Proof.
  intros H. unfold trim.
  apply Forall_rev, trim_start_keeps, Forall_rev, trim_start_keeps, H.
Qed.

(** The label never contains an underscore. *)
Lemma clean_name_no_underscore (s : jsstring) : ~ In 95 (clean_name s).
Proof.
  unfold clean_name.
  assert (H : Forall (fun c => c <> 95) (replace_underscores s)).
  { apply Forall_forall. intros c Hc ->.
    exact (replace_underscores_clean s Hc). }
  apply remove_matches_keeps with (pattern := lit "station") (skip := O) in H.
  apply trim_keeps in H. rewrite Forall_forall in H.
  intros Hin. exact (H _ Hin eq_refl).
Qed.

(** [trim_start] drops a run of white space and stops at the first other
    code unit. *)
Lemma trim_start_spec (s : jsstring) :
  exists pre,
    s = (pre ++ trim_start s)%list
    /\ forallb is_space pre = true
    /\ match trim_start s with
       | [] => True
       | c :: _ => is_space c = false
       end.
Proof.
  induction s as [|c s (pre & E & Hp & Hh)]; cbn.
  - exists []. repeat split.
  - destruct (is_space c) eqn:Hc.
    + exists (c :: pre). cbn. rewrite Hc, Hp. repeat split; [|exact Hh].
      f_equal. exact E.
    + exists []. cbn. rewrite Hc. repeat split.
Qed.

Lemma trim_start_nonempty_last (s : jsstring) (c : N) :
  trim_start s <> [] -> last (trim_start s) c = last s c.
Proof.
  induction s as [|d s IH]; cbn; [congruence|].
  destruct (is_space d); [|reflexivity].
  intros H. rewrite (IH H). destruct s; [cbn in H; congruence|reflexivity].
Qed.

(** [trim] cuts white space off both ends, and nothing else. *)
Lemma trim_spec (s : jsstring) : trimmed s (trim s).
Proof.
  unfold trimmed, trim.
  destruct (trim_start_spec s) as (pre & E1 & Hpre & Hh1).
  destruct (trim_start_spec (rev (trim_start s))) as (tsop & E2 & Hpost & Hh2).
  set (body := trim_start (rev (trim_start s))) in *.
  exists pre, (rev tsop). split; [|split; [exact Hpre|split]].
  - rewrite E1 at 1. f_equal.
    rewrite <- (rev_involutive (trim_start s)), E2, rev_app_distr.
    reflexivity.
  - rewrite forallb_forall in *. intros c Hc. apply Hpost.
    apply in_rev. exact Hc.
  - destruct (rev body) as [|c l] eqn:Er; [exact I|].
    assert (Hb : body <> []) by (intros Z; rewrite Z in Er; discriminate).
    split.
    + (* the first kept unit is the first unit of [trim_start s] unless
         everything after it was cut *)
      assert (Hl : last body c = c).
      { rewrite <- (rev_involutive body), Er. cbn.
        apply last_last. }
      unfold body in Hl.
      rewrite (trim_start_nonempty_last _ c Hb) in Hl.
      destruct (trim_start s) as [|d t] eqn:Et; [cbn in Hb; congruence|].
      assert (Hd : d = c).
      { rewrite <- Hl. cbn [rev]. rewrite last_last. reflexivity. }
      subst d. exact Hh1.
    + destruct body as [|b body'] eqn:Eb; [congruence|].
      assert (Hlast : last (c :: l) c = b).
      { rewrite <- Er. cbn [rev]. apply last_last. }
      rewrite Hlast. exact Hh2.
Qed.

Lemma remove_matches_skip (pattern : jsstring) :
  forall (s : jsstring) (k : nat),
    remove_matches pattern k s = remove_matches pattern O (skipn k s).
Proof.
  induction s as [|c s IH]; intros [|k]; cbn [remove_matches skipn];
    try reflexivity.
  apply IH.
Qed.

Lemma matches_at_prefix (pattern : jsstring) :
  forall s : jsstring,
    matches_at pattern s = true ->
    (List.length pattern <= List.length s)%nat
    /\ matches_at pattern (firstn (List.length pattern) s) = true.
Proof.
  induction pattern as [|p pattern IH]; intros s H; cbn in *.
  - split; [lia | reflexivity].
  - destruct s as [|c s]; [discriminate|].
    apply andb_true_iff in H. destruct H as [Hc Hs].
    destruct (IH s Hs) as [Hl Hm]. cbn. rewrite Hc, Hm. split; [lia|reflexivity].
Qed.

Lemma remove_matches_stripped (pattern : jsstring) :
  pattern <> [] ->
  forall s : jsstring, stripped pattern s (remove_matches pattern O s).
Proof.
  intros Hp s.
  assert (G : forall (n : nat) (t : jsstring),
             (List.length t <= n)%nat ->
             stripped pattern t (remove_matches pattern O t)).
  { induction n as [|n IH]; intros t Hn.
    - destruct t; [constructor | cbn in Hn; lia].
    - destruct t as [|c t]; [constructor|].
      cbn [remove_matches].
      destruct (matches_at pattern (c :: t)) eqn:E.
      + destruct (matches_at_prefix pattern (c :: t) E) as [Hl Hm].
        rewrite remove_matches_skip.
        destruct pattern as [|p pattern']; [congruence|].
        cbn [List.length Nat.pred] in *.
        change (skipn (List.length pattern') t)
          with (skipn (S (List.length pattern')) (c :: t)).
        rewrite <- (firstn_skipn (S (List.length pattern')) (c :: t)) at 1.
        apply stripped_match.
        * rewrite length_firstn. cbn [List.length]. lia.
        * exact Hm.
        * apply IH. rewrite length_skipn. cbn [List.length] in *. lia.
      + apply stripped_keep; [exact E|]. apply IH. cbn in Hn. lia. }
  apply (G (List.length s)). lia.
Qed.

(** [replace(/station/gi, '')] removes, from the left, every stretch of
    seven code units that spells "station" in any letter case. *)
Lemma remove_station_stripped (s : jsstring) :
  stripped (lit "station") s (remove_station s).
Proof. apply remove_matches_stripped. discriminate. Qed.

(** The clean-up chain computes the derivation. *)
Lemma clean_name_label_of (name : jsstring) :
  label_of name (clean_name name).
Proof.
  exists (remove_station (replace_underscores name)).
  split; [apply remove_station_stripped | apply trim_spec].
Qed.

End StringFacts.

(** ** Construction, reset and pan *)

(** [init] wires listeners and logs; it assigns no field of the viewer. *)
Lemma constructor_this {num : Type} {A : Arith num} (d : Document num) :
  this (snd (constructor d))
  = mkViewer (map_wrapper d) (mrt_map_svg d) (station_tooltip d) (zoom_in d)
      (zoom_out d) (reset_zoom d) (fullscreen d)
      lit_1 lit_0_5 lit_3 false lit_0 lit_0 lit_0 lit_0.
Proof.
  unfold constructor, init. js_unfold.
  destruct (map_wrapper d), (mrt_map_svg d); cbn; try reflexivity.
  destruct (zoom_in d), (zoom_out d), (reset_zoom d), (fullscreen d);
    reflexivity.
Qed.

(** C4.  Whatever the scale, the offsets and the gesture state were,
    [resetZoom()] returns normally and leaves [scale = 1],
    [translateX = 0] and [translateY = 0]; it has no precondition.  This
    holds in either arithmetic. *)
Theorem resetZoom_yields_initial_view :
  forall (num : Type) (A : Arith num) (w : World num),
    fst (resetZoom w) = Done tt
    /\ scale (this (snd (resetZoom w))) = lit_1
    /\ translateX (this (snd (resetZoom w))) = lit_0
    /\ translateY (this (snd (resetZoom w))) = lit_0.
Proof.
  intros num A w. js_unfold.
  destruct (mapObject (this w)); cbn; repeat split; reflexivity.
Qed.

Lemma token_remove_idempotent (t : string) (l : DOMTokenList) :
  token_remove t (token_remove t l) = token_remove t l.
Proof.
  unfold token_remove. induction l as [|u l IH]; cbn; [reflexivity|].
  destruct (negb (String.eqb t u)) eqn:E; cbn; rewrite ?E, IH; reflexivity.
Qed.

Lemma run_startPan_pan {num : Type} {A : Arith num} (w : World num)
      (e0 e1 : MouseEvent num) :
  let w2 := run [call_startPan e0; call_pan e1] w in
  translateX (this w2)
  = nsub (clientX e1) (nsub (clientX e0) (translateX (this w)))
  /\ translateY (this w2)
     = nsub (clientY e1) (nsub (clientY e0) (translateY (this w))).
Proof.
  unfold run; cbn [fold_left]. js_unfold.
  destruct (mapWrapper (this w)); cbn;
    destruct (mapObject (this w)); cbn; split; reflexivity.
Qed.

(** C3.  From offsets [(tx, ty)], [startPan] at pointer [(x0, y0)] makes
    the gesture active with anchor [(x0 - tx, y0 - ty)]; a following [pan]
    at [(x1, y1)] sets the offsets to [(x1 - (x0 - tx), y1 - (y0 - ty))];
    neither changes the scale.  On a freshly constructed viewer,
    [startPan(100,100)] then [pan(150,120)] gives offsets [(50, 20)], in
    binary64 and in exact arithmetic. *)
Theorem startPan_then_pan :
  (forall (num : Type) (A : Arith num) (w : World num)
          (e0 e1 : MouseEvent num),
      let w1 := snd (startPan e0 w) in
      let w2 := snd (pan e1 w1) in
      isPanning (this w1) = true
      /\ startX (this w1) = nsub (clientX e0) (translateX (this w))
      /\ startY (this w1) = nsub (clientY e0) (translateY (this w))
      /\ translateX (this w2)
         = nsub (clientX e1) (nsub (clientX e0) (translateX (this w)))
      /\ translateY (this w2)
         = nsub (clientY e1) (nsub (clientY e0) (translateY (this w)))
      /\ scale (this w1) = scale (this w)
      /\ scale (this w2) = scale (this w))
  /\ (forall document : Document B64.float,
        let w :=
          run [call_startPan (mkMouseEvent (B64.of_Z 100) (B64.of_Z 100));
               call_pan (mkMouseEvent (B64.of_Z 150) (B64.of_Z 120))]
              (snd (constructor document)) in
        translateX (this w) = B64.of_Z 50
        /\ translateY (this w) = B64.of_Z 20)
  /\ (forall document : Document Q,
        let w :=
          run [call_startPan (mkMouseEvent 100%Q 100%Q);
               call_pan (mkMouseEvent 150%Q 120%Q)]
              (snd (constructor document)) in
        translateX (this w) = 50%Q /\ translateY (this w) = 20%Q).
Proof.
  split; [|split].
  - intros num A w e0 e1. js_unfold.
    destruct (mapWrapper (this w)); cbn;
      destruct (mapObject (this w)); cbn; repeat split; reflexivity.
  - intros d w.
    destruct (run_startPan_pan (snd (constructor d))
                (mkMouseEvent (B64.of_Z 100) (B64.of_Z 100))
                (mkMouseEvent (B64.of_Z 150) (B64.of_Z 120))) as [HX HY].
    subst w; rewrite HX, HY, constructor_this; split; vm_compute; reflexivity.
  - intros d w.
    destruct (run_startPan_pan (snd (constructor d))
                (mkMouseEvent 100%Q 100%Q) (mkMouseEvent 150%Q 120%Q))
      as [HX HY].
    subst w; rewrite HX, HY, constructor_this; split; vm_compute; reflexivity.
Qed.

(** C6.  In any state [endPan()] leaves the gesture inactive and the
    scale and offsets as they were, and a second [endPan()] changes
    nothing more.  On a viewer whose container exists (the only viewers
    whose listeners are wired) it returns normally, the first time and the
    second.  [pan()] with no active gesture returns normally and changes
    nothing at all. *)
Theorem endPan_idempotent_and_idle_pan_noop :
  forall (num : Type) (A : Arith num) (w : World num),
    (isPanning (this (snd (endPan w))) = false
     /\ scale (this (snd (endPan w))) = scale (this w)
     /\ translateX (this (snd (endPan w))) = translateX (this w)
     /\ translateY (this (snd (endPan w))) = translateY (this w)
     /\ snd (endPan (snd (endPan w))) = snd (endPan w))
    /\ (present (mapWrapper (this w)) = true ->
        fst (endPan w) = Done tt
        /\ fst (endPan (snd (endPan w))) = Done tt)
    /\ (forall e : MouseEvent num,
          isPanning (this w) = false -> pan e w = (Done tt, w)).
Proof.
  intros num A [[wr mo tip zi zo rz fs s lo hi p sx sy tx ty] ls cs al].
  split; [|split].
  - destruct wr as [[cl rl rt]|]; js_unfold; unfold set_classList; cbn;
      rewrite ?token_remove_idempotent; repeat split; reflexivity.
  - cbn. destruct wr as [[cl rl rt]|]; [intros _|discriminate].
    js_unfold. split; reflexivity.
  - cbn. intros e ->. reflexivity.
Qed.

Lemma endPan_idempotent_and_idle_pan_noop_witness :
  present (mapWrapper (this (Sample.world (B64.of_Z 5)))) = true
  /\ isPanning (this (Sample.world (B64.of_Z 5))) = false
  /\ fst (endPan (Sample.world (B64.of_Z 5))) = Done tt
  /\ fst (endPan (snd (endPan (Sample.world (B64.of_Z 5))))) = Done tt
  /\ pan (Sample.at_ (B64.of_Z 150) (B64.of_Z 120))
         (Sample.world (B64.of_Z 5))
     = (Done tt, Sample.world (B64.of_Z 5)).
Proof.
  set (w := Sample.world (B64.of_Z 5)).
  assert (Hw : present (mapWrapper (this w)) = true)
    by (vm_compute; reflexivity).
  assert (Hp : isPanning (this w) = false) by (vm_compute; reflexivity).
  destruct (endPan_idempotent_and_idle_pan_noop binary64 w)
    as (_ & Hend & Hpan).
  split; [exact Hw|]. split; [exact Hp|].
  split; [exact (proj1 (Hend Hw))|]. split; [exact (proj2 (Hend Hw))|].
  exact (Hpan _ Hp).
Defined.

(** On a viewer without container, [endPan] would raise; [init] has wired
    no listener there, so nothing calls it. *)
Lemma endPan_without_wrapper {num : Type} {A : Arith num} (w : World num) :
  mapWrapper (this w) = None -> fst (endPan w) = Thrown TypeError.
Proof.
  intros H. js_unfold. rewrite H. reflexivity.
Qed.

(** A viewer that has wired any listener has its container, and no call
    takes it away. *)
Lemma call_keeps_wrapper {num : Type} {A : Arith num} (c : Call)
      (w : World num) :
  present (mapWrapper (this w)) = true ->
  present (mapWrapper (this (snd (call c w)))) = true.
Proof.
  intros H. destruct (mapWrapper (this w)) as [wr|] eqn:E; [|discriminate].
  destruct c as [| | |e|e|]; js_unfold; rewrite ?E; cbn.
  - destruct (nlt _ _); cbn; [destruct (mapObject (this w)); cbn|];
      rewrite E; reflexivity.
  - destruct (nlt _ _); cbn; [destruct (mapObject (this w)); cbn|];
      rewrite E; reflexivity.
  - destruct (mapObject (this w)); cbn; rewrite E; reflexivity.
  - reflexivity.
  - destruct (isPanning (this w)); cbn;
      [destruct (mapObject (this w)); cbn|]; rewrite E; reflexivity.
  - reflexivity.
Qed.

Lemma wired_viewer_has_wrapper {num : Type} {A : Arith num}
      (d : Document num) (cs : list Call) :
  listeners (snd (constructor d)) <> [] ->
  present (mapWrapper (this (run cs (snd (constructor d))))) = true.
Proof.
  intros H. unfold run.
  assert (H0 : present (mapWrapper (this (snd (constructor d)))) = true).
  { rewrite constructor_this; cbn.
    destruct (map_wrapper d) eqn:E; [reflexivity|].
    exfalso. apply H. unfold constructor, init. js_unfold.
    rewrite E. reflexivity. }
  clear H. revert H0. generalize (snd (constructor d)).
  induction cs as [|c cs IH]; intros w Hw; cbn; [exact Hw|].
  apply IH, call_keeps_wrapper, Hw.
Qed.

(** ** Zoom *)

Section ZoomSteps.
Context {num : Type} {A : Arith num}.

(** What a call leaves of the fields the claims speak of. *)
Lemma zoomIn_effect (w : World num) :
  fst (zoomIn w) = Done tt
  /\ scale (this (snd (zoomIn w)))
     = zoomed_in (maxScale (this w)) (scale (this w))
  /\ minScale (this (snd (zoomIn w))) = minScale (this w)
  /\ maxScale (this (snd (zoomIn w))) = maxScale (this w)
  /\ translateX (this (snd (zoomIn w))) = translateX (this w)
  /\ translateY (this (snd (zoomIn w))) = translateY (this w).
Proof.
  unfold zoomed_in. js_unfold.
  destruct (nlt (scale (this w)) (maxScale (this w))); cbn;
    [destruct (mapObject (this w)); cbn|]; repeat split; reflexivity.
Qed.

Lemma zoomOut_effect (w : World num) :
  fst (zoomOut w) = Done tt
  /\ scale (this (snd (zoomOut w)))
     = zoomed_out (minScale (this w)) (scale (this w))
  /\ minScale (this (snd (zoomOut w))) = minScale (this w)
  /\ maxScale (this (snd (zoomOut w))) = maxScale (this w)
  /\ translateX (this (snd (zoomOut w))) = translateX (this w)
  /\ translateY (this (snd (zoomOut w))) = translateY (this w).
Proof.
  unfold zoomed_out. js_unfold.
  destruct (nlt (minScale (this w)) (scale (this w))); cbn;
    [destruct (mapObject (this w)); cbn|]; repeat split; reflexivity.
Qed.

Lemma zoomIn_at_max (w : World num) :
  nlt (scale (this w)) (maxScale (this w)) = false ->
  zoomIn w = (Done tt, w).
Proof. intros H. js_unfold. rewrite H. reflexivity. Qed.

Lemma zoomOut_at_min (w : World num) :
  nlt (minScale (this w)) (scale (this w)) = false ->
  zoomOut w = (Done tt, w).
Proof. intros H. js_unfold. rewrite H. reflexivity. Qed.

Lemma call_effect (c : Call) (w : World num) :
  In (scale (this (snd (call c w))))
     (next_scales (minScale (this w)) (maxScale (this w)) (scale (this w)))
  /\ minScale (this (snd (call c w))) = minScale (this w)
  /\ maxScale (this (snd (call c w))) = maxScale (this w).
Proof.
  unfold next_scales.
  destruct c as [| | |e|e|]; cbn [call].
  - destruct (zoomIn_effect w) as (_ & -> & -> & -> & _). cbn; auto.
  - destruct (zoomOut_effect w) as (_ & -> & -> & -> & _). cbn; auto.
  - js_unfold. destruct (mapObject (this w)); cbn; auto.
  - js_unfold. destruct (mapWrapper (this w)); cbn; auto 6.
  - js_unfold. destruct (isPanning (this w)); cbn;
      [destruct (mapObject (this w)); cbn|]; auto 6.
  - js_unfold. destruct (mapWrapper (this w)); cbn; auto 6.
Qed.

(** An invariant of every call holds along every sequence of calls. *)
Lemma trace_invariant (P : World num -> Prop) :
  (forall c w, P w -> P (snd (call c w))) ->
  forall cs w, P w -> Forall P (trace cs w).
Proof.
  intros step cs. induction cs as [|c cs IH]; intros w Hw; cbn.
  - constructor.
  - constructor; [|apply IH]; apply step; exact Hw.
Qed.

Lemma run_invariant (P : World num -> Prop) :
  (forall c w, P w -> P (snd (call c w))) ->
  forall cs w, P w -> P (run cs w).
Proof.
  intros step cs. unfold run.
  induction cs as [|c cs IH]; intros w Hw; cbn; [exact Hw|].
  apply IH, step, Hw.
Qed.

End ZoomSteps.

(** *** Exact arithmetic *)

Lemma Qltb_true (a b : Q) : Qltb a b = true <-> (a < b)%Q.
Proof.
  unfold Qltb. rewrite negb_true_iff, <- not_true_iff_false, Qle_bool_iff.
  split; [apply Qnot_le_lt | apply Qlt_not_le].
Qed.

Lemma Qltb_false (a b : Q) : Qltb a b = false <-> (b <= a)%Q.
Proof.
  unfold Qltb. rewrite negb_false_iff. apply Qle_bool_iff.
Qed.

Lemma zoomed_in_exact (hi s : Q) :
  (s <= hi)%Q -> (zoomed_in hi s == Qmin (s + (2 # 10)) hi)%Q.
Proof.
  intros H. unfold zoomed_in; cbn.
  destruct (Qltb s hi) eqn:E; [reflexivity|].
  apply Qltb_false in E. rewrite Q.min_r; lra.
Qed.

Lemma zoomed_out_exact (lo s : Q) :
  (lo <= s)%Q -> (zoomed_out lo s == Qmax (s - (2 # 10)) lo)%Q.
Proof.
  intros H. unfold zoomed_out; cbn.
  destruct (Qltb lo s) eqn:E; [reflexivity|].
  apply Qltb_false in E. rewrite Q.max_r; lra.
Qed.

(** *** Binary64 *)

Lemma B64_eqb_eq (a b : B64.float) : B64.eqb a b = true -> a = b.
Proof.
  destruct a as [s|s| |s m e], b as [t|t| |t n f]; cbn;
    try discriminate; try reflexivity.
  - intros H. apply Bool.eqb_prop in H. congruence.
  - intros H. apply Bool.eqb_prop in H. congruence.
  - rewrite !andb_true_iff. intros [[H1 H2] H3].
    apply Bool.eqb_prop in H1. apply Pos.eqb_eq in H2. apply Z.eqb_eq in H3.
    congruence.
Qed.

Lemma B64_mem_In (x : B64.float) (l : list B64.float) :
  B64.mem x l = true -> In x l.
Proof.
  unfold B64.mem. rewrite existsb_exists. intros [y [Hy E]].
  apply B64_eqb_eq in E. subst y. exact Hy.
Qed.

(** A double that compares equal to a finite non-zero double is that
    double. *)
Lemma SFcompare_Eq_finite (a : B64.float) (s : bool) (m : positive) (e : Z) :
  SFcompare a (S754_finite s m e) = Some Eq -> a = S754_finite s m e.
Proof.
  destruct a as [t|t| |t n f]; cbn.
  - destruct s; discriminate.
  - destruct t; discriminate.
  - discriminate.
  - destruct t, s; try discriminate.
    + destruct (Z.compare_spec f e) as [Hfe| |]; try discriminate.
      intros H. injection H as H.
      apply (f_equal CompOpp) in H. rewrite CompOpp_involutive in H. cbn in H.
      apply Pos.compare_eq in H. congruence.
    + destruct (Z.compare_spec f e) as [Hfe| |]; try discriminate.
      intros H. injection H as H. apply Pos.compare_eq in H. congruence.
Qed.

Lemma B64_le_not_lt (a : B64.float) (s : bool) (m : positive) (e : Z) :
  B64.leb a (S754_finite s m e) = true ->
  B64.ltb a (S754_finite s m e) = false ->
  a = S754_finite s m e.
Proof.
  unfold B64.leb, B64.ltb, SFleb, SFltb. intros H1 H2.
  apply SFcompare_Eq_finite.
  destruct (SFcompare a (S754_finite s m e)) as [[| |]|];
    congruence.
Qed.

Lemma B64_ge_not_gt (a : B64.float) (s : bool) (m : positive) (e : Z) :
  B64.leb (S754_finite s m e) a = true ->
  B64.ltb (S754_finite s m e) a = false ->
  a = S754_finite s m e.
Proof.
  unfold B64.leb, B64.ltb, SFleb, SFltb. intros H1 H2.
  assert (H : SFcompare (S754_finite s m e) a = Some Eq)
    by (destruct (SFcompare (S754_finite s m e) a) as [[| |]|]; congruence).
  clear H1 H2. destruct a as [t|t| |t n f]; cbn in H.
  - destruct s; discriminate.
  - destruct t; discriminate.
  - discriminate.
  - destruct s, t; try discriminate.
    + destruct (Z.compare_spec e f) as [Hfe| |]; try discriminate.
      injection H as H.
      apply (f_equal CompOpp) in H. rewrite CompOpp_involutive in H. cbn in H.
      apply Pos.compare_eq in H. congruence.
    + destruct (Z.compare_spec e f) as [Hfe| |]; try discriminate.
      injection H as H. apply Pos.compare_eq in H. congruence.
Qed.

Lemma zoomed_in_binary64 (s : B64.float) :
  B64.leb s B64.d3 = true ->
  zoomed_in B64.d3 s = B64.min (B64.add s B64.d0_2) B64.d3.
Proof.
  intros H. unfold zoomed_in; cbn.
  destruct (B64.ltb s B64.d3) eqn:E; [reflexivity|].
  rewrite (B64_le_not_lt _ _ _ _ H E). vm_compute. reflexivity.
Qed.

Lemma zoomed_out_binary64 (s : B64.float) :
  B64.leb B64.d0_5 s = true ->
  zoomed_out B64.d0_5 s = B64.max (B64.sub s B64.d0_2) B64.d0_5.
Proof.
  intros H. unfold zoomed_out; cbn.
  destruct (B64.ltb B64.d0_5 s) eqn:E; [reflexivity|].
  rewrite (B64_ge_not_gt _ _ _ _ H E). vm_compute. reflexivity.
Qed.

(** C2.  On a viewer whose scale lies within its bounds, [zoomIn()] sets
    the scale to [min(scale + 0.2, maxScale)] and [zoomOut()] sets it to
    [max(scale - 0.2, minScale)]; at [maxScale], [zoomIn()] changes nothing
    (so three more calls at scale 3 leave the scale at 3), and at
    [minScale], [zoomOut()] changes nothing; neither touches [translateX]
    or [translateY].  Stated in exact arithmetic for any bounds, and in
    binary64 for the bounds 0.5 and 3 the constructor assigns. *)
Theorem zoom_step_is_clamped :
  (forall w : World Q,
      scale_in_bounds (this w) ->
      (scale (this (snd (zoomIn w)))
       == Math_min (nadd (scale (this w)) lit_0_2) (maxScale (this w)))%Q
      /\ (scale (this (snd (zoomOut w)))
          == Math_max (nsub (scale (this w)) lit_0_2) (minScale (this w)))%Q
      /\ ((scale (this w) == maxScale (this w))%Q ->
          zoomIn w = (Done tt, w)
          /\ run [call_zoomIn; call_zoomIn; call_zoomIn] w = w)
      /\ ((scale (this w) == minScale (this w))%Q ->
          zoomOut w = (Done tt, w))
      /\ translateX (this (snd (zoomIn w))) = translateX (this w)
      /\ translateY (this (snd (zoomIn w))) = translateY (this w)
      /\ translateX (this (snd (zoomOut w))) = translateX (this w)
      /\ translateY (this (snd (zoomOut w))) = translateY (this w))
  /\ (forall w : World B64.float,
        default_bounds (this w) ->
        scale_in_bounds (this w) ->
        scale (this (snd (zoomIn w)))
        = Math_min (nadd (scale (this w)) lit_0_2) (maxScale (this w))
        /\ scale (this (snd (zoomOut w)))
           = Math_max (nsub (scale (this w)) lit_0_2) (minScale (this w))
        /\ (scale (this w) = lit_3 ->
            zoomIn w = (Done tt, w)
            /\ run [call_zoomIn; call_zoomIn; call_zoomIn] w = w)
        /\ (scale (this w) = lit_0_5 ->
            zoomOut w = (Done tt, w))
        /\ translateX (this (snd (zoomIn w))) = translateX (this w)
        /\ translateY (this (snd (zoomIn w))) = translateY (this w)
        /\ translateX (this (snd (zoomOut w))) = translateX (this w)
        /\ translateY (this (snd (zoomOut w))) = translateY (this w)).
Proof.
  split.
  - intros w [Hlo Hhi]. cbn in Hlo, Hhi.
    apply Qle_bool_iff in Hlo. apply Qle_bool_iff in Hhi.
    destruct (zoomIn_effect w) as (_ & Hi & _ & _ & HiX & HiY).
    destruct (zoomOut_effect w) as (_ & Ho & _ & _ & HoX & HoY).
    rewrite Hi, Ho.
    split; [apply zoomed_in_exact, Hhi|].
    split; [apply zoomed_out_exact, Hlo|].
    split; [|split; [|tauto]].
    + intros E.
      assert (Z : zoomIn w = (Done tt, w))
        by (apply zoomIn_at_max, Qltb_false; cbn; lra).
      split; [exact Z|]. unfold run; cbn [fold_left call]. repeat (rewrite Z; cbn [snd]). reflexivity.
    + intros E. apply zoomOut_at_min, Qltb_false; cbn; lra.
  - intros w [Dlo Dhi] [Hlo Hhi]. cbn in Hlo, Hhi.
    destruct (zoomIn_effect w) as (_ & Hi & _ & _ & HiX & HiY).
    destruct (zoomOut_effect w) as (_ & Ho & _ & _ & HoX & HoY).
    rewrite Hi, Ho, Dlo, Dhi in *.
    split; [apply zoomed_in_binary64, Hhi|].
    split; [apply zoomed_out_binary64, Hlo|].
    split; [|split; [|tauto]].
    + intros E.
      assert (Z : zoomIn w = (Done tt, w))
        by (apply zoomIn_at_max; rewrite E, Dhi; reflexivity).
      split; [exact Z|]. unfold run; cbn [fold_left call]. repeat (rewrite Z; cbn [snd]). reflexivity.
    + intros E. apply zoomOut_at_min. rewrite E, Dlo. reflexivity.
Qed.

Lemma zoom_step_is_clamped_witness :
  (scale_in_bounds (this (Sample.world 5%Q))
   /\ (scale (this (snd (zoomIn (Sample.world 5%Q)))) == 12 # 10)%Q)
  /\ (default_bounds (this (run (repeat call_zoomIn 10)
                                (Sample.world (B64.of_Z 5))))
      /\ scale_in_bounds (this (run (repeat call_zoomIn 10)
                                    (Sample.world (B64.of_Z 5))))
      /\ scale (this (run (repeat call_zoomIn 10)
                          (Sample.world (B64.of_Z 5)))) = lit_3
      /\ run [call_zoomIn; call_zoomIn; call_zoomIn]
             (run (repeat call_zoomIn 10) (Sample.world (B64.of_Z 5)))
         = run (repeat call_zoomIn 10) (Sample.world (B64.of_Z 5))).
Proof.
  destruct zoom_step_is_clamped as [HQ HB]. split.
  - assert (Hb : scale_in_bounds (this (Sample.world 5%Q)))
      by (split; vm_compute; reflexivity).
    split; [exact Hb|].
    destruct (HQ _ Hb) as (Hi & _). rewrite Hi. vm_compute. reflexivity.
  - set (w := run (repeat call_zoomIn 10) (Sample.world (B64.of_Z 5))).
    assert (Hd : default_bounds (this w)) by (split; vm_compute; reflexivity).
    assert (Hb : scale_in_bounds (this w)) by (split; vm_compute; reflexivity).
    assert (H3 : scale (this w) = lit_3) by (vm_compute; reflexivity).
    split; [exact Hd|]. split; [exact Hb|]. split; [exact H3|].
    destruct (HB w Hd Hb) as (_ & _ & Hmax & _).
    exact (proj2 (Hmax H3)).
Defined.

(** *** The reachable scales *)

Lemma reachable_scales_closed : closed_under_calls reachable_scales = true.
Proof. vm_compute. reflexivity. Qed.

Lemma reachable_scales_within :
  all_within B64.d0_5 B64.d3 reachable_scales = true.
Proof. vm_compute. reflexivity. Qed.

Lemma reachable_scales_count : List.length reachable_scales = 38%nat.
Proof. reflexivity. Qed.

Lemma reachable_state_initial (d : Document B64.float) :
  reachable_state (snd (constructor d)).
Proof.
  unfold reachable_state, default_bounds. rewrite constructor_this.
  cbn [scale minScale maxScale].
  split; [split; reflexivity|]. apply B64_mem_In. vm_compute. reflexivity.
Qed.

Lemma reachable_state_call (c : Call) (w : World B64.float) :
  reachable_state w -> reachable_state (snd (call c w)).
Proof.
  intros [[Dlo Dhi] Hs].
  destruct (call_effect c w) as (Hin & Hlo & Hhi).
  split; [split; congruence|].
  rewrite Dlo, Dhi in Hin.
  pose proof reachable_scales_closed as C. unfold closed_under_calls in C.
  rewrite forallb_forall in C. specialize (C _ Hs).
  rewrite forallb_forall in C. apply B64_mem_In, C, Hin.
Qed.

Lemma reachable_state_in_bounds (w : World B64.float) :
  reachable_state w -> default_bounds (this w) /\ scale_in_bounds (this w).
Proof.
  intros [[Dlo Dhi] Hs]. split; [split; assumption|].
  pose proof reachable_scales_within as C. unfold all_within in C.
  rewrite forallb_forall in C. specialize (C _ Hs).
  apply andb_true_iff in C. unfold scale_in_bounds. rewrite Dlo, Dhi.
  exact C.
Qed.

Lemma bounded_state_initial (d : Document Q) :
  bounded_state (snd (constructor d)).
Proof.
  unfold bounded_state, default_bounds, scale_in_bounds.
  rewrite constructor_this; cbn. repeat split; reflexivity.
Qed.

Lemma bounded_state_call (c : Call) (w : World Q) :
  bounded_state w -> bounded_state (snd (call c w)).
Proof.
  intros [[Dlo Dhi] [Hlo Hhi]].
  destruct (call_effect c w) as (Hin & Elo & Ehi).
  split; [split; congruence|]. unfold scale_in_bounds.
  rewrite Elo, Ehi, Dlo, Dhi in *. cbn in *.
  apply Qle_bool_iff in Hlo. apply Qle_bool_iff in Hhi.
  rewrite !Qle_bool_iff.
  unfold zoomed_in, zoomed_out in Hin; cbn in Hin.
  destruct Hin as [<-|[<-|[<-|[<-|[]]]]].
  - destruct (Qltb _ _) eqn:E; [|lra].
    apply Qltb_true in E.
    split; [|apply Q.le_min_r]. apply Q.min_glb; lra.
  - destruct (Qltb _ _) eqn:E; [|lra].
    apply Qltb_true in E.
    split; [apply Q.le_max_r|]. apply Q.max_lub; lra.
  - lra.
  - lra.
Qed.

(** C1.  On any page, after each call of any sequence of [zoomIn],
    [zoomOut], [resetZoom], [startPan], [pan] and [endPan] on a freshly
    constructed viewer, the bounds are still 0.5 and 3 and
    [minScale <= scale <= maxScale]; in exact arithmetic and in
    binary64. *)
Theorem scale_stays_within_bounds :
  (forall (document : Document Q) (cs : list Call),
      Forall (fun w => default_bounds (this w) /\ scale_in_bounds (this w))
             (snd (constructor document)
              :: trace cs (snd (constructor document))))
  /\ (forall (document : Document B64.float) (cs : list Call),
        Forall (fun w => default_bounds (this w) /\ scale_in_bounds (this w))
               (snd (constructor document)
                :: trace cs (snd (constructor document)))).
Proof.
  split; intros d cs.
  - change (Forall bounded_state
              (snd (constructor d) :: trace cs (snd (constructor d)))).
    constructor; [apply bounded_state_initial|].
    apply trace_invariant;
      [intros c w; apply bounded_state_call | apply bounded_state_initial].
  - assert (H : Forall reachable_state
                  (snd (constructor d) :: trace cs (snd (constructor d)))).
    { constructor; [apply reachable_state_initial|].
      apply trace_invariant;
        [intros c w; apply reachable_state_call
        | apply reachable_state_initial]. }
    revert H. apply Forall_impl. intros w. apply reachable_state_in_bounds.
Qed.

(** *** Rounding in binary64 *)

Unset Implicit Arguments.

Section Rounding.
Local Open Scope Z_scope.

Lemma shr_1_nonneg (m : Z) (r s : bool) :
  0 <= m ->
  shr_1 (Build_shr_record m r s)
  = Build_shr_record (Z.div2 m) (Z.odd m) (r || s).
Proof.
  intros H. destruct m as [|[p|p|]|p]; try reflexivity. lia.
Qed.

Lemma shifted_once (M : Z) :
  0 <= M -> shifted M 0 (shr_1 (Build_shr_record M false false)).
Proof.
  intros H. rewrite shr_1_nonneg by exact H. exists 0. cbn [shr_m shr_r shr_s].
  pose proof (Z.div2_odd M) as E. 
  assert (0 <= Z.div2 M) by (rewrite Z.div2_nonneg; exact H).
  change (2 ^ Z.of_nat 1) with 2. change (2 ^ Z.of_nat 0) with 1.
  repeat split; try lia.
Qed.

Lemma shifted_again (M : Z) (k : nat) (x : shr_record) :
  shifted M k x -> shifted M (S k) (shr_1 x).
Proof.
  intros (rest & E & Hr & Hs & Hm). destruct x as [m r s]. cbn [shr_m shr_r shr_s] in *.
  rewrite shr_1_nonneg by exact Hm.
  exists (Z.b2z r * 2 ^ Z.of_nat k + rest). cbn [shr_m shr_r shr_s].
  pose proof (Z.div2_odd m) as Em.
  assert (0 <= Z.div2 m) by (rewrite Z.div2_nonneg; exact Hm).
  assert (P : 2 ^ Z.of_nat (S k) = 2 * 2 ^ Z.of_nat k)
    by (rewrite Nat2Z.inj_succ, Z.pow_succ_r by lia; reflexivity).
  assert (P' : 2 ^ Z.of_nat (S (S k)) = 2 * 2 ^ Z.of_nat (S k))
    by (rewrite (Nat2Z.inj_succ (S k)), Z.pow_succ_r by lia; reflexivity).
  assert (0 < 2 ^ Z.of_nat k) by (apply Z.pow_pos_nonneg; lia).
  split; [|split; [|split]].
  - rewrite P' , P in *. rewrite E. rewrite Em at 1. ring.
  - rewrite P. destruct r; cbn [Z.b2z]; lia.
  - subst s. destruct r; cbn [Z.b2z orb].
    + symmetry. apply negb_true_iff, Z.eqb_neq. lia.
    + reflexivity.
  - assumption.
Qed.

Lemma digits2_pos_bounds (p : positive) :
  2 ^ (Zpos (digits2_pos p) - 1) <= Zpos p < 2 ^ Zpos (digits2_pos p).
Proof.
  induction p as [p IH|p IH|]; cbn [digits2_pos].
  - rewrite Pos2Z.inj_succ.
    replace (Z.succ (Zpos (digits2_pos p)) - 1) with (Z.succ (Zpos (digits2_pos p) - 1)) by lia.
    rewrite !Z.pow_succ_r by lia. lia.
  - rewrite Pos2Z.inj_succ.
    replace (Z.succ (Zpos (digits2_pos p)) - 1) with (Z.succ (Zpos (digits2_pos p) - 1)) by lia.
    rewrite !Z.pow_succ_r by lia. lia.
  - cbn. lia.
Qed.

Lemma digits2_pos_unique (p : positive) (d : Z) :
  2 ^ (d - 1) <= Zpos p < 2 ^ d -> Zpos (digits2_pos p) = d.
Proof.
  intros [Hlo Hhi]. destruct (digits2_pos_bounds p) as [Blo Bhi].
  assert (0 < d).
  { destruct (Z.ltb_spec 0 d); [assumption|].
    assert (2 ^ d <= 1).
    { destruct (Z.eq_dec d 0) as [->|]; [cbn; lia|].
      rewrite Z.pow_neg_r by lia. lia. }
    lia. }
  assert (Zpos (digits2_pos p) - 1 < d).
  { apply (Z.pow_lt_mono_r_iff 2); lia. }
  assert (d - 1 < Zpos (digits2_pos p)).
  { apply (Z.pow_lt_mono_r_iff 2); lia. }
  lia.
Qed.

Lemma shl_align_none (mx : positive) (ex ex' : Z) :
  ex <= ex' -> shl_align mx ex ex' = (mx, ex).
Proof.
  intros H. unfold shl_align. destruct (ex' - ex) eqn:E; try reflexivity. lia.
Qed.

Lemma shr_fexp_by (m : Z) (e : Z) (l : location) (k : Z) :
  fexp 53 1024 (Zdigits2 m + e) - e = k ->
  shr_fexp 53 1024 m e l = shr (shr_record_of_loc m l) e k.
Proof. unfold shr_fexp. intros ->. reflexivity. Qed.

(** Rounding to nearest even of a record that is [M] shifted [k+1] times. *)
Lemma round_shifted (M : Z) (k : nat) (x : shr_record) :
  shifted M k x ->
  let R := round_nearest_even (shr_m x) (loc_of_shr_record x) in
  (R = shr_m x \/ R = shr_m x + 1)
  /\ Z.abs (R * 2 ^ Z.of_nat (S k) - M) <= 2 ^ Z.of_nat k.
Proof.
  intros (rest & E & Hr & Hs & Hm). destruct x as [q r s].
  cbn [shr_m shr_r shr_s] in *.
  assert (P : 2 ^ Z.of_nat (S k) = 2 * 2 ^ Z.of_nat k)
    by (rewrite Nat2Z.inj_succ, Z.pow_succ_r by lia; reflexivity).
  assert (0 < 2 ^ Z.of_nat k) by (apply Z.pow_pos_nonneg; lia).
  rewrite P in *. set (h := 2 ^ Z.of_nat k) in *.
  destruct r, s; cbn [loc_of_shr_record round_nearest_even Z.b2z] in *.
  - split; [right; reflexivity|]. nia.
  - apply (f_equal negb) in Hs. cbn in Hs. rewrite negb_involutive in Hs.
    symmetry in Hs. apply Z.eqb_eq in Hs.
    destruct (Z.even q); split; auto; nia.
  - split; [left; reflexivity|]. nia.
  - apply (f_equal negb) in Hs. cbn in Hs. rewrite negb_involutive in Hs.
    symmetry in Hs. apply Z.eqb_eq in Hs.
    split; [left; reflexivity|]. nia.
Qed.

Lemma iter_pos_nat {X : Type} (f : X -> X) (p : positive) (x : X) :
  iter_pos f p x = Nat.iter (Pos.to_nat p) f x.
Proof.
  revert x. induction p as [p IH|p IH|]; intros x; cbn [iter_pos].
  - rewrite !IH, Pos2Nat.inj_xI.
    replace (S (2 * Pos.to_nat p))%nat
      with (Pos.to_nat p + (Pos.to_nat p + 1))%nat by lia.
    rewrite !Nat.iter_add. reflexivity.
  - rewrite !IH, Pos2Nat.inj_xO.
    replace (2 * Pos.to_nat p)%nat with (Pos.to_nat p + Pos.to_nat p)%nat
      by lia.
    rewrite Nat.iter_add. reflexivity.
  - reflexivity.
Qed.

Lemma shifted_iter (M : Z) (k : nat) :
  0 <= M ->
  shifted M k (Nat.iter (S k) shr_1 (Build_shr_record M false false)).
Proof.
  intros H. induction k as [|k IH].
  - apply shifted_once, H.
  - change (Nat.iter (S (S k)) shr_1 (Build_shr_record M false false))
      with (shr_1 (Nat.iter (S k) shr_1 (Build_shr_record M false false))).
    apply shifted_again, IH.
Qed.

(** Rounding a positive integer of [53 + k + 1] bits, scaled by [2^e], to
    a double: the result is canonical and at most [2^k] units of [2^e]
    away. *)
Lemma binary_round_aux_near (M : positive) (e : Z) (k : nat) :
  Zpos (digits2_pos M) = 53 + Z.of_nat (S k) ->
  -1074 <= e ->
  e + Z.of_nat (S k) + 1 <= 971 ->
  exists (m' : positive) (e' : Z),
    binary_round_aux 53 1024 false (Zpos M) e loc_Exact
    = S754_finite false m' e'
    /\ Zpos (digits2_pos m') = 53
    /\ e + Z.of_nat (S k) <= e' <= e + Z.of_nat (S k) + 1
    /\ Z.abs (Zpos m' * 2 ^ (e' - e) - Zpos M) <= 2 ^ Z.of_nat k.
Proof.
  intros Hd He Htop.
  destruct (digits2_pos_bounds M) as [Mlo Mhi]. rewrite Hd in Mlo, Mhi.
  pose proof (shifted_iter (Zpos M) k (Pos2Z.is_nonneg M)) as Sh.
  set (x := Nat.iter (S k) shr_1 (Build_shr_record (Zpos M) false false)) in *.
  assert (Hshr : shr_fexp 53 1024 (Zpos M) e loc_Exact
                 = (x, e + Z.of_nat (S k))).
  { rewrite (shr_fexp_by (Zpos M) e loc_Exact (Z.of_nat (S k))).
    2:{ unfold fexp, emin. cbn [Zdigits2]. rewrite Hd. lia. }
    change (Z.of_nat (S k)) with (Zpos (Pos.of_succ_nat k)).
    unfold shr. rewrite iter_pos_nat, SuccNat2Pos.id_succ. reflexivity. }
  destruct (round_shifted (Zpos M) k x Sh) as [HR Hnear].
  set (R := round_nearest_even (shr_m x) (loc_of_shr_record x)) in *.
  assert (Haux : binary_round_aux 53 1024 false (Zpos M) e loc_Exact
                 = let '(mrs, e'') :=
                     shr_fexp 53 1024 R (e + Z.of_nat (S k)) loc_Exact in
                   match shr_m mrs with
                   | Z0 => S754_zero false
                   | Zpos m =>
                       if e'' <=? 1024 - 53 then S754_finite false m e''
                       else S754_infinity false
                   | Zneg _ => S754_nan
                   end).
  { unfold binary_round_aux. rewrite Hshr. reflexivity. }
  rewrite Haux. clear Haux Hshr.
  destruct Sh as (rest & E & Hr & Hs & Hm).
  assert (P : 2 ^ Z.of_nat (S k) = 2 * 2 ^ Z.of_nat k)
    by (rewrite Nat2Z.inj_succ, Z.pow_succ_r by lia; reflexivity).
  assert (Hh : 0 < 2 ^ Z.of_nat k) by (apply Z.pow_pos_nonneg; lia).
  assert (Plo : 2 ^ (53 + Z.of_nat (S k) - 1) = 2 ^ 52 * 2 ^ Z.of_nat (S k)).
  { replace (53 + Z.of_nat (S k) - 1) with (52 + Z.of_nat (S k)) by lia.
    rewrite Z.pow_add_r by lia. reflexivity. }
  assert (Phi : 2 ^ (53 + Z.of_nat (S k)) = 2 ^ 53 * 2 ^ Z.of_nat (S k)).
  { rewrite Z.pow_add_r by lia. reflexivity. }
  rewrite Plo in Mlo. rewrite Phi in Mhi.
  assert (Hq : 2 ^ 52 <= shr_m x < 2 ^ 53).
  { rewrite P in *.
    assert (Hlow : 0 <= Z.b2z (shr_r x) * 2 ^ Z.of_nat k + rest
                   < 2 * 2 ^ Z.of_nat k)
      by (destruct (shr_r x); cbn [Z.b2z]; lia).
    revert Mlo Mhi E Hlow Hh.
    generalize (Z.b2z (shr_r x)) (shr_m x) (2 ^ Z.of_nat k) (Zpos M).
    change (2 ^ 52) with 4503599627370496.
    change (2 ^ 53) with 9007199254740992.
    clear. intros b q h m Mlo Mhi E Hlow Hh.
    split.
    - apply Z.lt_succ_r. apply (Z.mul_lt_mono_pos_r (2 * h)); [lia|]. lia.
    - apply (Z.mul_lt_mono_pos_r (2 * h)); [lia|]. lia. }
  assert (HRb : 2 ^ 52 <= R <= 2 ^ 53) by lia.
  clearbody R. clear HR.
  destruct R as [|m1|m1]; try (exfalso; cbn in HRb; lia).
  destruct (Z.eq_dec (Zpos m1) (2 ^ 53)) as [Top|NotTop].
  - (* the rounded mantissa carried into a new bit *)
    rewrite (shr_fexp_by (Zpos m1) (e + Z.of_nat (S k)) loc_Exact 1).
    2:{ unfold fexp, emin. cbn [Zdigits2].
        rewrite (digits2_pos_unique m1 54) by (rewrite Top; cbn; lia). lia. }
    injection Top as ->.
    exists 4503599627370496%positive, (e + Z.of_nat (S k) + 1).
    cbn [shr shr_record_of_loc iter_pos shr_1 shr_m fst snd].
    replace (e + Z.of_nat (S k) + 1 <=? 1024 - 53) with true
      by (symmetry; apply Z.leb_le; lia).
    split; [reflexivity|]. split; [reflexivity|]. split; [lia|].
    replace (e + Z.of_nat (S k) + 1 - e) with (Z.succ (Z.of_nat (S k))) by lia.
    rewrite Z.pow_succ_r by lia.
    replace (4503599627370496 * (2 * 2 ^ Z.of_nat (S k)) - Zpos M)
      with (9007199254740992 * 2 ^ Z.of_nat (S k) - Zpos M) by ring.
    exact Hnear.
  - rewrite (shr_fexp_by (Zpos m1) (e + Z.of_nat (S k)) loc_Exact 0).
    2:{ unfold fexp, emin. cbn [Zdigits2].
        rewrite (digits2_pos_unique m1 53) by (cbn in *; lia). lia. }
    exists m1, (e + Z.of_nat (S k)).
    cbn [shr shr_record_of_loc shr_m fst snd].
    replace (e + Z.of_nat (S k) <=? 1024 - 53) with true
      by (symmetry; apply Z.leb_le; lia).
    split; [reflexivity|].
    split; [apply digits2_pos_unique; cbn in *; lia|]. split; [lia|].
    replace (e + Z.of_nat (S k) - e) with (Z.of_nat (S k)) by lia.
    exact Hnear.
Qed.

(** Rounding [M] units of [2^-55], for [M] of [54 + k] bits. *)
Lemma normalize_near (M : positive) (k : nat) :
  (k <= 3)%nat ->
  2 ^ (53 + Z.of_nat k) <= Zpos M < 2 ^ (54 + Z.of_nat k) ->
  exists (m' : positive) (e' : Z),
    binary_normalize 53 1024 (Zpos M) (-55) false = S754_finite false m' e'
    /\ Zpos (digits2_pos m') = 53
    /\ -54 + Z.of_nat k <= e' <= -53 + Z.of_nat k
    /\ Z.abs (Zpos m' * 2 ^ (e' + 55) - Zpos M) <= 2 ^ Z.of_nat k.
Proof.
  intros Hk HM.
  assert (Hd : Zpos (digits2_pos M) = 53 + Z.of_nat (S k)).
  { rewrite Nat2Z.inj_succ. apply digits2_pos_unique.
    replace (53 + Z.succ (Z.of_nat k) - 1) with (53 + Z.of_nat k) by lia.
    replace (53 + Z.succ (Z.of_nat k)) with (54 + Z.of_nat k) by lia.
    exact HM. }
  destruct (binary_round_aux_near M (-55) k Hd) as (m' & e' & E & D & He & Hn);
    [lia | lia |].
  exists m', e'.
  split.
  - unfold binary_normalize, binary_round. rewrite Hd.
    rewrite shl_align_none by (unfold fexp, emin; lia). exact E.
  - split; [exact D|]. split; [lia|].
    replace (e' + 55) with (e' - -55) by lia. exact Hn.
Qed.

Lemma iter_xO (m d : positive) :
  Zpos (Pos.iter xO m d) = Zpos m * 2 ^ Zpos d.
Proof.
  induction d as [|d IH] using Pos.peano_ind.
  - cbn. lia.
  - rewrite Pos.iter_succ, Pos2Z.inj_xO, IH, Pos2Z.inj_succ,
      Z.pow_succ_r by lia. ring.
Qed.

Lemma shl_align_units (m : positive) (e ez : Z) :
  ez <= e -> Zpos (fst (shl_align m e ez)) = Zpos m * 2 ^ (e - ez)
             /\ snd (shl_align m e ez) = ez.
Proof.
  intros H. unfold shl_align. destruct (ez - e) as [|d|d] eqn:E.
  - assert (e = ez) by lia. subst. rewrite Z.sub_diag. cbn [fst snd]. lia.
  - lia.
  - cbn [fst snd]. rewrite iter_xO.
    replace (e - ez) with (Zpos d) by lia. split; reflexivity.
Qed.

Lemma add_units (m1 m2 : positive) (e1 : Z) :
  -55 <= e1 ->
  B64.add (S754_finite false m1 e1) (S754_finite false m2 (-55))
  = binary_normalize 53 1024 (Zpos m1 * 2 ^ (e1 + 55) + Zpos m2) (-55) false.
Proof.
  intros H. unfold B64.add, SFadd.
  rewrite Z.min_r by lia.
  destruct (shl_align_units m1 e1 (-55) H) as [-> _].
  cbn [cond_Zopp]. rewrite (shl_align_none m2 (-55) (-55)) by lia.
  cbn [fst]. replace (e1 - -55) with (e1 + 55) by lia. reflexivity.
Qed.

Lemma sub_units (m1 m2 : positive) (e1 : Z) :
  -55 <= e1 ->
  B64.sub (S754_finite false m1 e1) (S754_finite false m2 (-55))
  = binary_normalize 53 1024 (Zpos m1 * 2 ^ (e1 + 55) - Zpos m2) (-55) false.
Proof.
  intros H. unfold B64.sub, SFsub.
  rewrite Z.min_r by lia.
  destruct (shl_align_units m1 e1 (-55) H) as [-> _].
  cbn [cond_Zopp]. rewrite (shl_align_none m2 (-55) (-55)) by lia.
  cbn [fst]. replace (e1 - -55) with (e1 + 55) by lia. reflexivity.
Qed.

Lemma normalize_near_range (M : Z) :
  2 ^ 53 <= M < 2 ^ 57 ->
  exists (m' : positive) (e' : Z),
    binary_normalize 53 1024 M (-55) false = S754_finite false m' e'
    /\ Zpos (digits2_pos m') = 53
    /\ -54 <= e' <= -50
    /\ Z.abs (Zpos m' * 2 ^ (e' + 55) - M) <= 8.
Proof.
  intros [Hlo Hhi]. destruct M as [|M|M]; try (cbn in Hlo; lia).
  assert (K : exists k : nat,
             (k <= 3)%nat
             /\ 2 ^ (53 + Z.of_nat k) <= Zpos M < 2 ^ (54 + Z.of_nat k)).
  { destruct (Z.lt_ge_cases (Zpos M) (2 ^ 54)); [exists 0%nat; cbn in *; lia|].
    destruct (Z.lt_ge_cases (Zpos M) (2 ^ 55)); [exists 1%nat; cbn in *; lia|].
    destruct (Z.lt_ge_cases (Zpos M) (2 ^ 56)); [exists 2%nat; cbn in *; lia|].
    exists 3%nat; cbn in *; lia. }
  destruct K as (k & Hk & HM).
  destruct (normalize_near M k Hk HM) as (m' & e' & E & D & He & Hn).
  exists m', e'. split; [exact E|]. split; [exact D|]. split; [lia|].
  assert (2 ^ Z.of_nat k <= 8).
  { change 8 with (2 ^ 3). apply Z.pow_le_mono_r; lia. }
  lia.
Qed.

Lemma compare_units (m1 m2 : positive) (e1 e2 : Z) :
  Zpos (digits2_pos m1) = 53 -> Zpos (digits2_pos m2) = 53 ->
  -55 <= e1 -> -55 <= e2 ->
  SFcompare (S754_finite false m1 e1) (S754_finite false m2 e2)
  = Some (Zpos m1 * 2 ^ (e1 + 55) ?= Zpos m2 * 2 ^ (e2 + 55)).
Proof.
  intros D1 D2 H1 H2. cbn [SFcompare]. f_equal.
  destruct (digits2_pos_bounds m1) as [L1 U1].
  destruct (digits2_pos_bounds m2) as [L2 U2].
  rewrite D1 in L1, U1. rewrite D2 in L2, U2.
  change (2 ^ (53 - 1)) with 4503599627370496 in *.
  change (2 ^ 53) with 9007199254740992 in *.
  assert (P1 : 0 < 2 ^ (e1 + 55)) by (apply Z.pow_pos_nonneg; lia).
  assert (P2 : 0 < 2 ^ (e2 + 55)) by (apply Z.pow_pos_nonneg; lia).
  destruct (Z.compare_spec e1 e2) as [E|E|E].
  - subst e2. rewrite Pos.compare_cont_spec. cbn [Pos.switch_Eq].
    change (m1 ?= m2)%positive with (Zpos m1 ?= Zpos m2).
    destruct (Z.compare_spec (Zpos m1) (Zpos m2)) as [Em|Em|Em]; symmetry.
    + apply Z.compare_eq_iff. rewrite Em. reflexivity.
    + apply Z.compare_lt_iff. apply Z.mul_lt_mono_pos_r; assumption.
    + apply Z.compare_gt_iff. apply Z.mul_lt_mono_pos_r; assumption.
  - symmetry. apply Z.compare_lt_iff.
    assert (Q : 2 * 2 ^ (e1 + 55) <= 2 ^ (e2 + 55)).
    { rewrite <- Z.pow_succ_r by lia. apply Z.pow_le_mono_r; lia. }
    nia.
  - symmetry. apply Z.compare_gt_iff.
    assert (Q : 2 * 2 ^ (e2 + 55) <= 2 ^ (e1 + 55)).
    { rewrite <- Z.pow_succ_r by lia. apply Z.pow_le_mono_r; lia. }
    nia.
Qed.

Lemma canonical_compare (x y : B64.float) :
  canonical x -> canonical y ->
  SFcompare x y = Some (units x ?= units y).
Proof.
  intros (m1 & e1 & -> & D1 & H1) (m2 & e2 & -> & D2 & H2).
  apply compare_units; assumption.
Qed.

Lemma canonical_ltb (x y : B64.float) :
  canonical x -> canonical y -> B64.ltb x y = (units x <? units y).
Proof.
  intros Hx Hy. unfold B64.ltb, SFltb, Z.ltb.
  rewrite (canonical_compare x y Hx Hy). reflexivity.
Qed.

Lemma canonical_leb (x y : B64.float) :
  canonical x -> canonical y -> B64.leb x y = (units x <=? units y).
Proof.
  intros Hx Hy. unfold B64.leb, SFleb, Z.leb.
  rewrite (canonical_compare x y Hx Hy).
  destruct (units x ?= units y); reflexivity.
Qed.

Lemma canonical_min (x y : B64.float) :
  canonical x -> canonical y ->
  canonical (B64.min x y)
  /\ units (B64.min x y) = Z.min (units x) (units y).
Proof.
  intros Hx Hy. unfold B64.min, Z.min.
  rewrite (canonical_compare x y Hx Hy).
  destruct (Z.compare_spec (units x) (units y)) as [E|E|E].
  - destruct Hx as (m & e & -> & _). split; [exact Hy | symmetry; exact E].
  - split; [exact Hx | reflexivity].
  - split; [exact Hy | reflexivity].
Qed.

Lemma canonical_max (x y : B64.float) :
  canonical x -> canonical y ->
  canonical (B64.max x y)
  /\ units (B64.max x y) = Z.max (units x) (units y).
Proof.
  intros Hx Hy. unfold B64.max, Z.max.
  rewrite (canonical_compare x y Hx Hy).
  destruct (Z.compare_spec (units x) (units y)) as [E|E|E].
  - destruct Hx as (m & e & -> & _). split; [exact Hy | symmetry; exact E].
  - split; [exact Hy | reflexivity].
  - split; [exact Hx | reflexivity].
Qed.

Lemma add_near (x : B64.float) :
  canonical x ->
  2 ^ 53 <= units x + step_units < 2 ^ 57 ->
  canonical (B64.add x B64.d0_2)
  /\ Z.abs (units (B64.add x B64.d0_2) - (units x + step_units)) <= 8.
Proof.
  intros (m & e & -> & D & He) HM. cbn [units] in *. unfold step_units in *.
  unfold B64.d0_2. rewrite add_units by exact He.
  destruct (normalize_near_range _ HM) as (m' & e' & -> & D' & He' & Hn).
  split; [exists m', e'; repeat split; [exact D' | lia]|].
  cbn [units]. exact Hn.
Qed.

Lemma sub_near (x : B64.float) :
  canonical x ->
  2 ^ 53 <= units x - step_units < 2 ^ 57 ->
  canonical (B64.sub x B64.d0_2)
  /\ Z.abs (units (B64.sub x B64.d0_2) - (units x - step_units)) <= 8.
Proof.
  intros (m & e & -> & D & He) HM. cbn [units] in *. unfold step_units in *.
  unfold B64.d0_2. rewrite sub_units by exact He.
  destruct (normalize_near_range _ HM) as (m' & e' & -> & D' & He' & Hn).
  split; [exists m', e'; repeat split; [exact D' | lia]|].
  cbn [units]. exact Hn.
Qed.

Lemma canonical_d0_5 : canonical B64.d0_5 /\ units B64.d0_5 = 2 ^ 54.
Proof.
  split; [|reflexivity].
  exists 4503599627370496%positive, (-53). repeat split; cbn; lia.
Qed.

Lemma canonical_d3 : canonical B64.d3 /\ units B64.d3 = 3 * 2 ^ 55.
Proof.
  split; [|reflexivity].
  exists 6755399441055744%positive, (-51). repeat split; cbn; lia.
Qed.

(** A valid double between 0.5 and 3 is canonical and lies between
    [2^54] and [3 * 2^55] units. *)
Lemma canonical_in_range (s : B64.float) :
  valid_binary 53 1024 s = true ->
  B64.leb B64.d0_5 s = true ->
  B64.leb s B64.d3 = true ->
  canonical s /\ 2 ^ 54 <= units s <= 3 * 2 ^ 55.
Proof.
  intros V Hlo Hhi.
  assert (Hc : canonical s).
  { destruct s as [b|b| |b m e]; try discriminate.
    - destruct b; discriminate.
    - destruct b; [discriminate|].
      exists m, e. split; [reflexivity|].
      assert (He : -53 <= e).
      { unfold B64.leb, SFleb, B64.d0_5 in Hlo. cbn [SFcompare] in Hlo.
        revert Hlo. destruct (Z.compare_spec (-53) e); [lia | lia | discriminate]. }
      cbn [valid_binary] in V. unfold bounded, canonical_mantissa in V.
      apply andb_true_iff in V. destruct V as [V _].
      apply Z.eqb_eq in V. unfold fexp, emin in V. split; lia. }
  split; [exact Hc|].
  destruct canonical_d0_5 as [C5 U5]. destruct canonical_d3 as [C3 U3].
  rewrite (canonical_leb _ _ C5 Hc) in Hlo.
  rewrite (canonical_leb _ _ Hc C3) in Hhi.
  apply Z.leb_le in Hlo. apply Z.leb_le in Hhi. lia.
Qed.

Lemma zoomed_in_units (s : B64.float) :
  canonical s ->
  2 ^ 54 <= units s <= 3 * 2 ^ 55 ->
  canonical (B64.add s B64.d0_2)
  /\ Z.abs (units (B64.add s B64.d0_2) - (units s + step_units)) <= 8
  /\ canonical (zoomed_in B64.d3 s)
  /\ units (zoomed_in B64.d3 s)
     = if units s <? 3 * 2 ^ 55
       then Z.min (units (B64.add s B64.d0_2)) (3 * 2 ^ 55)
       else units s.
Proof.
  intros Hc Hr. destruct canonical_d3 as [C3 U3].
  destruct (add_near s Hc) as [Ca Na]; [unfold step_units; cbn in *; lia|].
  split; [exact Ca|]. split; [exact Na|].
  change (zoomed_in B64.d3 s)
    with (if B64.ltb s B64.d3 then B64.min (B64.add s B64.d0_2) B64.d3
          else s).
  rewrite (canonical_ltb s B64.d3 Hc C3), U3.
  destruct (units s <? 3 * 2 ^ 55).
  - destruct (canonical_min _ _ Ca C3) as [Cm Um]. rewrite Um, U3.
    split; [exact Cm | reflexivity].
  - split; [exact Hc | reflexivity].
Qed.

Lemma zoomed_out_units (s : B64.float) :
  canonical s ->
  2 ^ 54 <= units s <= 3 * 2 ^ 55 + 8 ->
  canonical (B64.sub s B64.d0_2)
  /\ Z.abs (units (B64.sub s B64.d0_2) - (units s - step_units)) <= 8
  /\ canonical (zoomed_out B64.d0_5 s)
  /\ units (zoomed_out B64.d0_5 s)
     = if 2 ^ 54 <? units s
       then Z.max (units (B64.sub s B64.d0_2)) (2 ^ 54)
       else units s.
Proof.
  intros Hc Hr. destruct canonical_d0_5 as [C5 U5].
  destruct (sub_near s Hc) as [Cs Ns]; [unfold step_units; cbn in *; lia|].
  split; [exact Cs|]. split; [exact Ns|].
  change (zoomed_out B64.d0_5 s)
    with (if B64.ltb B64.d0_5 s then B64.max (B64.sub s B64.d0_2) B64.d0_5
          else s).
  rewrite (canonical_ltb B64.d0_5 s C5 Hc), U5.
  destruct (2 ^ 54 <? units s).
  - destruct (canonical_max _ _ Cs C5) as [Cm Um]. rewrite Um, U5.
    split; [exact Cm | reflexivity].
  - split; [exact Hc | reflexivity].
Qed.

(** From any double between 0.5 and 3, zooming in and out again (or out
    and in again) without hitting a bound comes back within [16] units of
    [2^-55], that is within [2^-51]. *)
Theorem zoom_round_trip_near (s : B64.float) :
  valid_binary 53 1024 s = true ->
  B64.leb B64.d0_5 s = true ->
  B64.leb s B64.d3 = true ->
  (B64.leb (B64.add s B64.d0_2) B64.d3 = true ->
   canonical (zoomed_out B64.d0_5 (zoomed_in B64.d3 s))
   /\ Z.abs (units (zoomed_out B64.d0_5 (zoomed_in B64.d3 s)) - units s)
      <= 16)
  /\ (B64.leb B64.d0_5 (B64.sub s B64.d0_2) = true ->
      canonical (zoomed_in B64.d3 (zoomed_out B64.d0_5 s))
      /\ Z.abs (units (zoomed_in B64.d3 (zoomed_out B64.d0_5 s)) - units s)
         <= 16).
Proof.
  intros V Hlo Hhi.
  destruct (canonical_in_range s V Hlo Hhi) as [Hc Hr].
  destruct canonical_d0_5 as [C5 U5]. destruct canonical_d3 as [C3 U3].
  split; intros H.
  - destruct (zoomed_in_units s Hc Hr) as (Ca & Na & Ci & Ui).
    rewrite (canonical_leb _ _ Ca C3), U3 in H. apply Z.leb_le in H.
    assert (Ri : 2 ^ 54 < units (zoomed_in B64.d3 s) <= 3 * 2 ^ 55
                 /\ Z.abs (units (zoomed_in B64.d3 s) - (units s + step_units)) <= 8).
    { rewrite Ui. unfold step_units in *. cbn in Hr, H |- *.
      destruct (Z.ltb_spec (units s) 108086391056891904); lia. }
    destruct Ri as [Ri Ni].
    destruct (zoomed_out_units _ Ci) as (Cs & Ns & Co & Uo); [lia|].
    split; [exact Co|]. rewrite Uo. unfold step_units in *. cbn in Hr, Ri |- *.
    destruct (Z.ltb_spec 18014398509481984 (units (zoomed_in B64.d3 s))); lia.
  - assert (Hr' : 2 ^ 54 <= units s <= 3 * 2 ^ 55 + 8) by lia.
    destruct (zoomed_out_units s Hc Hr') as (Cs & Ns & Co & Uo).
    rewrite (canonical_leb _ _ C5 Cs), U5 in H. apply Z.leb_le in H.
    assert (Ro : 2 ^ 54 <= units (zoomed_out B64.d0_5 s) < 3 * 2 ^ 55
                 /\ Z.abs (units (zoomed_out B64.d0_5 s) - (units s - step_units))
                    <= 8).
    { rewrite Uo. unfold step_units in *. cbn in Hr, H |- *.
      destruct (Z.ltb_spec 18014398509481984 (units s)); lia. }
    destruct Ro as [Ro No].
    destruct (zoomed_in_units _ Co) as (Ca & Na & Ci & Ui); [lia|].
    split; [exact Ci|]. rewrite Ui. unfold step_units in *. cbn in Hr, Ro |- *.
    destruct (Z.ltb_spec (units (zoomed_out B64.d0_5 s)) 108086391056891904);
      lia.
Qed.


End Rounding.

Set Implicit Arguments.

(** *** Zooming in and back out *)

Lemma run_zoomIn_zoomOut {num : Type} {A : Arith num} (w : World num) :
  scale (this (run [call_zoomIn; call_zoomOut] w))
  = zoomed_out (minScale (this w))
      (zoomed_in (maxScale (this w)) (scale (this w))).
Proof.
  unfold run; cbn [fold_left call].
  destruct (zoomOut_effect (snd (zoomIn w))) as (_ & -> & _).
  destruct (zoomIn_effect w) as (_ & -> & -> & _). reflexivity.
Qed.

Lemma run_zoomOut_zoomIn {num : Type} {A : Arith num} (w : World num) :
  scale (this (run [call_zoomOut; call_zoomIn] w))
  = zoomed_in (maxScale (this w))
      (zoomed_out (minScale (this w)) (scale (this w))).
Proof.
  unfold run; cbn [fold_left call].
  destruct (zoomIn_effect (snd (zoomOut w))) as (_ & -> & _).
  destruct (zoomOut_effect w) as (_ & -> & _ & -> & _). reflexivity.
Qed.

Lemma reachable_scales_round_trip : round_trips reachable_scales = true.
Proof. vm_compute. reflexivity. Qed.

(** C5.  When no bound is hit, zooming in and then out, or out and then
    in, gives back the scale one started from: in exact arithmetic from
    every scale within the bounds (up to equality of rationals); in
    binary64 exactly from every scale a viewer reaches from its
    construction, and within [2^-51] (16 units of [2^-55]) from every
    double between 0.5 and 3.  No bound is hit when
    [scale + 0.2 <= maxScale] for the first order, and when
    [minScale <= scale - 0.2] for the second. *)
Theorem zoomIn_zoomOut_round_trip :
  (forall w : World Q,
      scale_in_bounds (this w) ->
      (nle (nadd (scale (this w)) lit_0_2) (maxScale (this w)) = true ->
       (scale (this (run [call_zoomIn; call_zoomOut] w))
        == scale (this w))%Q)
      /\ (nle (minScale (this w)) (nsub (scale (this w)) lit_0_2) = true ->
          (scale (this (run [call_zoomOut; call_zoomIn] w))
           == scale (this w))%Q))
  /\ (forall (document : Document B64.float) (cs : list Call),
        let w := run cs (snd (constructor document)) in
        (nle (nadd (scale (this w)) lit_0_2) (maxScale (this w)) = true ->
         scale (this (run [call_zoomIn; call_zoomOut] w)) = scale (this w))
        /\ (nle (minScale (this w)) (nsub (scale (this w)) lit_0_2) = true ->
            scale (this (run [call_zoomOut; call_zoomIn] w))
            = scale (this w)))
  /\ (forall w : World B64.float,
        default_bounds (this w) ->
        valid_binary B64.prec B64.emax (scale (this w)) = true ->
        scale_in_bounds (this w) ->
        (nle (nadd (scale (this w)) lit_0_2) (maxScale (this w)) = true ->
         canonical (scale (this (run [call_zoomIn; call_zoomOut] w)))
         /\ (Z.abs (units (scale (this (run [call_zoomIn; call_zoomOut] w)))
                    - units (scale (this w))) <= 16)%Z)
        /\ (nle (minScale (this w)) (nsub (scale (this w)) lit_0_2) = true ->
            canonical (scale (this (run [call_zoomOut; call_zoomIn] w)))
            /\ (Z.abs (units (scale (this (run [call_zoomOut; call_zoomIn] w)))
                       - units (scale (this w))) <= 16)%Z)).
Proof.
  split; [|split].
  - intros w [Hlo Hhi]. cbn in Hlo, Hhi.
    apply Qle_bool_iff in Hlo. apply Qle_bool_iff in Hhi.
    rewrite run_zoomIn_zoomOut, run_zoomOut_zoomIn.
    set (s := scale (this w)) in *. set (lo := minScale (this w)) in *.
    set (hi := maxScale (this w)) in *.
    split; intros H; cbn in H; apply Qle_bool_iff in H.
    + assert (Ei : (zoomed_in hi s == s + (2 # 10))%Q).
      { rewrite zoomed_in_exact by exact Hhi. apply Q.min_l. exact H. }
      unfold zoomed_out; cbn.
      destruct (Qltb lo (zoomed_in hi s)) eqn:E.
      * rewrite Q.max_l; lra.
      * apply Qltb_false in E. lra.
    + assert (Eo : (zoomed_out lo s == s - (2 # 10))%Q).
      { rewrite zoomed_out_exact by exact Hlo. apply Q.max_l. exact H. }
      unfold zoomed_in; cbn.
      destruct (Qltb (zoomed_out lo s) hi) eqn:E.
      * rewrite Q.min_l; lra.
      * apply Qltb_false in E. lra.
  - intros d cs w.
    assert (R : reachable_state w).
    { apply run_invariant;
        [intros c u; apply reachable_state_call
        | apply reachable_state_initial]. }
    destruct R as [[Dlo Dhi] Hs].
    rewrite run_zoomIn_zoomOut, run_zoomOut_zoomIn, Dlo, Dhi.
    pose proof reachable_scales_round_trip as C. unfold round_trips in C.
    rewrite forallb_forall in C. specialize (C _ Hs).
    apply andb_true_iff in C. destruct C as [C1 C2].
    split; intros H.
    + change (B64.leb (B64.add (scale (this w)) B64.d0_2) B64.d3 = true) in H.
      rewrite H in C1. apply B64_eqb_eq, C1.
    + change (B64.leb B64.d0_5 (B64.sub (scale (this w)) B64.d0_2) = true)
        in H.
      rewrite H in C2. apply B64_eqb_eq, C2.
  - intros w [Dlo Dhi] V [Hlo Hhi].
    rewrite run_zoomIn_zoomOut, run_zoomOut_zoomIn, Dlo, Dhi.
    rewrite Dlo in Hlo. rewrite Dhi in Hhi.
    exact (zoom_round_trip_near (scale (this w)) V Hlo Hhi).
Qed.

Lemma zoomIn_zoomOut_round_trip_witness :
  (scale_in_bounds (this (Sample.world 5%Q))
   /\ nle (nadd (scale (this (Sample.world 5%Q))) lit_0_2)
          (maxScale (this (Sample.world 5%Q))) = true
   /\ (scale (this (run [call_zoomIn; call_zoomOut] (Sample.world 5%Q)))
       == scale (this (Sample.world 5%Q)))%Q)
  /\ (nle (minScale (this (run [call_zoomOut]
                               (snd (constructor
                                       (Sample.document (B64.of_Z 5)))))))
          (nsub (scale (this (run [call_zoomOut]
                                  (snd (constructor
                                          (Sample.document (B64.of_Z 5)))))))
                lit_0_2) = true
      /\ scale (this (run [call_zoomOut; call_zoomIn]
                          (run [call_zoomOut]
                               (snd (constructor
                                       (Sample.document (B64.of_Z 5)))))))
         = scale (this (run [call_zoomOut]
                            (snd (constructor
                                    (Sample.document (B64.of_Z 5)))))))
  /\ (default_bounds (this (Sample.world (B64.of_Z 5)))
      /\ valid_binary B64.prec B64.emax
           (scale (this (Sample.world (B64.of_Z 5)))) = true
      /\ scale_in_bounds (this (Sample.world (B64.of_Z 5)))
      /\ nle (nadd (scale (this (Sample.world (B64.of_Z 5)))) lit_0_2)
             (maxScale (this (Sample.world (B64.of_Z 5)))) = true
      /\ (Z.abs (units (scale (this (run [call_zoomIn; call_zoomOut]
                                         (Sample.world (B64.of_Z 5)))))
                 - units (scale (this (Sample.world (B64.of_Z 5)))))
          <= 16)%Z).
Proof.
  destruct zoomIn_zoomOut_round_trip as (HQ & HB & HT). split; [|split].
  - assert (Hb : scale_in_bounds (this (Sample.world 5%Q)))
      by (split; vm_compute; reflexivity).
    assert (Hs : nle (nadd (scale (this (Sample.world 5%Q))) lit_0_2)
                     (maxScale (this (Sample.world 5%Q))) = true)
      by (vm_compute; reflexivity).
    split; [exact Hb|]. split; [exact Hs|].
    exact (proj1 (HQ _ Hb) Hs).
  - specialize (HB (Sample.document (B64.of_Z 5)) [call_zoomOut]).
    cbv zeta in HB. destruct HB as [_ HB].
    set (w := run [call_zoomOut]
                  (snd (constructor (Sample.document (B64.of_Z 5))))) in *.
    assert (Hs : nle (minScale (this w)) (nsub (scale (this w)) lit_0_2)
                 = true) by (vm_compute; reflexivity).
    split; [exact Hs|]. exact (HB Hs).
  - set (w := Sample.world (B64.of_Z 5)).
    assert (Hd : default_bounds (this w)) by (split; vm_compute; reflexivity).
    assert (Hv : valid_binary B64.prec B64.emax (scale (this w)) = true)
      by (vm_compute; reflexivity).
    assert (Hb : scale_in_bounds (this w)) by (split; vm_compute; reflexivity).
    assert (Hs : nle (nadd (scale (this w)) lit_0_2) (maxScale (this w))
                 = true) by (vm_compute; reflexivity).
    split; [exact Hd|]. split; [exact Hv|]. split; [exact Hb|].
    split; [exact Hs|].
    exact (proj2 (proj1 (HT w Hd Hv Hb) Hs)).
Defined.

(** At a bound the round trip is lost: from scale 3, [zoomIn()] changes
    nothing and [zoomOut()] then leaves 2.8. *)
Example zoomIn_zoomOut_at_max :
  let w := run (repeat call_zoomIn 10) (Sample.world 5%Q) in
  (scale (this w) == 3)%Q
  /\ (scale (this (run [call_zoomIn; call_zoomOut] w)) == 28 # 10)%Q.
Proof. split; vm_compute; reflexivity. Qed.

(** ** Station hover *)

Section Hover.
Context {num : Type} {A : Arith num}.

Lemma showStationTooltip_completes (e : MouseEvent num)
      (station : Station num) (w : World num) :
  present (mapWrapper (this w)) = true ->
  fst (showStationTooltip e station w) = Done tt.
Proof.
  intros H. js_unfold.
  destruct (tooltip (this w)) as [t|]; cbn; [|reflexivity].
  destruct (negb (contains _ _)); cbn; [reflexivity|].
  destruct (mapWrapper (this w)); [reflexivity|discriminate].
Qed.

Lemma hover_enter_circle (e : MouseEvent num) (w : World num)
      (station : Station num) :
  tagName station = "circle"%string ->
  present (mapWrapper (this w)) = true ->
  fst (hover_enter e w station) = Done tt
  /\ r (snd (snd (hover_enter e w station)))
     = parseFloat_String (nmul (r station) lit_1_5)
  /\ tagName (snd (snd (hover_enter e w station))) = "circle"%string.
Proof.
  intros Ht Hw. pose proof (showStationTooltip_completes e station w Hw) as C.
  unfold hover_enter, station_mouseenter.
  cbv beta iota delta [bind getStation on_world setStation modify ret].
  cbn [fst snd].
  destruct (showStationTooltip e station w) as [o w']. cbn in C. subst o.
  rewrite Ht. repeat split; try reflexivity. exact Ht.
Qed.

Lemma hover_leave_circle (e : MouseEvent num) (w : World num)
      (station : Station num) :
  tagName station = "circle"%string ->
  fst (station_mouseleave e (w, station)) = Done tt
  /\ r (snd (snd (station_mouseleave e (w, station))))
     = parseFloat_String (ndiv (r station) lit_1_5).
Proof.
  intros Ht. unfold station_mouseleave, hideTooltip.
  cbv beta iota delta
    [bind getStation on_world setStation modify ret getThis setThis].
  cbn [fst snd]. rewrite Ht.
  destruct (tooltip (this w)); split; reflexivity.
Qed.

Lemma hover_enter_leave_circle (e e' : MouseEvent num) (w : World num)
      (station : Station num) :
  tagName station = "circle"%string ->
  present (mapWrapper (this w)) = true ->
  fst (hover_enter e w station) = Done tt
  /\ fst (hover_enter_leave e e' w station) = Done tt
  /\ r (snd (snd (hover_enter e w station)))
     = parseFloat_String (nmul (r station) lit_1_5)
  /\ r (snd (snd (hover_enter_leave e e' w station)))
     = parseFloat_String
         (ndiv (parseFloat_String (nmul (r station) lit_1_5)) lit_1_5).
Proof.
  intros Ht Hw.
  destruct (hover_enter_circle e w station Ht Hw) as (C1 & R1 & T1).
  unfold hover_enter_leave.
  destruct (snd (hover_enter e w station)) as [w1 s1] eqn:E1.
  cbn [snd] in *.
  destruct (hover_leave_circle e' w1 s1 T1) as (C2 & R2).
  rewrite R2, R1. repeat split; assumption.
Qed.

End Hover.

(** In binary64 the round trip is exact on the integer radii up to 100,
    off by one unit in the last place on radius 0.1, and ends at
    [Infinity] on radius [1.5 * 2^1023]. *)
Lemma integer_radii_restored_100 : integer_radii_restored 100 = true.
Proof. vm_compute. reflexivity. Qed.

Example radius_one_tenth_drifts :
  round_trip_radius (S754_finite false 7205759403792794 (-56))
  = S754_finite false 7205759403792795 (-56).
Proof. vm_compute. reflexivity. Qed.

Unset Implicit Arguments.

Section RadiusRounding.
Local Open Scope Z_scope.

Lemma located_shr_1 (N D : Z) (x : shr_record) :
  0 < D -> located N D x -> located N (2 * D) (shr_1 x).
Proof.
  intros HD (rest & E & Hr & Hs & Hm). destruct x as [m r s].
  cbn [shr_m shr_r shr_s] in *.
  rewrite shr_1_nonneg by exact Hm.
  exists (D * Z.b2z r + rest). cbn [shr_m shr_r shr_s].
  pose proof (Z.div2_odd m) as Em.
  assert (0 <= Z.div2 m) by (rewrite Z.div2_nonneg; exact Hm).
  split; [|split; [|split]].
  - rewrite E. rewrite Em at 1. ring.
  - destruct r; cbn [Z.b2z]; lia.
  - subst s. destruct r; cbn [Z.b2z orb].
    + symmetry. apply negb_true_iff, Z.eqb_neq. lia.
    + f_equal. f_equal. lia.
  - assumption.
Qed.

Lemma located_iter (N D : Z) (x : shr_record) (n : nat) :
  0 < D -> located N D x ->
  located N (2 ^ Z.of_nat n * D) (Nat.iter n shr_1 x).
Proof.
  intros HD H. induction n as [|n IH].
  - cbn [Nat.iter]. change (2 ^ Z.of_nat 0) with 1.
    replace (1 * D) with D by lia. exact H.
  - change (Nat.iter (S n) shr_1 x) with (shr_1 (Nat.iter n shr_1 x)).
    rewrite Nat2Z.inj_succ, Z.pow_succ_r by lia.
    replace (2 * 2 ^ Z.of_nat n * D) with (2 * (2 ^ Z.of_nat n * D)) by ring.
    apply located_shr_1; [|exact IH].
    assert (0 < 2 ^ Z.of_nat n) by (apply Z.pow_pos_nonneg; lia). nia.
Qed.

Lemma shr_m_iter (x : shr_record) (n : nat) :
  0 <= shr_m x ->
  shr_m (Nat.iter n shr_1 x) = shr_m x / 2 ^ Z.of_nat n.
Proof.
  intros H. induction n as [|n IH].
  - cbn [Nat.iter]. change (2 ^ Z.of_nat 0) with 1. rewrite Z.div_1_r.
    reflexivity.
  - change (Nat.iter (S n) shr_1 x) with (shr_1 (Nat.iter n shr_1 x)).
    assert (P : 0 <= shr_m (Nat.iter n shr_1 x)).
    { rewrite IH. apply Z.div_pos; [exact H|].
      apply Z.pow_pos_nonneg; lia. }
    destruct (Nat.iter n shr_1 x) as [m r s]. cbn [shr_m] in *.
    rewrite shr_1_nonneg by exact P. cbn [shr_m].
    rewrite Z.div2_div, IH, Nat2Z.inj_succ, Z.pow_succ_r by lia.
    rewrite Z.div_div by (try lia; apply Z.pow_pos_nonneg; lia).
    f_equal. ring.
Qed.

(** Rounding to nearest even of a located record. *)
Lemma round_located (N D : Z) (x : shr_record) :
  0 < D -> located N D x ->
  let R := round_nearest_even (shr_m x) (loc_of_shr_record x) in
  (R = shr_m x \/ R = shr_m x + 1)
  /\ Z.abs (2 * D * R - N) <= D.
Proof.
  intros HD (rest & E & Hr & Hs & Hm). destruct x as [q r s].
  cbn [shr_m shr_r shr_s] in *.
  destruct r, s; cbn [loc_of_shr_record round_nearest_even Z.b2z] in *.
  - split; [right; reflexivity|]. nia.
  - apply (f_equal negb) in Hs. cbn in Hs. rewrite negb_involutive in Hs.
    symmetry in Hs. apply Z.eqb_eq in Hs.
    destruct (Z.even q); split; auto; nia.
  - split; [left; reflexivity|]. nia.
  - apply (f_equal negb) in Hs. cbn in Hs. rewrite negb_involutive in Hs.
    symmetry in Hs. apply Z.eqb_eq in Hs.
    split; [left; reflexivity|]. nia.
Qed.

Lemma shr_by_nat (x : shr_record) (e : Z) (n : nat) :
  shr x e (Z.of_nat n) = (Nat.iter n shr_1 x, e + Z.of_nat n).
Proof.
  destruct n as [|n].
  - cbn. rewrite Z.add_0_r. reflexivity.
  - change (Z.of_nat (S n)) with (Zpos (Pos.of_succ_nat n)).
    unfold shr. rewrite iter_pos_nat, SuccNat2Pos.id_succ. reflexivity.
Qed.

(** Rounding a positive integer [q] of [53 + n] bits with a location,
    scaled by [2^e], to a double: the result is a normal double and at
    most half a unit of its last place away from the value [N / (2 D)]
    the record locates. *)
Lemma binary_round_aux_located (q : positive) (e : Z) (l : location)
      (n : nat) (N D : Z) :
  0 < D ->
  located N D (shr_record_of_loc (Zpos q) l) ->
  Zpos (digits2_pos q) = 53 + Z.of_nat n ->
  -1074 <= e + Z.of_nat n ->
  e + Z.of_nat n + 1 <= 971 ->
  exists (m' : positive) (e' : Z),
    binary_round_aux 53 1024 false (Zpos q) e l = S754_finite false m' e'
    /\ Zpos (digits2_pos m') = 53
    /\ e + Z.of_nat n <= e' <= e + Z.of_nat n + 1
    /\ Z.abs (2 * D * (Zpos m' * 2 ^ (e' - e)) - N) <= D * 2 ^ Z.of_nat n.
Proof.
  intros HD Hloc Hd He Htop.
  destruct (digits2_pos_bounds q) as [Qlo Qhi]. rewrite Hd in Qlo, Qhi.
  assert (Hh : 0 < 2 ^ Z.of_nat n) by (apply Z.pow_pos_nonneg; lia).
  set (x := Nat.iter n shr_1 (shr_record_of_loc (Zpos q) l)).
  assert (Hm0 : shr_m (shr_record_of_loc (Zpos q) l) = Zpos q)
    by (destruct l as [|[| |]]; reflexivity).
  assert (Hshr : shr_fexp 53 1024 (Zpos q) e l = (x, e + Z.of_nat n)).
  { rewrite (shr_fexp_by (Zpos q) e l (Z.of_nat n)).
    2:{ unfold fexp, emin. cbn [Zdigits2]. rewrite Hd. lia. }
    apply shr_by_nat. }
  pose proof (located_iter N D _ n HD Hloc) as Lx. fold x in Lx.
  assert (HD' : 0 < 2 ^ Z.of_nat n * D) by nia.
  destruct (round_located N (2 ^ Z.of_nat n * D) x HD' Lx) as [HR Hnear].
  set (R := round_nearest_even (shr_m x) (loc_of_shr_record x)) in *.
  assert (Hq : 2 ^ 52 <= shr_m x < 2 ^ 53).
  { unfold x. rewrite shr_m_iter by (rewrite Hm0; lia). rewrite Hm0.
    replace (53 + Z.of_nat n - 1) with (52 + Z.of_nat n) in Qlo by lia.
    rewrite Z.pow_add_r in Qlo, Qhi by lia.
    split.
    - apply Z.div_le_lower_bound; lia.
    - apply Z.div_lt_upper_bound; lia. }
  assert (Haux : binary_round_aux 53 1024 false (Zpos q) e l
                 = let '(mrs, e'') :=
                     shr_fexp 53 1024 R (e + Z.of_nat n) loc_Exact in
                   match shr_m mrs with
                   | Z0 => S754_zero false
                   | Zpos m =>
                       if e'' <=? 1024 - 53 then S754_finite false m e''
                       else S754_infinity false
                   | Zneg _ => S754_nan
                   end).
  { unfold binary_round_aux. rewrite Hshr. reflexivity. }
  rewrite Haux. clear Haux Hshr.
  assert (HRb : 2 ^ 52 <= R <= 2 ^ 53) by lia.
  clearbody R. clear HR.
  replace (2 * (2 ^ Z.of_nat n * D) * R) with (2 * D * (R * 2 ^ Z.of_nat n))
    in Hnear by ring.
  replace (2 ^ Z.of_nat n * D) with (D * 2 ^ Z.of_nat n) in Hnear by ring.
  destruct R as [|m1|m1]; try (exfalso; cbn in HRb; lia).
  destruct (Z.eq_dec (Zpos m1) (2 ^ 53)) as [Top|NotTop].
  - rewrite (shr_fexp_by (Zpos m1) (e + Z.of_nat n) loc_Exact 1).
    2:{ unfold fexp, emin. cbn [Zdigits2].
        rewrite (digits2_pos_unique m1 54) by (rewrite Top; cbn; lia). lia. }
    injection Top as ->.
    exists 4503599627370496%positive, (e + Z.of_nat n + 1).
    cbn [shr shr_record_of_loc iter_pos shr_1 shr_m fst snd].
    replace (e + Z.of_nat n + 1 <=? 1024 - 53) with true
      by (symmetry; apply Z.leb_le; lia).
    split; [reflexivity|]. split; [reflexivity|]. split; [lia|].
    replace (e + Z.of_nat n + 1 - e) with (Z.succ (Z.of_nat n)) by lia.
    rewrite Z.pow_succ_r by lia.
    replace (4503599627370496 * (2 * 2 ^ Z.of_nat n))
      with (9007199254740992 * 2 ^ Z.of_nat n) by ring.
    exact Hnear.
  - rewrite (shr_fexp_by (Zpos m1) (e + Z.of_nat n) loc_Exact 0).
    2:{ unfold fexp, emin. cbn [Zdigits2].
        rewrite (digits2_pos_unique m1 53) by (cbn in *; lia). lia. }
    exists m1, (e + Z.of_nat n).
    cbn [shr shr_record_of_loc shr_m fst snd].
    replace (e + Z.of_nat n <=? 1024 - 53) with true
      by (symmetry; apply Z.leb_le; lia).
    split; [reflexivity|].
    split; [apply digits2_pos_unique; cbn in *; lia|]. split; [lia|].
    replace (e + Z.of_nat n - e) with (Z.of_nat n) by lia.
    exact Hnear.
Qed.

End RadiusRounding.

Section RadiusRoundTrip.
Local Open Scope Z_scope.

Lemma digits_between (q : positive) (lo : Z) :
  0 <= lo -> 2 ^ lo <= Zpos q < 2 ^ (lo + 2) ->
  Zpos (digits2_pos q) = lo + 1 \/ Zpos (digits2_pos q) = lo + 2.
Proof.
  intros Hlo [A B].
  destruct (digits2_pos_bounds q) as [Qlo Qhi].
  set (d := Zpos (digits2_pos q)) in *.
  assert (0 < d) by (unfold d; lia).
  assert (lo < d).
  { apply (Z.pow_lt_mono_r_iff 2); lia. }
  assert (d - 1 < lo + 2).
  { apply (Z.pow_lt_mono_r_iff 2); lia. }
  lia.
Qed.

(** Multiplying a normal radius by 1.5. *)
Lemma mul_1_5_near (m : positive) (e : Z) :
  Zpos (digits2_pos m) = 53 -> -1073 <= e <= 969 ->
  exists (m1 : positive) (a : Z),
    B64.mul (S754_finite false m e) B64.d1_5 = S754_finite false m1 (e + a)
    /\ Zpos (digits2_pos m1) = 53
    /\ 0 <= a <= 1
    /\ Z.abs (2 ^ (a + 1) * Zpos m1 - 3 * Zpos m) <= 2 ^ a.
Proof.
  intros Hd He.
  destruct (digits2_pos_bounds m) as [Mlo Mhi]. rewrite Hd in Mlo, Mhi.
  change (2 ^ (53 - 1)) with 4503599627370496 in Mlo.
  change (2 ^ 53) with 9007199254740992 in Mhi.
  set (q := (m * mantissa_1_5)%positive).
  assert (Eq : Zpos q = Zpos m * 6755399441055744) by reflexivity.
  assert (Emul : B64.mul (S754_finite false m e) B64.d1_5
                 = binary_round_aux 53 1024 false (Zpos q) (e - 52) loc_Exact)
    by reflexivity.
  rewrite Emul. clear Emul.
  assert (Hq : Zpos (digits2_pos q) = 104 + 1 \/ Zpos (digits2_pos q) = 104 + 2).
  { apply digits_between; [lia|].
    change (2 ^ 104) with 20282409603651670423947251286016.
    change (2 ^ (104 + 2)) with 81129638414606681695789005144064. lia. }
  assert (Hn : exists n : nat, Zpos (digits2_pos q) = 53 + Z.of_nat n
                               /\ (n = 52%nat \/ n = 53%nat)).
  { destruct Hq as [Hq|Hq]; [exists 52%nat|exists 53%nat]; rewrite Hq;
      split; auto. }
  destruct Hn as (n & Hdq & Hn).
  assert (L : located (2 * Zpos q) 1 (shr_record_of_loc (Zpos q) loc_Exact)).
  { exists 0. cbn [shr_record_of_loc shr_m shr_r shr_s Z.b2z].
    repeat split; try lia. }
  destruct (binary_round_aux_located q (e - 52) loc_Exact n (2 * Zpos q) 1)
    as (m1 & e1 & E & Hd1 & He1 & Hnear); try lia; try assumption.
  destruct (digits2_pos_bounds m1) as [M1lo M1hi]. rewrite Hd1 in M1lo, M1hi.
  change (2 ^ (53 - 1)) with 4503599627370496 in M1lo.
  change (2 ^ 53) with 9007199254740992 in M1hi.
  exists m1, (e1 - e). rewrite E. replace (e + (e1 - e)) with e1 by lia.
  split; [reflexivity|]. split; [exact Hd1|].
  rewrite Eq in Hnear.
  destruct Hn as [-> | ->].
  - assert (C : e1 - (e - 52) = 52 \/ e1 - (e - 52) = 53) by lia.
    destruct C as [C|C]; rewrite C in Hnear.
    + replace (e1 - e) with 0 by lia.
      change (2 ^ 52) with 4503599627370496 in Hnear.
      change (2 ^ Z.of_nat 52) with 4503599627370496 in Hnear.
      change (2 ^ (0 + 1)) with 2. change (2 ^ 0) with 1. lia.
    + replace (e1 - e) with 1 by lia.
      change (2 ^ 53) with 9007199254740992 in Hnear.
      change (2 ^ Z.of_nat 52) with 4503599627370496 in Hnear.
      change (2 ^ (1 + 1)) with 4. change (2 ^ 1) with 2. lia.
  - assert (C : e1 - (e - 52) = 53 \/ e1 - (e - 52) = 54) by lia.
    destruct C as [C|C]; rewrite C in Hnear.
    + replace (e1 - e) with 1 by lia.
      change (2 ^ 53) with 9007199254740992 in Hnear.
      change (2 ^ Z.of_nat 53) with 9007199254740992 in Hnear.
      change (2 ^ (1 + 1)) with 4. change (2 ^ 1) with 2. lia.
    + exfalso.
      change (2 ^ 54) with 18014398509481984 in Hnear.
      change (2 ^ Z.of_nat 53) with 9007199254740992 in Hnear. lia.
Qed.

Lemma located_new_location (q r : Z) :
  0 <= q -> 0 <= r < Zpos mantissa_1_5 ->
  located (2 * (q * Zpos mantissa_1_5 + r)) (Zpos mantissa_1_5)
    (shr_record_of_loc q (new_location (Zpos mantissa_1_5) r)).
Proof.
  intros Hq Hr. unfold new_location.
  change (Z.even (Zpos mantissa_1_5)) with true. cbv iota.
  unfold new_location_even.
  destruct (Z.eqb_spec r 0) as [->|Hr0].
  - exists 0. cbn [shr_record_of_loc shr_m shr_r shr_s Z.b2z].
    repeat split; try lia.
  - destruct (Z.compare_spec (2 * r) (Zpos mantissa_1_5)) as [C|C|C];
      cbn [shr_record_of_loc shr_m shr_r shr_s Z.b2z].
    + exists 0. cbn [shr_m shr_r shr_s Z.b2z]. repeat split; try lia.
    + exists (2 * r). cbn [shr_m shr_r shr_s Z.b2z].
      repeat split; lia.
    + exists (2 * r - Zpos mantissa_1_5). cbn [shr_m shr_r shr_s Z.b2z].
      repeat split; lia.
Qed.

(** Dividing a normal radius by 1.5. *)
Lemma div_1_5_near (m1 : positive) (e1 : Z) :
  Zpos (digits2_pos m1) = 53 -> -1073 <= e1 <= 970 ->
  exists (m2 : positive) (c : Z),
    B64.div (S754_finite false m1 e1) B64.d1_5
    = S754_finite false m2 (e1 - 1 + c)
    /\ Zpos (digits2_pos m2) = 53
    /\ 0 <= c <= 1
    /\ 2 * Z.abs (3 * 2 ^ c * Zpos m2 - 4 * Zpos m1) <= 3 * 2 ^ c.
Proof.
  intros Hd He.
  destruct (digits2_pos_bounds m1) as [Mlo Mhi]. rewrite Hd in Mlo, Mhi.
  change (2 ^ (53 - 1)) with 4503599627370496 in Mlo.
  change (2 ^ 53) with 9007199254740992 in Mhi.
  pose proof (Z.div_eucl_eq (Zpos m1 * 2 ^ 53) (Zpos mantissa_1_5)) as Eeu.
  pose proof (Z.mod_pos_bound (Zpos m1 * 2 ^ 53) (Zpos mantissa_1_5)) as Hmod.
  unfold Z.modulo in Hmod.
  destruct (Z.div_eucl (Zpos m1 * 2 ^ 53) (Zpos mantissa_1_5)) as [q r] eqn:Ed.
  specialize (Eeu ltac:(lia)). specialize (Hmod ltac:(lia)).
  change (2 ^ 53) with 9007199254740992 in Eeu.
  assert (Ecore : SFdiv_core_binary 53 1024 (Zpos m1) e1 (Zpos mantissa_1_5) (-52)
                  = (q, e1 - 1, new_location (Zpos mantissa_1_5) r)).
  { unfold SFdiv_core_binary. cbv zeta. cbn [Zdigits2]. rewrite Hd.
    change (Zpos (digits2_pos mantissa_1_5)) with 53.
    replace (Z.min (fexp 53 1024 (53 + e1 - (53 + -52))) (e1 - -52))
      with (e1 - 1) by (unfold fexp, emin; lia).
    replace (e1 - -52 - (e1 - 1)) with 53 by lia.
    rewrite Z.shiftl_mul_pow2 by lia. rewrite Ed. reflexivity. }
  assert (Ediv : B64.div (S754_finite false m1 e1) B64.d1_5
                 = binary_round_aux 53 1024 false q (e1 - 1)
                     (new_location (Zpos mantissa_1_5) r)).
  { change (B64.div (S754_finite false m1 e1) B64.d1_5)
      with (let '(mz, ez, lz) :=
              SFdiv_core_binary 53 1024 (Zpos m1) e1 (Zpos mantissa_1_5) (-52)
            in binary_round_aux 53 1024 false mz ez lz).
    rewrite Ecore. reflexivity. }
  rewrite Ediv. clear Ediv Ecore Ed.
  assert (Hqb : 2 ^ 52 <= q < 2 ^ (52 + 2)).
  { change (2 ^ 52) with 4503599627370496.
    change (2 ^ (52 + 2)) with 18014398509481984.
    change (Zpos mantissa_1_5) with 6755399441055744 in *. lia. }
  destruct q as [|q|q]; try (exfalso; cbn in Hqb; lia).
  assert (Hn : exists n : nat, Zpos (digits2_pos q) = 53 + Z.of_nat n
                               /\ (n = 0%nat \/ n = 1%nat)).
  { destruct (digits_between q 52 ltac:(lia) Hqb) as [Hq|Hq];
      [exists 0%nat|exists 1%nat]; rewrite Hq; split; auto. }
  destruct Hn as (n & Hdq & Hn).
  pose proof (located_new_location (Zpos q) r ltac:(lia) Hmod) as L.
  destruct (binary_round_aux_located q (e1 - 1)
              (new_location (Zpos mantissa_1_5) r) n
              (2 * (Zpos q * Zpos mantissa_1_5 + r)) (Zpos mantissa_1_5)
              ltac:(lia) L Hdq)
    as (m2 & e2 & E & Hd2 & He2 & Hnear); try lia.
  destruct (digits2_pos_bounds m2) as [M2lo M2hi]. rewrite Hd2 in M2lo, M2hi.
  change (2 ^ (53 - 1)) with 4503599627370496 in M2lo.
  change (2 ^ 53) with 9007199254740992 in M2hi.
  exists m2, (e2 - (e1 - 1)). rewrite E.
  replace (e1 - 1 + (e2 - (e1 - 1))) with e2 by lia.
  split; [reflexivity|]. split; [exact Hd2|].
  replace (Zpos q * Zpos mantissa_1_5 + r) with (Zpos m1 * 9007199254740992)
    in Hnear by lia.
  change (Zpos mantissa_1_5) with 6755399441055744 in *.
  destruct Hn as [-> | ->].
  - assert (C : e2 - (e1 - 1) = 0 \/ e2 - (e1 - 1) = 1) by lia.
    destruct C as [C|C]; rewrite C in *.
    + change (2 ^ 0) with 1 in *. change (2 ^ Z.of_nat 0) with 1 in *. lia.
    + change (2 ^ 1) with 2 in *. change (2 ^ Z.of_nat 0) with 1 in *. lia.
  - assert (C : e2 - (e1 - 1) = 1 \/ e2 - (e1 - 1) = 2) by lia.
    destruct C as [C|C]; rewrite C in *.
    + change (2 ^ 1) with 2 in *. change (2 ^ Z.of_nat 1) with 2 in *. lia.
    + exfalso.
      change (2 ^ 2) with 4 in *. change (2 ^ Z.of_nat 1) with 2 in *. lia.
Qed.

Lemma radius_round_trip_near (x : B64.float) :
  normal_radius x = true ->
  exists (m' : positive) (e' : Z),
    round_trip_radius x = S754_finite false m' e'
    /\ Zpos (digits2_pos m') = 53%Z
    /\ (Z.abs (position (round_trip_radius x) - position x) <= ulp x)%Z.
Proof.
  intros Hx. destruct x as [s|s| |s m e]; try discriminate.
  destruct s; try discriminate. cbn [normal_radius] in Hx.
  apply andb_true_iff in Hx. destruct Hx as [Hx He2].
  apply andb_true_iff in Hx. destruct Hx as [Hd He1].
  apply Z.eqb_eq in Hd. apply Z.leb_le in He1, He2.
  destruct (mul_1_5_near m e Hd (conj He1 He2)) as (m1 & a & E1 & Hd1 & Ha & N1).
  destruct (div_1_5_near m1 (e + a) Hd1 ltac:(lia)) as (m2 & c & E2 & Hd2 & Hc & N2).
  assert (E : @round_trip_radius B64.float binary64 (S754_finite false m e)
              = S754_finite false m2 (e + a - 1 + c)).
  { unfold round_trip_radius.
    change (B64.parseFloat_String
              (B64.div (B64.parseFloat_String
                          (B64.mul (S754_finite false m e) B64.d1_5)) B64.d1_5)
            = S754_finite false m2 (e + a - 1 + c)).
    rewrite E1. cbn [B64.parseFloat_String]. rewrite E2. reflexivity. }
  exists m2, (e + a - 1 + c). split; [exact E|]. split; [exact Hd2|].
  rewrite E. cbn [position ulp].
  set (P := 2 ^ (e + 1074)).
  assert (HP : 0 < P) by (apply Z.pow_pos_nonneg; lia).
  replace (e + 1075) with (Z.succ (e + 1074)) by lia.
  rewrite Z.pow_succ_r by lia. fold P.
  assert (K : Z.abs (2 ^ (a + c) * Zpos m2 - 2 * Zpos m) <= 2).
  { assert (Ca : a = 0 \/ a = 1) by lia. assert (Cc : c = 0 \/ c = 1) by lia.
    destruct Ca as [-> | ->], Cc as [-> | ->];
      change (2 ^ (0 + 0)) with 1; change (2 ^ (0 + 1)) with 2;
      change (2 ^ (1 + 0)) with 2; change (2 ^ (1 + 1)) with 4 in *;
      change (2 ^ 0) with 1 in *; change (2 ^ 1) with 2 in *; lia. }
  replace (e + a - 1 + c + 1075) with ((a + c) + (e + 1074)) by lia.
  rewrite Z.pow_add_r by lia. fold P.
  replace (Zpos m2 * (2 ^ (a + c) * P) - Zpos m * (2 * P))
    with ((2 ^ (a + c) * Zpos m2 - 2 * Zpos m) * P) by ring.
  set (k := 2 ^ (a + c) * Zpos m2 - 2 * Zpos m) in *.
  rewrite Z.abs_mul, (Z.abs_eq P) by lia. nia.
Qed.

End RadiusRoundTrip.

Set Implicit Arguments.

(** C9, as the code has it.  On a circular marker, hover-enter sets the
    radius to the product by 1.5 and hover-leave to the quotient by 1.5,
    each read back from the attribute, both returning normally.  In exact
    arithmetic the round trip restores every radius.  In binary64 it
    gives, for every positive normal radius from [2^-1021] up to
    [2^1022], a positive normal double at most one unit in the last place
    of the radius away, and it restores exactly every integer radius from
    1 to 100, radius 5 among them. *)
Theorem hover_round_trip_restores_radius :
  (forall (num : Type) (A : Arith num) (e e' : MouseEvent num)
          (w : World num) (station : Station num),
      tagName station = "circle"%string ->
      present (mapWrapper (this w)) = true ->
      fst (hover_enter e w station) = Done tt
      /\ fst (hover_enter_leave e e' w station) = Done tt
      /\ r (snd (snd (hover_enter e w station)))
         = parseFloat_String (nmul (r station) lit_1_5)
      /\ r (snd (snd (hover_enter_leave e e' w station)))
         = parseFloat_String
             (ndiv (r (snd (snd (hover_enter e w station)))) lit_1_5))
  /\ (forall (e e' : MouseEvent Q) (w : World Q) (station : Station Q),
        tagName station = "circle"%string ->
        present (mapWrapper (this w)) = true ->
        (r (snd (snd (hover_enter_leave e e' w station))) == r station)%Q)
  /\ (forall (e e' : MouseEvent B64.float) (w : World B64.float)
             (station : Station B64.float),
        tagName station = "circle"%string ->
        present (mapWrapper (this w)) = true ->
        normal_radius (r station) = true ->
        exists (m' : positive) (e'' : Z),
          r (snd (snd (hover_enter_leave e e' w station)))
          = S754_finite false m' e''
          /\ Zpos (digits2_pos m') = 53%Z
          /\ (Z.abs (position (r (snd (snd (hover_enter_leave e e' w
                                               station))))
                     - position (r station))
              <= ulp (r station))%Z)
  /\ (forall (e e' : MouseEvent B64.float) (w : World B64.float)
             (station : Station B64.float) (k : nat),
        tagName station = "circle"%string ->
        present (mapWrapper (this w)) = true ->
        (1 <= k <= 100)%nat ->
        r station = B64.of_Z (Z.of_nat k) ->
        r (snd (snd (hover_enter_leave e e' w station)))
        = B64.of_Z (Z.of_nat k)).
Proof.
  split; [|split; [|split]].
  - intros num A e e' w station Ht Hw.
    destruct (hover_enter_leave_circle e e' w station Ht Hw)
      as (C1 & C2 & R1 & R2).
    rewrite R1, R2. repeat split; assumption.
  - intros e e' w station Ht Hw.
    destruct (hover_enter_leave_circle e e' w station Ht Hw)
      as (_ & _ & _ & ->).
    cbn. field.
  - intros e e' w station Ht Hw Hn.
    destruct (hover_enter_leave_circle e e' w station Ht Hw)
      as (_ & _ & _ & ->).
    exact (radius_round_trip_near (r station) Hn).
  - intros e e' w station k Ht Hw Hk Hr.
    destruct (hover_enter_leave_circle e e' w station Ht Hw)
      as (_ & _ & _ & ->).
    rewrite Hr.
    pose proof integer_radii_restored_100 as C.
    unfold integer_radii_restored in C. rewrite forallb_forall in C.
    apply B64_eqb_eq, (C k). apply in_seq. lia.
Qed.

Lemma hover_round_trip_restores_radius_witness :
  tagName (Sample.raffles_place (B64.of_Z 5)) = "circle"%string
  /\ present (mapWrapper (this (Sample.world (B64.of_Z 5)))) = true
  /\ normal_radius (r (Sample.raffles_place (B64.of_Z 5))) = true
  /\ r (Sample.raffles_place (B64.of_Z 5)) = B64.of_Z 5
  /\ r (snd (snd (hover_enter_leave
                    (Sample.at_ (B64.of_Z 40) (B64.of_Z 30))
                    (Sample.at_ (B64.of_Z 41) (B64.of_Z 30))
                    (Sample.world (B64.of_Z 5))
                    (Sample.raffles_place (B64.of_Z 5)))))
     = B64.of_Z 5.
Proof.
  assert (Ht : tagName (Sample.raffles_place (B64.of_Z 5)) = "circle"%string)
    by reflexivity.
  assert (Hw : present (mapWrapper (this (Sample.world (B64.of_Z 5)))) = true)
    by (vm_compute; reflexivity).
  assert (Hn : normal_radius (r (Sample.raffles_place (B64.of_Z 5))) = true)
    by reflexivity.
  assert (H5 : r (Sample.raffles_place (B64.of_Z 5)) = B64.of_Z 5)
    by reflexivity.
  split; [exact Ht|]. split; [exact Hw|]. split; [exact Hn|].
  split; [exact H5|].
  assert (Hk : (1 <= 5 <= 100)%nat) by lia.
  exact (proj2 (proj2 (proj2 hover_round_trip_restores_radius)) _ _ _ _
           5%nat Ht Hw Hk H5).
Defined.

(** C9, as the claim has it, fails: a circle of radius [1.5 * 2^1023], a
    double, has radius [Infinity] after the pointer has entered and left
    it, and no tolerance relates the two. *)
Lemma huge_radius_is_not_restored :
  SpecFloat.valid_binary B64.prec B64.emax huge_radius = true
  /\ tagName (Sample.raffles_place huge_radius) = "circle"%string
  /\ r (snd (snd (hover_enter_leave
                    (Sample.at_ (B64.of_Z 40) (B64.of_Z 30))
                    (Sample.at_ (B64.of_Z 41) (B64.of_Z 30))
                    (Sample.world huge_radius)
                    (Sample.raffles_place huge_radius))))
     = S754_infinity false.
Proof. repeat split; vm_compute; reflexivity. Qed.

(** ** Station labels *)

Section Labels.
Context {num : Type} {A : Arith num}.

Lemma showStationTooltip_label (e : MouseEvent num) (station : Station num)
      (w : World num) :
  present (tooltip (this w)) = true ->
  tooltip_label (snd (showStationTooltip e station w))
  = Some (clean_name (resolved_name (lit "Station") station)).
Proof.
  unfold tooltip_label, clean_name, resolved_name. intros H. js_unfold.
  destruct (tooltip (this w)) as [t|]; [clear H|discriminate]. cbn.
  destruct (negb (contains _ _)); cbn; [reflexivity|].
  destruct (mapWrapper (this w)); reflexivity.
Qed.

Lemma handleStationClick_effect (station : Station num) (w : World num) :
  fst (handleStationClick station w) = Done tt
  /\ alerts (snd (handleStationClick station w))
     = (alerts w
        ++ [lit "Station: "
            ++ resolved_name (lit "Unknown Station") station
            ++ alert_details])%list
  /\ console (snd (handleStationClick station w))
     = (console w
        ++ [LogStationClicked
              (resolved_name (lit "Unknown Station") station)])%list.
Proof. repeat split; reflexivity. Qed.

End Labels.

(** C7.  When a tooltip element exists, hovering a node leaves in it the
    label obtained from the node's [id], else its [title], else its text
    content (else ["Station"]), by replacing each underscore with a space,
    removing the matches of ["station"] in any letter case, and trimming:
    the text is the result of the clean-up chain, it stands in the
    relation [label_of] to the resolved name, and it holds no underscore.
    For the identifier ["Raffles_Place_Station"] the label is
    ["Raffles Place"]. *)
Theorem tooltip_label_derivation :
  forall (num : Type) (A : Arith num) (e : MouseEvent num)
         (station : Station num) (w : World num),
    present (tooltip (this w)) = true ->
    tooltip_label (snd (showStationTooltip e station w))
    = Some (trim (remove_station (replace_underscores
              (or_else (id station)
                 (or_else (title station)
                    (or_else (Some (textContent station))
                       (lit "Station")))))))
    /\ (exists label,
          tooltip_label (snd (showStationTooltip e station w)) = Some label
          /\ label_of (resolved_name (lit "Station") station) label
          /\ ~ In 95%N label)
    /\ tooltip_label (fst (snd (hover_enter e w station)))
       = tooltip_label (snd (showStationTooltip e station w))
    /\ (id station = Some (lit "Raffles_Place_Station") ->
        tooltip_label (snd (showStationTooltip e station w))
        = Some (lit "Raffles Place")).
Proof.
  intros num A e station w H.
  rewrite (showStationTooltip_label e station w H).
  split; [reflexivity|]. split; [|split].
  - exists (clean_name (resolved_name (lit "Station") station)).
    split; [reflexivity|].
    split; [apply clean_name_label_of | apply clean_name_no_underscore].
  - rewrite <- (showStationTooltip_label e station w H).
    unfold hover_enter, station_mouseenter.
    cbv beta iota delta [bind getStation on_world setStation modify ret].
    cbn [fst snd].
    destruct (showStationTooltip e station w) as [[[]|err] w']; cbn [fst snd];
      [|reflexivity].
    destruct (String.eqb (tagName station) "circle"); reflexivity.
  - intros Hid. unfold clean_name, resolved_name. rewrite Hid.
    vm_compute. reflexivity.
Qed.

Lemma tooltip_label_derivation_witness :
  present (tooltip (this (Sample.world (B64.of_Z 5)))) = true
  /\ id (Sample.raffles_place (B64.of_Z 5))
     = Some (lit "Raffles_Place_Station")
  /\ tooltip_label
       (snd (showStationTooltip (Sample.at_ (B64.of_Z 40) (B64.of_Z 30))
               (Sample.raffles_place (B64.of_Z 5))
               (Sample.world (B64.of_Z 5))))
     = Some (lit "Raffles Place").
Proof.
  assert (Ht : present (tooltip (this (Sample.world (B64.of_Z 5)))) = true)
    by (vm_compute; reflexivity).
  assert (Hid : id (Sample.raffles_place (B64.of_Z 5))
                = Some (lit "Raffles_Place_Station")) by reflexivity.
  split; [exact Ht|]. split; [exact Hid|].
  exact (proj2 (proj2 (proj2 (tooltip_label_derivation binary64
                                (Sample.at_ (B64.of_Z 40) (B64.of_Z 30))
                                (Sample.raffles_place (B64.of_Z 5))
                                (Sample.world (B64.of_Z 5)) Ht))) Hid).
Defined.

Lemma resolved_name_default {num : Type} (d d' : jsstring)
      (station : Station num) :
  has_name station = true -> resolved_name d station = resolved_name d' station.
Proof.
  unfold has_name, resolved_name, or_else.
  destruct (id station) as [[|c s]|], (title station) as [[|c' s']|],
    (textContent station) as [|c'' s'']; try reflexivity; discriminate.
Qed.

(** C8, as the code has it.  The click handler resolves the name of a
    node by the same fall-back as the tooltip ([id], else [title], else
    text content) but does not clean it: the notification reads
    ["Station: "] followed by the raw name.  For a node that has a name,
    the tooltip label is the cleaned form of the name the click shows. *)
Theorem click_shows_raw_name :
  forall (num : Type) (A : Arith num) (e : MouseEvent num)
         (station : Station num) (w : World num),
    present (tooltip (this w)) = true ->
    has_name station = true ->
    fst (handleStationClick station w) = Done tt
    /\ alerts (snd (handleStationClick station w))
       = (alerts w
          ++ [lit "Station: "
              ++ resolved_name (lit "Unknown Station") station
              ++ alert_details])%list
    /\ tooltip_label (snd (showStationTooltip e station w))
       = Some (clean_name (resolved_name (lit "Unknown Station") station)).
Proof.
  intros num A e station w Ht Hn.
  destruct (handleStationClick_effect station w) as (C & Al & _).
  split; [exact C|]. split; [exact Al|].
  rewrite (showStationTooltip_label e station w Ht).
  rewrite (resolved_name_default (lit "Station") (lit "Unknown Station")
             station Hn).
  reflexivity.
Qed.

Lemma click_shows_raw_name_witness :
  present (tooltip (this (Sample.world (B64.of_Z 5)))) = true
  /\ has_name (Sample.raffles_place (B64.of_Z 5)) = true
  /\ alerts (snd (handleStationClick (Sample.raffles_place (B64.of_Z 5))
                    (Sample.world (B64.of_Z 5))))
     = [(lit "Station: Raffles_Place_Station" ++ alert_details)%list].
Proof.
  assert (Ht : present (tooltip (this (Sample.world (B64.of_Z 5)))) = true)
    by (vm_compute; reflexivity).
  assert (Hn : has_name (Sample.raffles_place (B64.of_Z 5)) = true)
    by reflexivity.
  split; [exact Ht|]. split; [exact Hn|].
  destruct (click_shows_raw_name binary64
              (Sample.at_ (B64.of_Z 40) (B64.of_Z 30))
              (Sample.raffles_place (B64.of_Z 5))
              (Sample.world (B64.of_Z 5)) Ht Hn) as (_ & Al & _).
  rewrite Al. vm_compute. reflexivity.
Defined.

(** C8, as the claim has it, fails: on the node ["Raffles_Place_Station"]
    the tooltip shows ["Raffles Place"] and the notification names
    ["Raffles_Place_Station"]. *)
Lemma click_label_is_not_tooltip_label :
  tooltip_label
    (snd (showStationTooltip (Sample.at_ (B64.of_Z 40) (B64.of_Z 30))
            (Sample.raffles_place (B64.of_Z 5))
            (Sample.world (B64.of_Z 5))))
  = Some (lit "Raffles Place")
  /\ alerts (snd (handleStationClick (Sample.raffles_place (B64.of_Z 5))
                    (Sample.world (B64.of_Z 5))))
     = [(lit "Station: Raffles_Place_Station" ++ alert_details)%list]
  /\ alerts (snd (handleStationClick (Sample.raffles_place (B64.of_Z 5))
                    (Sample.world (B64.of_Z 5))))
     <> [(lit "Station: " ++ lit "Raffles Place" ++ alert_details)%list].
Proof.
  split; [vm_compute; reflexivity|]. split; [vm_compute; reflexivity|].
  vm_compute. discriminate.
Qed.

(** ** Guarded set-up *)

Section SetUp.
Context {num : Type} {A : Arith num}.

(** The loop over the nodes returns normally and only adds listeners. *)
Lemma forEach_station_effect (nodes : list (Station num)) :
  forall (i : nat) (w : World num),
    exists nodes' ls,
      forEach_station i nodes w
      = (Done nodes', mkWorld (this w) ls (console w) (alerts w)).
Proof.
  induction nodes as [|n rest IH]; intros i w; cbn [forEach_station].
  - exists [], (listeners w). destruct w; reflexivity.
  - destruct (is_station n);
      cbv beta iota delta
        [make_interactive bind addEventListener modify ret push_listener];
      cbn [this listeners console alerts];
      match goal with
      | |- context [forEach_station ?j ?l ?x] =>
          destruct (IH j x) as (nodes' & ls & E); rewrite E
      end;
      eexists _, _; reflexivity.
Qed.

Lemma setupSVGInteraction_completes (w : World num) :
  fst (setupSVGInteraction w) = Done tt
  /\ pan_zoom_state (this (snd (setupSVGInteraction w)))
     = pan_zoom_state (this w).
Proof.
  cbv beta iota delta
    [setupSVGInteraction try_catch bind getThis deref ret throw setThis
     modify console_log].
  destruct (mapObject (this w)) as [o|]; [|split; reflexivity].
  destruct (contentDocument o) as [|e|nodes]; [split; reflexivity ..|].
  destruct (forEach_station_effect nodes O w) as (nodes' & ls & E).
  rewrite E. split; reflexivity.
Qed.

End SetUp.

(** C10, as the code has it.  No set-up path throws.  If the container
    or the graphic is missing, the constructor returns normally, wires no
    listener and logs nothing.  [setupSVGInteraction] always returns
    normally and leaves the pan/zoom state alone; if the embedded document
    is null it changes nothing and logs nothing; if reading it raises an
    error, the error is caught and logged and nothing else changes. *)
Theorem set_up_never_throws :
  forall (num : Type) (A : Arith num),
    (forall d : Document num,
        map_wrapper d = None \/ mrt_map_svg d = None ->
        fst (constructor d) = Done tt
        /\ listeners (snd (constructor d)) = []
        /\ console (snd (constructor d)) = [])
    /\ (forall w : World num,
          fst (setupSVGInteraction w) = Done tt
          /\ pan_zoom_state (this (snd (setupSVGInteraction w)))
             = pan_zoom_state (this w))
    /\ (forall (w : World num) (o : MapObject num),
          mapObject (this w) = Some o ->
          contentDocument o = DocNull ->
          setupSVGInteraction w = (Done tt, w))
    /\ (forall (w : World num) (o : MapObject num) (e : JsError),
          mapObject (this w) = Some o ->
          contentDocument o = DocDenied e ->
          setupSVGInteraction w
          = (Done tt, push_console (ErrorSettingUpSVG e) w)).
Proof.
  intros num A. split; [|split; [|split]].
  - intros d H. unfold constructor, init. js_unfold.
    destruct H as [-> | ->]; [|destruct (map_wrapper d)]; cbn;
      repeat split; reflexivity.
  - apply setupSVGInteraction_completes.
  - intros w o Ho Hd. unfold setupSVGInteraction. js_unfold.
    rewrite Ho; cbn. rewrite Hd. reflexivity.
  - intros w o e Ho Hd. unfold setupSVGInteraction. js_unfold.
    rewrite Ho; cbn. rewrite Hd. reflexivity.
Qed.

Lemma set_up_never_throws_witness :
  (map_wrapper (@Sample.without_wrapper B64.float) = None
   /\ fst (constructor (@Sample.without_wrapper B64.float)) = Done tt
   /\ listeners (snd (constructor (@Sample.without_wrapper B64.float)))
      = [])
  /\ (contentDocument (mkMapObject (num:=B64.float) None DocNull) = DocNull
      /\ console
           (snd (setupSVGInteraction
                   (snd (constructor (Sample.embedding
                                        (@DocNull B64.float))))))
         = [LogMapInitialized])
  /\ (contentDocument
        (mkMapObject (num:=B64.float) None (DocDenied SecurityError))
      = DocDenied SecurityError
      /\ console
           (snd (setupSVGInteraction
                   (snd (constructor (Sample.embedding
                                        (@DocDenied B64.float
                                           SecurityError))))))
         = [LogMapInitialized; ErrorSettingUpSVG SecurityError]).
Proof.
  destruct (set_up_never_throws binary64) as (Hinert & _ & Hnull & Hdenied).
  split; [|split].
  - split; [reflexivity|].
    destruct (Hinert Sample.without_wrapper (or_introl eq_refl))
      as (Hc & Hl & _).
    split; [exact Hc | exact Hl].
  - split; [reflexivity|].
    rewrite (Hnull (snd (constructor (Sample.embedding DocNull)))
               (mkMapObject None DocNull));
      vm_compute; reflexivity.
  - split; [reflexivity|].
    rewrite (Hdenied
               (snd (constructor
                       (Sample.embedding (DocDenied SecurityError))))
               (mkMapObject None (DocDenied SecurityError)) SecurityError);
      vm_compute; reflexivity.
Defined.

(** C10, as the claim has it, fails on a null embedded document: nothing
    is logged. *)
Lemma null_document_logs_nothing :
  contentDocument (mkMapObject (num:=B64.float) None DocNull) = DocNull
  /\ mapObject (this (snd (constructor (Sample.embedding
                                          (@DocNull B64.float)))))
     = Some (mkMapObject None DocNull)
  /\ fst (setupSVGInteraction
            (snd (constructor (Sample.embedding (@DocNull B64.float)))))
     = Done tt
  /\ console
       (snd (setupSVGInteraction
               (snd (constructor (Sample.embedding
                                    (@DocNull B64.float))))))
     = console (snd (constructor (Sample.embedding
                                    (@DocNull B64.float)))).
Proof. repeat split; vm_compute; reflexivity. Qed.

(* ================================================================= *)
(** * Properties of the rest of the code *)

(** ** Events of the map viewer *)

Section EventFacts.
Context {num : Type} {A : Arith num}.

(** An event runs a method: a call of the six, or the set-up. *)
Lemma listener_body_cases (ev : DomEvent) (w : World num) :
  (exists c : Call, listener_body ev w = call c w)
  \/ listener_body ev w = setupSVGInteraction w.
Proof.
  destruct ev as [| | | |e|e| | |t|t| |d]; cbn [listener_body];
    try (right; reflexivity).
  - left. exists call_zoomIn. reflexivity.
  - left. exists call_zoomOut. reflexivity.
  - left. exists call_resetZoom. reflexivity.
  - left. exists (call_startPan e). reflexivity.
  - left. exists (call_pan e). reflexivity.
  - left. exists call_endPan. reflexivity.
  - left. exists call_endPan. reflexivity.
  - left. exists (call_startPan t). reflexivity.
  - left. exists (call_pan t). reflexivity.
  - left. exists call_endPan. reflexivity.
  - left. destruct (nlt d lit_0);
      [exists call_zoomIn | exists call_zoomOut]; reflexivity.
Qed.

(** What every call and the set-up preserve, every event sequence
    preserves. *)
Lemma dispatch_invariant (P : World num -> Prop) :
  (forall c w, P w -> P (snd (call c w))) ->
  (forall w, P w -> P (snd (setupSVGInteraction w))) ->
  forall ev w, P w -> P (dispatch ev w).
Proof.
  intros Hc Hs ev w. unfold dispatch.
  generalize (filter (listening ev) (listeners w)).
  intros ls. revert w. induction ls as [|l ls IH]; intros w Hw; cbn.
  - exact Hw.
  - apply IH.
    destruct (listener_body_cases ev w) as [[c ->] | ->]; auto.
Qed.

Lemma dispatch_all_invariant (P : World num -> Prop) :
  (forall c w, P w -> P (snd (call c w))) ->
  (forall w, P w -> P (snd (setupSVGInteraction w))) ->
  forall evs w, P w -> P (dispatch_all evs w).
Proof.
  intros Hc Hs evs. unfold dispatch_all.
  induction evs as [|ev evs IH]; intros w Hw; cbn; [exact Hw|].
  apply IH, dispatch_invariant; assumption.
Qed.

(** The set-up changes the embedded document's nodes, the listeners and
    the console, nothing else. *)
Lemma setupSVGInteraction_frame (w : World num) :
  pan_zoom_state (this (snd (setupSVGInteraction w)))
  = pan_zoom_state (this w)
  /\ mapWrapper (this (snd (setupSVGInteraction w))) = mapWrapper (this w)
  /\ tooltip (this (snd (setupSVGInteraction w))) = tooltip (this w)
  /\ option_map (@style_transform num)
       (mapObject (this (snd (setupSVGInteraction w))))
     = option_map (@style_transform num) (mapObject (this w)).
Proof.
  cbv beta iota delta
    [setupSVGInteraction try_catch bind getThis deref ret throw setThis
     modify console_log].
  destruct (mapObject (this w)) as [o|] eqn:Eo;
    [|cbn; rewrite Eo; repeat split; reflexivity].
  destruct (contentDocument o) as [|e|nodes];
    [cbn; rewrite Eo; repeat split; reflexivity ..|].
  destruct (forEach_station_effect nodes O w) as (nodes' & ls & E).
  rewrite E. cbn. repeat split; reflexivity.
Qed.

Lemma call_keeps_synced (t0 : option (Transform num)) (c : Call)
      (w : World num) :
  transform_synced t0 w -> transform_synced t0 (snd (call c w)).
Proof.
  unfold transform_synced, shows_state, transform_of. intros H.
  destruct w as [[wr mo tip zi zo rz fs s lo hi p sx sy tx ty] ls cs al].
  cbn [this mapObject scale translateX translateY] in H.
  destruct mo as [o|];
    destruct c as [| | |e|e|]; js_unfold;
    repeat match goal with
    | |- context [nlt ?a ?b] => destruct (nlt a b); cbn
    | |- context [negb ?p] => is_var p; destruct p; cbn
    | |- context [if ?p then _ else _] => is_var p; destruct p; cbn
    | |- context [match ?x with Some _ => _ | None => _ end] =>
        is_var x; destruct x; cbn
    end; trivial;
    intros V; unfold assign_style_transform; rewrite V; left; reflexivity.
Qed.

Lemma setup_keeps_synced (t0 : option (Transform num)) (w : World num) :
  transform_synced t0 w -> transform_synced t0 (snd (setupSVGInteraction w)).
Proof.
  unfold transform_synced, shows_state, transform_of.
  destruct (setupSVGInteraction_frame w) as (Hp & _ & _ & Ht).
  unfold pan_zoom_state in Hp. injection Hp as Hs Hx Hy _ _ _ _ _.
  rewrite Hs, Hx, Hy.
  destruct (mapObject (this (snd (setupSVGInteraction w)))) as [o'|];
    destruct (mapObject (this w)) as [o|]; cbn in Ht; try discriminate;
    trivial.
  injection Ht as ->. trivial.
Qed.

Lemma events_keep_synced (d : Document num) (evs : list DomEvent) :
  transform_synced (original_transform d)
    (dispatch_all evs (snd (constructor d))).
Proof.
  apply dispatch_all_invariant.
  - intros c w. apply call_keeps_synced.
  - intros w. apply setup_keeps_synced.
  - unfold transform_synced, shows_state, original_transform.
    rewrite constructor_this. cbn. intros _.
    destruct (mrt_map_svg d); [right; repeat split; reflexivity | exact I].
Qed.

End EventFacts.

(** ** Wiring *)

Section WiringFacts.
Context {num : Type} {A : Arith num}.

Lemma constructor_wires (d : Document num) :
  present (map_wrapper d) = true ->
  present (mrt_map_svg d) = true ->
  listeners (snd (constructor d)) = wired_listeners d.
Proof.
  unfold constructor, init, wired_listeners. js_unfold.
  destruct (map_wrapper d); [|discriminate].
  destruct (mrt_map_svg d); [|discriminate]. intros _ _. cbn.
  destruct (zoom_in d), (zoom_out d), (reset_zoom d), (fullscreen d);
    reflexivity.
Qed.

Lemma constructor_inert (d : Document num) :
  map_wrapper d = None \/ mrt_map_svg d = None ->
  listeners (snd (constructor d)) = [].
Proof.
  unfold constructor, init. js_unfold.
  intros [-> | ->]; [|destruct (map_wrapper d)]; reflexivity.
Qed.

(** The listeners of a wired page that an event reaches: one. *)
Lemma wired_listeners_reached (d : Document num) (ev : DomEvent) :
  control_present d ev = true ->
  exists l, filter (listening ev) (wired_listeners d) = [l].
Proof.
  unfold wired_listeners.
  destruct ev; cbn [control_present]; intros H;
    destruct (zoom_in d), (zoom_out d), (reset_zoom d), (fullscreen d);
    try discriminate; cbn; eexists; reflexivity.
Qed.

Lemma station_listeners_unreached (ev : @DomEvent num) (ls : list Listener) :
  Forall on_station ls -> filter (listening ev) ls = [].
Proof.
  induction 1 as [|l ls [i Hl] _ IH]; [reflexivity|].
  cbn. rewrite IH. unfold listening. rewrite Hl.
  destruct ev; reflexivity.
Qed.

Lemma call_listeners (c : Call) (w : World num) :
  listeners (snd (call c w)) = listeners w.
Proof.
  destruct c as [| | |e|e|]; js_unfold;
    repeat match goal with
    | |- context [nlt ?a ?b] => destruct (nlt a b); cbn
    | |- context [isPanning ?v] => destruct (isPanning v); cbn
    | |- context [mapWrapper ?v] => destruct (mapWrapper v); cbn
    | |- context [mapObject ?v] => destruct (mapObject v); cbn
    end; reflexivity.
Qed.

(** The loop of the set-up, as a function. *)
Lemma forEach_station_spec (nodes : list (Station num)) :
  forall (i : nat) (w : World num),
    forEach_station i nodes w
    = (Done (map styled nodes),
       mkWorld (this w) (listeners w ++ setup_listeners i nodes)
         (console w) (alerts w)).
Proof.
  induction nodes as [|n rest IH]; intros i w; cbn [forEach_station].
  - cbn. rewrite app_nil_r. destruct w; reflexivity.
  - unfold styled at 1. cbn [map setup_listeners].
    destruct (is_station n);
      cbv beta iota delta
        [make_interactive bind addEventListener modify ret push_listener];
      cbn [this listeners console alerts fst snd]; rewrite IH;
      cbn [this listeners console alerts fst snd];
      rewrite <- ?app_assoc; reflexivity.
Qed.

Lemma setup_listeners_on_station (nodes : list (Station num)) :
  forall i, Forall on_station (setup_listeners i nodes).
Proof.
  induction nodes as [|n rest IH]; intros i; cbn; [constructor|].
  apply Forall_app. split; [|apply IH].
  destruct (is_station n); [|constructor].
  repeat constructor; exists i; reflexivity.
Qed.


Lemma setupSVGInteraction_listeners (w : World num) :
  exists ls,
    listeners (snd (setupSVGInteraction w)) = listeners w ++ ls
    /\ Forall on_station ls.
Proof.
  cbv beta iota delta
    [setupSVGInteraction try_catch bind getThis deref ret throw setThis
     modify console_log].
  destruct (mapObject (this w)) as [o|];
    [|exists []; cbn; rewrite app_nil_r; split; [reflexivity|constructor]].
  destruct (contentDocument o) as [|e|nodes];
    [exists []; cbn; rewrite app_nil_r; split; [reflexivity|constructor] ..|].
  rewrite forEach_station_spec. cbn.
  eexists; split; [reflexivity|apply setup_listeners_on_station].
Qed.

Lemma dispatch_all_keeps_wiring (w0 : World num) (evs : list DomEvent) :
  wiring_kept w0 (dispatch_all evs w0).
Proof.
  apply dispatch_all_invariant.
  - intros c w H. unfold wiring_kept. rewrite call_listeners. exact H.
  - intros w (ls & E & F).
    destruct (setupSVGInteraction_listeners w) as (ls' & E' & F').
    exists (ls ++ ls'). rewrite E', E, app_assoc.
    split; [reflexivity|]. apply Forall_app; split; assumption.
  - exists []. rewrite app_nil_r. split; [reflexivity|constructor].
Qed.

Lemma dispatch_wired (d : Document num) (evs : list DomEvent)
      (ev : DomEvent) :
  present (map_wrapper d) = true ->
  present (mrt_map_svg d) = true ->
  control_present d ev = true ->
  dispatch ev (dispatch_all evs (snd (constructor d)))
  = snd (listener_body ev (dispatch_all evs (snd (constructor d)))).
Proof.
  intros Hw Ho Hc. unfold dispatch.
  destruct (dispatch_all_keeps_wiring (snd (constructor d)) evs)
    as (ls & -> & F).
  rewrite filter_app, (station_listeners_unreached ev F), app_nil_r.
  rewrite (constructor_wires d Hw Ho).
  destruct (wired_listeners_reached d ev Hc) as [l ->]. reflexivity.
Qed.

End WiringFacts.

(** X2.  On a page without the container or without the graphic, no
    event has any effect: whatever is delivered, the viewer, the
    listeners, the console and the notifications stay as the constructor
    left them. *)
Theorem events_without_map_do_nothing :
  forall (num : Type) (A : Arith num) (d : Document num)
         (evs : list DomEvent),
    map_wrapper d = None \/ mrt_map_svg d = None ->
    dispatch_all evs (snd (constructor d)) = snd (constructor d).
Proof.
  intros num A d evs H. pose proof (constructor_inert d H) as E.
  revert E. generalize (snd (constructor d)). intros w E.
  unfold dispatch_all. induction evs as [|ev evs IH]; [reflexivity|].
  cbn [fold_left]. unfold dispatch at 2. rewrite E. cbn. exact IH.
Qed.

Lemma events_without_map_do_nothing_witness :
  dispatch_all
    [ev_wheel (B64.of_Z (-3)); ev_mousedown (Sample.at_ B64.d1 B64.d3);
     ev_load]
    (snd (constructor (@Sample.without_wrapper B64.float)))
  = snd (constructor (@Sample.without_wrapper B64.float)).
Proof.
  exact (events_without_map_do_nothing binary64 Sample.without_wrapper
           [ev_wheel (B64.of_Z (-3)); ev_mousedown (Sample.at_ B64.d1 B64.d3);
            ev_load]
           (or_introl eq_refl)).
Defined.

(** X3.  On a page with the container and the graphic, at any time (after
    any events, also after the graphic has loaded any number of times) an
    event delivered to a control the page has runs its handler exactly
    once: the listeners of [init] are never duplicated, removed or
    shadowed by those of the set-up. *)
Theorem event_runs_its_handler_once :
  forall (num : Type) (A : Arith num) (d : Document num)
         (evs : list DomEvent) (ev : DomEvent),
    present (map_wrapper d) = true ->
    present (mrt_map_svg d) = true ->
    control_present d ev = true ->
    dispatch ev (dispatch_all evs (snd (constructor d)))
    = snd (listener_body ev (dispatch_all evs (snd (constructor d)))).
Proof.
  intros num A d evs ev Hw Ho Hc. unfold dispatch.
  destruct (dispatch_all_keeps_wiring (snd (constructor d)) evs)
    as (ls & -> & F).
  rewrite filter_app, (station_listeners_unreached ev F), app_nil_r.
  rewrite (constructor_wires d Hw Ho).
  destruct (wired_listeners_reached d ev Hc) as [l ->]. reflexivity.
Qed.

Lemma event_runs_its_handler_once_witness :
  dispatch ev_click_zoomIn
    (dispatch_all [ev_load; ev_wheel (B64.of_Z (-3)); ev_load]
       (snd (constructor (Sample.document (B64.of_Z 5)))))
  = snd (listener_body ev_click_zoomIn
           (dispatch_all [ev_load; ev_wheel (B64.of_Z (-3)); ev_load]
              (snd (constructor (Sample.document (B64.of_Z 5)))))).
Proof.
  exact (event_runs_its_handler_once binary64
           (Sample.document (B64.of_Z 5))
           [ev_load; ev_wheel (B64.of_Z (-3)); ev_load] ev_click_zoomIn
           eq_refl eq_refl eq_refl).
Defined.

Lemma setup_keeps_reachable (w : World B64.float) :
  reachable_state w -> reachable_state (snd (setupSVGInteraction w)).
Proof.
  unfold reachable_state, default_bounds.
  destruct (setupSVGInteraction_completes w) as (_ & Hp).
  unfold pan_zoom_state in Hp. injection Hp as Hs _ _ _ _ _ Hlo Hhi.
  rewrite Hs, Hlo, Hhi. trivial.
Qed.

Lemma setup_keeps_bounded (w : World Q) :
  bounded_state w -> bounded_state (snd (setupSVGInteraction w)).
Proof.
  unfold bounded_state, default_bounds, scale_in_bounds.
  destruct (setupSVGInteraction_completes w) as (_ & Hp).
  unfold pan_zoom_state in Hp. injection Hp as Hs _ _ _ _ _ Hlo Hhi.
  rewrite Hs, Hlo, Hhi. trivial.
Qed.

Lemma events_keep_reachable (d : Document B64.float)
      (evs : list DomEvent) :
  reachable_state (dispatch_all evs (snd (constructor d))).
Proof.
  apply dispatch_all_invariant.
  - intros c w0. apply reachable_state_call.
  - intros w0. apply setup_keeps_reachable.
  - apply reachable_state_initial.
Qed.

Lemma reachable_scales_finite :
  forallb B64.is_finite reachable_scales = true.
Proof. vm_compute. reflexivity. Qed.

(** X1.  On any page and after any sequence of events, whenever CSS
    accepts the transform of the current offsets and scale, the transform
    of the graphic is that one, unless the state is still the initial one
    and the transform still the page's own.  In exact arithmetic this is
    always so; in binary64 it is so whenever both offsets are finite (the
    scale always is), and an offset that is not finite leaves the graphic
    with the last transform that was accepted. *)
Theorem transform_follows_state :
  (forall (num : Type) (A : Arith num) (d : Document num)
          (evs : list DomEvent),
      transform_synced (original_transform d)
        (dispatch_all evs (snd (constructor d))))
  /\ (forall (d : Document Q) (evs : list DomEvent),
        shows_state (original_transform d)
          (dispatch_all evs (snd (constructor d))))
  /\ (forall (d : Document B64.float) (evs : list DomEvent),
        let w := dispatch_all evs (snd (constructor d)) in
        B64.is_finite (translateX (this w)) = true ->
        B64.is_finite (translateY (this w)) = true ->
        shows_state (original_transform d) w)
  /\ (let w :=
        dispatch_all
          [ev_wheel (B64.of_Z (-3));
           ev_mousedown
             (mkMouseEvent (S754_finite true 4503599627370496 971) B64.d0);
           ev_mousemove
             (mkMouseEvent (S754_finite false 4503599627370496 971) B64.d0)]
          (Sample.world (B64.of_Z 5)) in
      translateX (this w) = S754_infinity false
      /\ option_map (@style_transform B64.float) (mapObject (this w))
         = Some (Some (mkTransform B64.d0 B64.d0
                         (S754_finite false 5404319552844595 (-52))))).
Proof.
  split; [|split; [|split]].
  - intros num A d evs. apply events_keep_synced.
  - intros d evs. apply (events_keep_synced d evs). reflexivity.
  - intros d evs w Hx Hy. apply (events_keep_synced d evs). fold w.
    unfold valid_transform, transform_of. cbn [tx ty sc isFinite binary64].
    rewrite Hx, Hy. cbn [andb].
    destruct (events_keep_reachable d evs) as [_ Hs]. fold w in Hs.
    pose proof reachable_scales_finite as F. rewrite forallb_forall in F.
    apply F, Hs.
  - vm_compute. split; reflexivity.
Qed.

(** X4.  Whatever events are delivered, in whatever order (wheel events
    with any [deltaY], also NaN or infinite, pointer events at any
    position, loads), the bounds stay 0.5 and 3 and the scale stays
    within them; in binary64 the scale is always one of the 38 doubles
    the zoom steps can reach from 1. *)
Theorem events_keep_scale_within_bounds :
  (forall (d : Document B64.float) (evs : list DomEvent),
      let w := dispatch_all evs (snd (constructor d)) in
      default_bounds (this w) /\ scale_in_bounds (this w)
      /\ In (scale (this w)) reachable_scales)
  /\ (forall (d : Document Q) (evs : list DomEvent),
        let w := dispatch_all evs (snd (constructor d)) in
        default_bounds (this w) /\ scale_in_bounds (this w)).
Proof.
  split; intros d evs w.
  - pose proof (events_keep_reachable d evs) as H. fold w in H.
    destruct (reachable_state_in_bounds H) as [Hb Hs].
    repeat split; try apply Hb; try apply Hs. apply H.
  - apply (@dispatch_all_invariant Q exact bounded_state).
    + intros c w0. apply bounded_state_call.
    + intros w0. apply setup_keeps_bounded.
    + apply bounded_state_initial.
Qed.

(** X5.  A wheel event whose [deltaY] is not negative zooms out: on a
    page with the container and the graphic, at any time, a wheel event
    with [deltaY] zero (of either sign: a purely horizontal scroll) or NaN
    does what [zoomOut] does, and the scale becomes
    [max (scale - 0.2) 0.5] unless it was already at the minimum. *)
Theorem wheel_without_vertical_motion_zooms_out :
  forall (d : Document B64.float) (evs : list DomEvent)
         (deltaY : B64.float),
    present (map_wrapper d) = true ->
    present (mrt_map_svg d) = true ->
    (exists s, deltaY = S754_zero s) \/ deltaY = S754_nan ->
    let w := dispatch_all evs (snd (constructor d)) in
    dispatch (ev_wheel deltaY) w = snd (zoomOut w)
    /\ scale (this (dispatch (ev_wheel deltaY) w))
       = zoomed_out B64.d0_5 (scale (this w)).
Proof.
  intros d evs dy Hw Ho Hd w.
  assert (E : dispatch (ev_wheel dy) w = snd (zoomOut w)).
  { unfold w. rewrite (dispatch_wired d evs (ev_wheel dy) Hw Ho eq_refl).
    cbn [listener_body].
    destruct Hd as [[[|] ->] | ->]; reflexivity. }
  split; [exact E|]. rewrite E.
  destruct (zoomOut_effect w) as (_ & -> & _).
  destruct (events_keep_reachable d evs) as [[Hlo _] _]. fold w in Hlo.
  rewrite Hlo. reflexivity.
Qed.

Lemma wheel_without_vertical_motion_zooms_out_witness :
  dispatch (ev_wheel (S754_zero true))
    (dispatch_all [ev_wheel (B64.of_Z (-3))]
       (snd (constructor (Sample.document (B64.of_Z 5)))))
  = snd (zoomOut
           (dispatch_all [ev_wheel (B64.of_Z (-3))]
              (snd (constructor (Sample.document (B64.of_Z 5))))))
  /\ scale (this (dispatch (ev_wheel (S754_zero true))
       (dispatch_all [ev_wheel (B64.of_Z (-3))]
          (snd (constructor (Sample.document (B64.of_Z 5)))))))
     = zoomed_out B64.d0_5
         (scale (this (dispatch_all [ev_wheel (B64.of_Z (-3))]
            (snd (constructor (Sample.document (B64.of_Z 5))))))).
Proof.
  exact (wheel_without_vertical_motion_zooms_out
           (Sample.document (B64.of_Z 5)) [ev_wheel (B64.of_Z (-3))]
           (deltaY := S754_zero true) eq_refl eq_refl
           (or_introl (ex_intro _ true eq_refl))).
Defined.

(** ** Gestures *)

Section GestureFacts.
Context {num : Type} {A : Arith num}.

Lemma transform_of_forget (w : World num) :
  transform_of (this (forget_transform w)) = transform_of (this w).
Proof. reflexivity. Qed.

(** A move overrides the move before it, up to the transform the move
    before it may have left when it is not itself accepted. *)
Lemma pan_pan_forget (e1 e2 : MouseEvent num) (w : World num) :
  forget_transform (snd (pan e2 (snd (pan e1 w))))
  = forget_transform (snd (pan e2 w)).
Proof.
  destruct w as [[wr mo tip zi zo rz fs s lo hi p sx sy tx ty] ls cs al].
  js_unfold. destruct p; cbn; [|reflexivity].
  destruct mo as [[t c]|]; cbn; [|reflexivity].
  unfold forget_transform, assign_style_transform. cbn.
  repeat match goal with
         | |- context [valid_transform ?t] => destruct (valid_transform t)
         end; reflexivity.
Qed.

Lemma pan_pan_valid (e1 e2 : MouseEvent num) (w : World num) :
  valid_transform (transform_of (this (snd (pan e2 w)))) = true ->
  snd (pan e2 (snd (pan e1 w))) = snd (pan e2 w).
Proof.
  destruct w as [[wr mo tip zi zo rz fs s lo hi p sx sy tx ty] ls cs al].
  unfold transform_of. js_unfold. destruct p; cbn; [|reflexivity].
  destruct mo as [[t c]|]; cbn; [|reflexivity].
  intros V. unfold assign_style_transform. cbn.
  repeat match goal with
         | |- context [valid_transform ?t] => destruct (valid_transform t)
         end; try reflexivity; discriminate.
Qed.

Lemma run_app (cs cs' : list Call) (w : World num) :
  run (cs ++ cs') w = run cs' (run cs w).
Proof. unfold run. apply fold_left_app. Qed.

(** A run of moves does what its last move does. *)
Lemma run_pans_forget (e : MouseEvent num) (moves : list (MouseEvent num)) :
  forall w : World num,
    forget_transform (run (map (@call_pan num) (moves ++ [e])) w)
    = forget_transform (snd (pan e w)).
Proof.
  induction moves as [|e' moves IH]; intros w; [reflexivity|].
  cbn [map app]. change (run (call_pan e' :: ?l) w)
    with (run l (snd (pan e' w))).
  rewrite IH. apply pan_pan_forget.
Qed.

Lemma run_pans_valid (e : MouseEvent num) (moves : list (MouseEvent num)) :
  forall w : World num,
    valid_transform (transform_of (this (snd (pan e w)))) = true ->
    run (map (@call_pan num) (moves ++ [e])) w = snd (pan e w).
Proof.
  induction moves as [|e' moves IH]; intros w V; [reflexivity|].
  cbn [map app]. change (run (call_pan e' :: ?l) w)
    with (run l (snd (pan e' w))).
  rewrite IH.
  - apply pan_pan_valid, V.
  - rewrite <- transform_of_forget, pan_pan_forget, transform_of_forget.
    exact V.
Qed.

Lemma endPan_forget (w : World num) :
  forget_transform (snd (endPan w)) = snd (endPan (forget_transform w)).
Proof.
  destruct w as [[wr mo tip zi zo rz fs s lo hi p sx sy tx ty] ls cs al].
  js_unfold. destruct wr; reflexivity.
Qed.

Lemma endPan_transform (w : World num) :
  transform_of (this (snd (endPan w))) = transform_of (this w).
Proof.
  destruct w as [[wr mo tip zi zo rz fs s lo hi p sx sy tx ty] ls cs al].
  js_unfold. destruct wr; reflexivity.
Qed.

End GestureFacts.

Lemma token_remove_absent (t : string) (l : DOMTokenList) :
  contains t l = false -> token_remove t l = l.
Proof.
  unfold contains, token_remove.
  induction l as [|u l IH]; cbn; [reflexivity|].
  destruct (String.eqb t u); cbn; [discriminate|].
  intros H. rewrite (IH H). reflexivity.
Qed.

Lemma token_remove_token_add (t : string) (l : DOMTokenList) :
  contains t l = false -> token_remove t (token_add t l) = l.
Proof.
  intros H. unfold token_add. rewrite H. unfold token_remove.
  rewrite filter_app. fold (token_remove t l).
  rewrite (token_remove_absent _ _ H). cbn.
  rewrite String.eqb_refl. cbn. apply app_nil_r.
Qed.

Lemma contains_token_add (t : string) (l : DOMTokenList) :
  contains t (token_add t l) = true.
Proof.
  unfold token_add. destruct (contains t l) eqn:E; [exact E|].
  unfold contains. rewrite existsb_app. cbn.
  rewrite String.eqb_refl. apply orb_true_iff. right. reflexivity.
Qed.

Lemma contains_token_remove (t : string) (l : DOMTokenList) :
  contains t (token_remove t l) = false.
Proof.
  unfold contains, token_remove.
  induction l as [|u l IH]; cbn; [reflexivity|].
  destruct (String.eqb t u) eqn:E; cbn; [exact IH|].
  rewrite E. exact IH.
Qed.

(** X6.  A drag ends where its last move puts it.  The world after a
    press, any moves and a release is the world after the press, the last
    move alone and the release in everything but the transform of the
    graphic, and in the transform too when CSS accepts the transform of
    the final state (in exact arithmetic, always); otherwise the graphic
    keeps what an earlier move left.  The offsets are
    [last - (press - offsets at the press)], the scale is unchanged and no
    gesture is active.  In exact arithmetic the offsets have moved by
    [last - press]. *)
Theorem drag_ends_at_last_move :
  (forall (num : Type) (A : Arith num) (w : World num)
          (e0 e : MouseEvent num) (moves : list (MouseEvent num)),
      let w' := run (drag e0 (moves ++ [e])) w in
      forget_transform w' = forget_transform (run (drag e0 [e]) w)
      /\ (valid_transform (transform_of (this w')) = true ->
          w' = run (drag e0 [e]) w)
      /\ translateX (this w')
         = nsub (clientX e) (nsub (clientX e0) (translateX (this w)))
      /\ translateY (this w')
         = nsub (clientY e) (nsub (clientY e0) (translateY (this w)))
      /\ scale (this w') = scale (this w)
      /\ isPanning (this w') = false)
  /\ (forall (w : World Q) (e0 e : MouseEvent Q)
             (moves : list (MouseEvent Q)),
        let w' := run (drag e0 (moves ++ [e])) w in
        w' = run (drag e0 [e]) w
        /\ (translateX (this w')
            == translateX (this w) + (clientX e - clientX e0))%Q
        /\ (translateY (this w')
            == translateY (this w) + (clientY e - clientY e0))%Q).
Proof.
  assert (U : forall (num : Type) (A : Arith num) (w : World num)
                     (e0 e : MouseEvent num) (moves : list (MouseEvent num)),
             run (drag e0 (moves ++ [e])) w
             = snd (endPan (run (map (@call_pan num) (moves ++ [e]))
                              (snd (startPan e0 w))))).
  { intros num A w e0 e moves. unfold drag.
    change (run (call_startPan e0 :: ?l) w)
      with (run l (snd (startPan e0 w))).
    rewrite run_app. reflexivity. }
  assert (G : forall (num : Type) (A : Arith num) (w : World num)
                     (e0 e : MouseEvent num) (moves : list (MouseEvent num)),
             forget_transform (run (drag e0 (moves ++ [e])) w)
             = forget_transform (run (drag e0 [e]) w)).
  { intros num A w e0 e moves. rewrite U, (U _ _ w e0 e []).
    rewrite !endPan_forget, run_pans_forget. reflexivity. }
  assert (V : forall (num : Type) (A : Arith num) (w : World num)
                     (e0 e : MouseEvent num) (moves : list (MouseEvent num)),
             valid_transform
               (transform_of (this (run (drag e0 (moves ++ [e])) w))) = true ->
             run (drag e0 (moves ++ [e])) w = run (drag e0 [e]) w).
  { intros num A w e0 e moves H. rewrite U, (U _ _ w e0 e []).
    rewrite U, endPan_transform in H.
    rewrite <- transform_of_forget, run_pans_forget, transform_of_forget
      in H.
    rewrite (run_pans_valid e moves _ H). reflexivity. }
  assert (F : forall (num : Type) (A : Arith num) (w : World num)
                     (e0 e : MouseEvent num),
             let w' := run (drag e0 [e]) w in
             translateX (this w')
             = nsub (clientX e) (nsub (clientX e0) (translateX (this w)))
             /\ translateY (this w')
                = nsub (clientY e) (nsub (clientY e0) (translateY (this w)))
             /\ scale (this w') = scale (this w)
             /\ isPanning (this w') = false).
  { intros num A w e0 e. unfold drag, run. cbn [map app fold_left].
    destruct w as [[wr mo tip zi zo rz fs s lo hi p sx sy tx ty] ls cs al].
    js_unfold. destruct wr as [[cl rl rt]|]; cbn;
      destruct mo as [[t c]|]; cbn; repeat split; reflexivity. }
  assert (P : forall (num : Type) (A : Arith num) (w1 w2 : World num),
             forget_transform w1 = forget_transform w2 ->
             translateX (this w1) = translateX (this w2)
             /\ translateY (this w1) = translateY (this w2)
             /\ scale (this w1) = scale (this w2)
             /\ isPanning (this w1) = isPanning (this w2)).
  { intros num A w1 w2 H.
    change (translateX (this (forget_transform w1))
            = translateX (this (forget_transform w2))
            /\ translateY (this (forget_transform w1))
               = translateY (this (forget_transform w2))
            /\ scale (this (forget_transform w1))
               = scale (this (forget_transform w2))
            /\ isPanning (this (forget_transform w1))
               = isPanning (this (forget_transform w2))).
    rewrite H. repeat split; reflexivity. }
  split.
  - intros num A w e0 e moves w'. unfold w'.
    split; [apply G|]. split; [apply V|].
    destruct (P _ _ _ _ (G num A w e0 e moves)) as (-> & -> & -> & ->).
    apply F.
  - intros w e0 e moves w'. unfold w'.
    rewrite (V Q exact w e0 e moves) by reflexivity.
    split; [reflexivity|].
    destruct (F Q exact w e0 e) as (-> & -> & _). cbn. split; ring.
Qed.

(** X7.  A press and a release with no move in between leave the map
    alone: scale, offsets, graphic and tooltip are as before and no
    gesture is active; and if the container did not carry the class
    [grabbing], its class list is as before too. *)
Theorem press_and_release_leave_map_alone :
  forall (num : Type) (A : Arith num) (w : World num) (e0 : MouseEvent num),
    let w' := run (drag e0 []) w in
    (scale (this w') = scale (this w)
     /\ translateX (this w') = translateX (this w)
     /\ translateY (this w') = translateY (this w)
     /\ mapObject (this w') = mapObject (this w)
     /\ tooltip (this w') = tooltip (this w)
     /\ isPanning (this w') = false)
    /\ (forall wr : Wrapper num,
          mapWrapper (this w) = Some wr ->
          contains "grabbing" (classList wr) = false ->
          mapWrapper (this w') = Some wr).
Proof.
  intros num A w e0. unfold drag, run. cbn [map app fold_left].
  destruct w as [[wr mo tip zi zo rz fs s lo hi p sx sy tx ty] ls cs al].
  js_unfold. split.
  - destruct wr as [[cl rl rt]|]; cbn; repeat split; reflexivity.
  - intros wr' E H. cbn in E. subst wr. destruct wr' as [cl rl rt].
    cbn in *. unfold set_classList. cbn.
    rewrite (token_remove_token_add _ _ H). reflexivity.
Qed.

Lemma press_and_release_leave_map_alone_witness :
  mapWrapper
    (this (run (drag (Sample.at_ (B64.of_Z 40) (B64.of_Z 30)) [])
             (Sample.world (B64.of_Z 5))))
  = Some (mkWrapper [] B64.d0 B64.d0).
Proof.
  destruct (press_and_release_leave_map_alone binary64
              (Sample.world (B64.of_Z 5))
              (Sample.at_ (B64.of_Z 40) (B64.of_Z 30))) as [_ H].
  exact (H (mkWrapper [] B64.d0 B64.d0) eq_refl eq_refl).
Defined.

(** ** Tooltip *)

(** X8.  With a tooltip element and the container, showing the tooltip
    at a pointer position makes it visible and puts it at
    [(clientX - left, clientY - top - 10)] relative to the container; while
    it is visible a pointer move puts it at the new position and keeps
    its text; once hidden it is not visible, keeps text and position, and
    pointer moves no longer change anything. *)
Theorem tooltip_follows_pointer_while_visible :
  forall (num : Type) (A : Arith num) (w : World num) (t : Tooltip num)
         (wr : Wrapper num) (station : Station num)
         (e e' : MouseEvent num),
    tooltip (this w) = Some t ->
    mapWrapper (this w) = Some wr ->
    let at_pointer (p : MouseEvent num) (x : Tooltip num) :=
      style_left x = Some (nsub (clientX p) (rect_left wr))
      /\ style_top x
         = Some (nsub (nsub (clientY p) (rect_top wr)) lit_10) in
    exists t1 t2 t3,
      tooltip (this (snd (showStationTooltip e station w))) = Some t1
      /\ contains "visible" (tip_classList t1) = true
      /\ at_pointer e t1
      /\ tooltip (this (snd (updateTooltipPosition e'
                               (snd (showStationTooltip e station w)))))
         = Some t2
      /\ at_pointer e' t2
      /\ tip_textContent t2 = tip_textContent t1
      /\ contains "visible" (tip_classList t2) = true
      /\ tooltip (this (snd (hideTooltip
                               (snd (showStationTooltip e station w)))))
         = Some t3
      /\ contains "visible" (tip_classList t3) = false
      /\ at_pointer e t3
      /\ tip_textContent t3 = tip_textContent t1
      /\ updateTooltipPosition e'
           (snd (hideTooltip (snd (showStationTooltip e station w))))
         = (Done tt,
            snd (hideTooltip (snd (showStationTooltip e station w)))).
Proof.
  intros num A w t wr station e e' Ht Hw at_pointer. unfold at_pointer.
  destruct w as [[wr0 mo tip zi zo rz fs s lo hi p sx sy tx ty] ls cs al].
  cbn in Ht, Hw. subst wr0 tip.
  js_unfold.
  pose proof (contains_token_add "visible" (tip_classList t)) as V.
  pose proof (contains_token_remove "visible"
                (token_add "visible" (tip_classList t))) as R.
  rewrite V. cbn. rewrite V. cbn. rewrite R. cbn.
  do 3 eexists. repeat split; cbn; try reflexivity; assumption.
Qed.

Lemma tooltip_follows_pointer_while_visible_witness :
  exists t1 : Tooltip B64.float,
    tooltip (this (snd (showStationTooltip
                          (Sample.at_ (B64.of_Z 40) (B64.of_Z 30))
                          (Sample.raffles_place (B64.of_Z 5))
                          (Sample.world (B64.of_Z 5)))))
    = Some t1
    /\ style_left t1 = Some (B64.of_Z 40)
    /\ style_top t1 = Some (B64.of_Z 20).
Proof.
  assert (Ht : tooltip (this (Sample.world (B64.of_Z 5)))
               = Some (mkTooltip [] [] None None)) by reflexivity.
  assert (Hw : mapWrapper (this (Sample.world (B64.of_Z 5)))
               = Some (mkWrapper [] B64.d0 B64.d0)) by reflexivity.
  destruct (tooltip_follows_pointer_while_visible binary64
              (Sample.world (B64.of_Z 5))
              (Sample.raffles_place (B64.of_Z 5))
              (Sample.at_ (B64.of_Z 40) (B64.of_Z 30))
              (Sample.at_ (B64.of_Z 40) (B64.of_Z 30))
              Ht Hw)
    as (t1 & _ & _ & E & _ & (L & T) & _).
  exists t1. split; [exact E|]. split; [exact L | exact T].
Defined.

(** ** Hovering a node *)

(** X9.  With the container present, entering a circle paints it
    [#B40000]; leaving it afterwards leaves its inline fill empty,
    whatever it was before the pointer came.  A node that is not a circle
    is not changed by entering and leaving it. *)
Theorem hover_round_trip_clears_inline_fill :
  forall (num : Type) (A : Arith num) (w : World num)
         (station : Station num) (e e' : MouseEvent num),
    present (mapWrapper (this w)) = true ->
    if String.eqb (tagName station) "circle"
    then
      style_fill (snd (snd (hover_enter e w station))) = "#B40000"%string
      /\ style_fill (snd (snd (hover_enter_leave e e' w station)))
         = EmptyString
    else snd (snd (hover_enter_leave e e' w station)) = station.
Proof.
  intros num A w station e e' Hw.
  pose proof (showStationTooltip_completes e station w Hw) as C.
  unfold hover_enter_leave, hover_enter, station_mouseenter,
    station_mouseleave.
  cbv beta iota delta [bind getStation on_world setStation modify ret].
  cbn [fst snd].
  destruct (showStationTooltip e station w) as [o w1]. cbn in C. subst o.
  unfold hideTooltip.
  cbv beta iota delta [bind getThis setThis modify ret].
  destruct (String.eqb (tagName station) "circle") eqn:Ht; cbn;
    unfold set_style_fill, set_r, tagName in *; cbn [prefix localName];
    rewrite ?Ht;
    destruct (tooltip (this w1)); cbn; try split; reflexivity.
Qed.

Lemma hover_round_trip_clears_inline_fill_witness :
  style_fill
    (snd (snd (hover_enter (Sample.at_ (B64.of_Z 40) (B64.of_Z 30))
                 (Sample.world (B64.of_Z 5))
                 (Sample.raffles_place (B64.of_Z 5)))))
  = "#B40000"%string
  /\ style_fill
       (snd (snd (hover_enter_leave
                    (Sample.at_ (B64.of_Z 40) (B64.of_Z 30))
                    (Sample.at_ (B64.of_Z 41) (B64.of_Z 30))
                    (Sample.world (B64.of_Z 5))
                    (Sample.raffles_place (B64.of_Z 5)))))
     = EmptyString.
Proof.
  assert (Hw : present (mapWrapper (this (Sample.world (B64.of_Z 5))))
               = true) by reflexivity.
  exact (hover_round_trip_clears_inline_fill binary64
           (Sample.world (B64.of_Z 5)) (Sample.raffles_place (B64.of_Z 5))
           (Sample.at_ (B64.of_Z 40) (B64.of_Z 30))
           (Sample.at_ (B64.of_Z 41) (B64.of_Z 30)) Hw).
Defined.

(** ** Set-up of the nodes *)



(** ** Full screen *)

Lemma contains_cons (t u : string) (l : DOMTokenList) :
  contains t (u :: l) = String.eqb t u || contains t l.
Proof. reflexivity. Qed.

Lemma token_replace_new (token newToken : string) (l : DOMTokenList) :
  contains token l = true ->
  contains newToken (token_replace token newToken l) = true.
Proof.
  intros H. unfold token_replace. rewrite H.
  induction l as [|u l IH]; [discriminate|].
  cbn [set_replace]. rewrite contains_cons in H.
  destruct (String.eqb token u) eqn:E1; cbn [orb].
  - rewrite contains_cons, String.eqb_refl. reflexivity.
  - destruct (String.eqb newToken u) eqn:E2.
    + rewrite contains_cons, String.eqb_refl. reflexivity.
    + rewrite contains_cons, E2. cbn. apply IH, H.
Qed.

Lemma token_replace_old (token newToken : string) (l : DOMTokenList) :
  String.eqb token newToken = false ->
  contains token (token_replace token newToken l) = false.
Proof.
  intros Hn. unfold token_replace.
  destruct (contains token l) eqn:H; [|exact H].
  induction l as [|u l IH]; [discriminate|].
  cbn [set_replace]. rewrite contains_cons in H.
  destruct (String.eqb token u) eqn:E1; cbn [orb].
  - rewrite contains_cons, Hn. cbn. apply contains_token_remove.
  - destruct (String.eqb newToken u) eqn:E2.
    + rewrite contains_cons, Hn. cbn. apply contains_token_remove.
    + rewrite contains_cons, E1. cbn. apply IH, H.
Qed.

(** Unfolds the body of [toggleFullscreen]. *)
Ltac fullscreen_unfold :=
  cbv beta iota delta
    [toggleFullscreen getScreen setScreen on_world getThis setThis
     bind ret throw modify deref];
  cbn.

Section FullscreenFacts.
Context {num : Type} {A : Arith num}.

(** A click while the document is not in full screen. *)
Lemma toggleFullscreen_enter (s : World num * Screen) (wr : Wrapper num) :
  mapWrapper (this (fst s)) = Some wr ->
  fullscreenElement (snd s) = false ->
  mapWrapper (this (fst (snd (toggleFullscreen s))))
  = Some (set_classList (token_add "fullscreen" (classList wr)) wr)
  /\ fullscreenElement (snd (snd (toggleFullscreen s))) = false
  /\ calls (snd (snd (toggleFullscreen s)))
     = calls (snd s) ++ request_call (snd s)
  /\ request_call (snd (snd (toggleFullscreen s))) = request_call (snd s).
Proof.
  destruct s as [[[w mo tip zi zo rz fs sc lo hi p sx sy tx ty] ls cs al]
                   [fe r1 r2 r3 e1 e2 e3 ic cl]].
  cbn. intros -> ->. unfold request_call. fullscreen_unfold.
  destruct r1; [|destruct r2; [|destruct r3]]; cbn;
    destruct fs; cbn; try destruct ic; cbn; rewrite ?app_nil_r;
    repeat split; reflexivity.
Qed.

Lemma clicks_not_fullscreen (n : nat) :
  forall (s : World num * Screen) (wr : Wrapper num),
    mapWrapper (this (fst s)) = Some wr ->
    fullscreenElement (snd s) = false ->
    exists wr',
      mapWrapper (this (fst (clicks (S n) s))) = Some wr'
      /\ contains "fullscreen" (classList wr') = true
      /\ fullscreenElement (snd (clicks (S n) s)) = false
      /\ (request_call (snd s) = [] ->
          calls (snd (clicks (S n) s)) = calls (snd s)).
Proof.
  induction n as [|n IH]; intros s wr Hw Hf;
    destruct (toggleFullscreen_enter s Hw Hf) as (Ew & Ef & Ec & Er).
  - cbn [clicks]. eexists. split; [exact Ew|].
    split; [apply contains_token_add|]. split; [exact Ef|].
    intros H. rewrite Ec, H. apply app_nil_r.
  - change (clicks (S (S n)) s)
      with (clicks (S n) (snd (toggleFullscreen s))).
    destruct (IH _ _ Ew Ef) as (wr' & E & C & F & K).
    exists wr'. split; [exact E|]. split; [exact C|]. split; [exact F|].
    intros H. rewrite K by (rewrite Er; exact H).
    rewrite Ec, H. apply app_nil_r.
Qed.

End FullscreenFacts.

(** X11.  While [document.fullscreenElement] stays unset, no click on
    the full-screen control takes the class [fullscreen] off the
    container: after one click or more the class is on, whether or not the
    click threw.  So when the browser offers no request method (then no
    call is made at all) or refuses the request, the container keeps the
    class for good. *)
Theorem fullscreen_class_stays_while_not_in_full_screen :
  forall (num : Type) (A : Arith num) (s : World num * Screen)
         (wr : Wrapper num) (n : nat),
    mapWrapper (this (fst s)) = Some wr ->
    fullscreenElement (snd s) = false ->
    (exists l,
        wrapper_classes (clicks (S n) s) = Some l
        /\ contains "fullscreen" l = true)
    /\ fullscreenElement (snd (clicks (S n) s)) = false
    /\ (request_call (snd s) = [] ->
        calls (snd (clicks (S n) s)) = calls (snd s)).
Proof.
  intros num A s wr n Hw Hf.
  destruct (clicks_not_fullscreen n s Hw Hf) as (wr' & E & C & F & K).
  split; [|split; assumption].
  exists (classList wr'). unfold wrapper_classes. rewrite E.
  split; [reflexivity | exact C].
Qed.

Lemma fullscreen_class_stays_while_not_in_full_screen_witness :
  exists l,
    wrapper_classes
      (clicks 3
         (Sample.world (B64.of_Z 5),
          mkScreen false false false false false false false
            (Some ["fas"; "fa-expand"]%string) []))
    = Some l
    /\ contains "fullscreen" l = true.
Proof.
  assert (Hw : mapWrapper (this (Sample.world (B64.of_Z 5)))
               = Some (mkWrapper [] B64.d0 B64.d0)) by reflexivity.
  destruct (@fullscreen_class_stays_while_not_in_full_screen
              B64.float binary64
              (Sample.world (B64.of_Z 5),
               mkScreen false false false false false false false
                 (Some ["fas"; "fa-expand"]%string) [])
              (mkWrapper [] B64.d0 B64.d0) 2 Hw eq_refl) as (H & _).
  exact H.
Defined.

Section FullscreenRoundTrip.
Context {num : Type} {A : Arith num}.

Lemma toggleFullscreen_enter_icon (s : World num * Screen)
      (wr : Wrapper num) (b : Button) (ic : DOMTokenList) :
  mapWrapper (this (fst s)) = Some wr ->
  fullscreenBtn (this (fst s)) = Some b ->
  icon (snd s) = Some ic ->
  fullscreenElement (snd s) = false ->
  fst (toggleFullscreen s) = Done tt
  /\ fullscreenBtn (this (fst (snd (toggleFullscreen s)))) = Some b
  /\ icon (snd (snd (toggleFullscreen s)))
     = Some (token_replace "fa-expand" "fa-compress" ic)
  /\ exit_call (snd (snd (toggleFullscreen s))) = exit_call (snd s).
Proof.
  destruct s as [[[w mo tip zi zo rz fs sc lo hi p sx sy tx ty] ls cs al]
                   [fe r1 r2 r3 e1 e2 e3 i cl]].
  cbn. intros -> -> -> ->. unfold exit_call. fullscreen_unfold.
  destruct r1; [|destruct r2; [|destruct r3]]; cbn;
    repeat split; reflexivity.
Qed.

Lemma toggleFullscreen_exit (s : World num * Screen)
      (wr : Wrapper num) (b : Button) (ic : DOMTokenList) :
  mapWrapper (this (fst s)) = Some wr ->
  fullscreenBtn (this (fst s)) = Some b ->
  icon (snd s) = Some ic ->
  fullscreenElement (snd s) = true ->
  fst (toggleFullscreen s) = Done tt
  /\ mapWrapper (this (fst (snd (toggleFullscreen s))))
     = Some (set_classList (token_remove "fullscreen" (classList wr)) wr)
  /\ icon (snd (snd (toggleFullscreen s)))
     = Some (token_replace "fa-compress" "fa-expand" ic)
  /\ calls (snd (snd (toggleFullscreen s)))
     = calls (snd s) ++ exit_call (snd s).
Proof.
  destruct s as [[[w mo tip zi zo rz fs sc lo hi p sx sy tx ty] ls cs al]
                   [fe r1 r2 r3 e1 e2 e3 i cl]].
  cbn. intros -> -> -> ->. unfold exit_call. fullscreen_unfold.
  destruct e1; [|destruct e2; [|destruct e3]]; cbn; rewrite ?app_nil_r;
    repeat split; reflexivity.
Qed.

End FullscreenRoundTrip.

(** X12.  Entering and leaving full screen with the control gives the
    page back: with the container without the class [fullscreen] and the
    icon showing [fa-expand], a click adds the class, asks the browser for
    full screen by the first request method there is, and turns the icon
    to [fa-compress]; once the browser has entered full screen, a second
    click asks it to leave, gives the container its class list back and
    turns the icon to [fa-expand] again.  Both clicks return normally. *)
Theorem fullscreen_toggle_round_trip :
  forall (num : Type) (A : Arith num) (s : World num * Screen)
         (wr : Wrapper num) (b : Button) (ic : DOMTokenList),
    mapWrapper (this (fst s)) = Some wr ->
    fullscreenBtn (this (fst s)) = Some b ->
    icon (snd s) = Some ic ->
    fullscreenElement (snd s) = false ->
    contains "fullscreen" (classList wr) = false ->
    contains "fa-expand" ic = true ->
    let s1 := snd (toggleFullscreen s) in
    let s2 := snd (toggleFullscreen (browser_enters s1)) in
    fst (toggleFullscreen s) = Done tt
    /\ fst (toggleFullscreen (browser_enters s1)) = Done tt
    /\ wrapper_classes s1 = Some (classList wr ++ ["fullscreen"%string])
    /\ (exists i1,
           icon (snd s1) = Some i1
           /\ contains "fa-compress" i1 = true
           /\ contains "fa-expand" i1 = false)
    /\ mapWrapper (this (fst s2)) = Some wr
    /\ (exists i2,
           icon (snd s2) = Some i2
           /\ contains "fa-expand" i2 = true
           /\ contains "fa-compress" i2 = false)
    /\ calls (snd s2)
       = calls (snd s) ++ request_call (snd s) ++ exit_call (snd s).
Proof.
  intros num A s wr b ic Hw Hb Hi Hf Hc He s1 s2.
  destruct (toggleFullscreen_enter s Hw Hf) as (Ew & Ef & Ec & _).
  destruct (toggleFullscreen_enter_icon s Hw Hb Hi Hf)
    as (D1 & Eb & Ei & Ex).
  fold s1 in Ew, Ef, Ec, Eb, Ei, Ex.
  assert (Hw1 : mapWrapper (this (fst (browser_enters s1)))
                = Some (set_classList
                          (token_add "fullscreen" (classList wr)) wr))
    by exact Ew.
  assert (Hb1 : fullscreenBtn (this (fst (browser_enters s1))) = Some b)
    by exact Eb.
  assert (Hi1 : icon (snd (browser_enters s1))
                = Some (token_replace "fa-expand" "fa-compress" ic))
    by exact Ei.
  destruct (toggleFullscreen_exit (browser_enters s1) Hw1 Hb1 Hi1 eq_refl)
    as (D2 & Ew2 & Ei2 & Ec2).
  fold s2 in Ew2, Ei2, Ec2.
  split; [exact D1|]. split; [exact D2|].
  split; [|split; [|split; [|split]]].
  - unfold wrapper_classes. rewrite Ew. cbn. unfold token_add.
    rewrite Hc. reflexivity.
  - eexists. split; [exact Ei|].
    split; [apply token_replace_new, He | apply token_replace_old];
      reflexivity.
  - rewrite Ew2. cbn [classList set_classList].
    rewrite (token_remove_token_add _ _ Hc).
    destruct wr; reflexivity.
  - eexists. split; [exact Ei2|].
    split; [apply token_replace_new, token_replace_new, He
           | apply token_replace_old; reflexivity].
  - rewrite Ec2. cbn [browser_enters snd calls set_fullscreenElement].
    rewrite Ec, <- app_assoc. f_equal. f_equal. exact Ex.
Qed.

Lemma fullscreen_toggle_round_trip_witness :
  mapWrapper
    (this (fst (snd (toggleFullscreen
       (browser_enters
          (snd (toggleFullscreen
                  (Sample.world (B64.of_Z 5),
                   mkScreen false true false false true false false
                     (Some ["fas"; "fa-expand"]%string) []))))))))
  = Some (mkWrapper [] B64.d0 B64.d0).
Proof.
  assert (Hw : mapWrapper (this (Sample.world (B64.of_Z 5)))
               = Some (mkWrapper [] B64.d0 B64.d0)) by reflexivity.
  assert (Hb : fullscreenBtn (this (Sample.world (B64.of_Z 5)))
               = Some ButtonElement) by reflexivity.
  destruct (@fullscreen_toggle_round_trip B64.float binary64
              (Sample.world (B64.of_Z 5),
               mkScreen false true false false true false false
                 (Some ["fas"; "fa-expand"]%string) [])
              (mkWrapper [] B64.d0 B64.d0) ButtonElement
              ["fas"; "fa-expand"]%string Hw Hb eq_refl eq_refl eq_refl
              eq_refl) as (_ & _ & _ & _ & E & _).
  exact E.
Defined.

(** ** Utility functions *)

(** Unfolds the body of a closure. *)
Ltac closure_unfold :=
  cbv beta iota delta
    [Debounce.executedFunction Debounce.later Debounce.call_func
     Debounce.get Debounce.fire Debounce.set_timers Debounce.set_timeout
     Throttle.throttled Throttle.call_func Throttle.get Throttle.fire
     Throttle.set_timers Throttle.set_inThrottle
     bind modify ret setTimeout clearTimeout take handle_is];
  cbn.

Section DebounceFacts.
Variables Args St : Type.
Variable func : Args -> Js St unit.
Variable wait : nat.

(** A call runs nothing: it leaves one timer, its own. *)
Lemma executedFunction_effect (args : Args) (c : Debounce.Closure Args St) :
  Debounce.settled wait c ->
  snd (Debounce.executedFunction wait args c)
  = Debounce.mkClosure (Some (next_handle (Debounce.timers c)))
      (mkTimers [(next_handle (Debounce.timers c), wait, args)]
         (S (next_handle (Debounce.timers c))))
      (Debounce.state c).
Proof.
  destruct c as [t [p n] s]. unfold Debounce.settled. cbn.
  intros [-> | (h & a & -> & ->)]; closure_unfold.
  - destruct t; reflexivity.
  - rewrite Nat.eqb_refl. reflexivity.
Qed.

Lemma fire_effect (h : nat) (c : Debounce.Closure Args St) :
  Debounce.settled wait c ->
  (exists a n,
      Debounce.timers c = mkTimers [(h, wait, a)] n
      /\ Debounce.fire func h c
         = Debounce.mkClosure (Debounce.timeout c) (mkTimers [] n)
             (snd (func a (Debounce.state c))))
  \/ ((forall a, pending (Debounce.timers c) <> [(h, wait, a)])
      /\ Debounce.fire func h c = c).
Proof.
  destruct c as [t [p n] s]. unfold Debounce.settled. cbn.
  intros [-> | (h' & a & -> & ->)].
  - right. split; [intros a; discriminate | reflexivity].
  - destruct (Nat.eqb h' h) eqn:E.
    + apply Nat.eqb_eq in E. subst h'. left. exists a, n.
      split; [reflexivity|]. closure_unfold.
      rewrite Nat.eqb_refl. cbn.
      destruct (func a s) as [[u|e] s']; reflexivity.
    + right. split.
      * intros a' H. injection H as -> _. rewrite Nat.eqb_refl in E.
        discriminate.
      * closure_unfold. rewrite E. reflexivity.
Qed.

Lemma settled_step (c : Debounce.Closure Args St) (ev : TimedEvent Args) :
  Debounce.settled wait c ->
  Debounce.settled wait (Debounce.step func wait c ev).
Proof.
  intros H. destruct ev as [a|h]; cbn [Debounce.step].
  - rewrite (executedFunction_effect a H). right.
    eexists _, _. split; reflexivity.
  - destruct (fire_effect h H) as [(a & n & _ & ->) | [_ ->]];
      [left; reflexivity | exact H].
Qed.

Lemma settled_run (evs : list (TimedEvent Args))
      (c : Debounce.Closure Args St) :
  Debounce.settled wait c ->
  Debounce.settled wait (Debounce.run func wait evs c).
Proof.
  revert c. induction evs as [|ev evs IH]; intros c H; [exact H|].
  apply IH, settled_step, H.
Qed.

Lemma burst_effect (burst : list Args) (a : Args) :
  forall c : Debounce.Closure Args St,
    Debounce.settled wait c ->
    exists h n,
      Debounce.run func wait (map (@Invoke Args) (burst ++ [a])) c
      = Debounce.mkClosure (Some h) (mkTimers [(h, wait, a)] n)
          (Debounce.state c).
Proof.
  induction burst as [|b burst IH]; intros c H; unfold Debounce.run;
    cbn [app map fold_left Debounce.step].
  - rewrite (executedFunction_effect a H). eexists _, _. reflexivity.
  - pose proof (settled_step (Invoke b) H) as H1.
    destruct (IH _ H1) as (h & n & E). unfold Debounce.run in E.
    cbn [Debounce.step] in E. rewrite E.
    rewrite (executedFunction_effect b H). cbn. eexists _, _. reflexivity.
Qed.

End DebounceFacts.

(** X13.  A debounced function never runs [func] when it is called: a
    call only replaces the pending timer by one of its own.  After any
    history, a burst of calls leaves exactly one timer pending; when that
    timer runs, [func] runs once, on the arguments of the last call of
    the burst, and nothing stays pending; no other timer can run. *)
Theorem debounce_runs_once_after_burst :
  forall (Args St : Type) (func : Args -> Js St unit) (wait : nat) (s0 : St)
         (history : list (TimedEvent Args)) (burst : list Args) (a : Args),
    let c := Debounce.run func wait history (Debounce.initial Args s0) in
    let c' := Debounce.run func wait (map (@Invoke Args) (burst ++ [a])) c in
    Debounce.state c' = Debounce.state c
    /\ exists h,
         pending (Debounce.timers c') = [(h, wait, a)]
         /\ Debounce.state (Debounce.fire func h c')
            = snd (func a (Debounce.state c))
         /\ pending (Debounce.timers (Debounce.fire func h c')) = []
         /\ forall h', h' <> h -> Debounce.fire func h' c' = c'.
Proof.
  intros Args St func wait s0 history burst a c c'.
  assert (Hc : Debounce.settled wait c).
  { apply settled_run. left. reflexivity. }
  destruct (burst_effect func burst a Hc) as (h & n & E).
  fold c' in E. rewrite E. cbn. split; [reflexivity|].
  exists h. split; [reflexivity|]. closure_unfold.
  rewrite Nat.eqb_refl. cbn.
  split; [|split].
  - destruct (func a (Debounce.state c)) as [[u|e] s']; reflexivity.
  - destruct (func a (Debounce.state c)) as [[u|e] s']; reflexivity.
  - intros h' Hh. apply Nat.eqb_neq in Hh.
    rewrite Nat.eqb_sym in Hh. rewrite Hh. reflexivity.
Qed.

Section ThrottleFacts.
Variables Args St : Type.
Variable func : Args -> Js St unit.
Variable limit : nat.

Lemma throttled_open (a : Args) (c : Throttle.Closure St) :
  Throttle.open c ->
  Throttle.state (snd (Throttle.throttled func limit a c))
  = snd (func a (Throttle.state c))
  /\ match fst (func a (Throttle.state c)) with
     | Done _ => Throttle.closed limit (snd (Throttle.throttled func limit a c))
     | Thrown _ => Throttle.open (snd (Throttle.throttled func limit a c))
     end.
Proof.
  destruct c as [b [p n] s]. unfold Throttle.open. cbn.
  intros [Hb ->]. closure_unfold. rewrite Hb. cbn.
  destruct (func a s) as [[u|e] s']; cbn.
  - split; [reflexivity|]. split; [reflexivity|]. eexists. reflexivity.
  - split; [reflexivity|]. split; [exact Hb | reflexivity].
Qed.

Lemma throttled_closed (a : Args) (c : Throttle.Closure St) :
  Throttle.closed limit c ->
  Throttle.throttled func limit a c = (Done tt, c).
Proof.
  destruct c as [b [p n] s]. unfold Throttle.closed. cbn.
  intros [-> _]. reflexivity.
Qed.

Lemma throttle_fire_closed (c : Throttle.Closure St) (h : nat) :
  pending (Throttle.timers c) = [(h, limit, tt)] ->
  Throttle.open (Throttle.fire h c)
  /\ Throttle.state (Throttle.fire h c) = Throttle.state c
  /\ forall h', h' <> h -> Throttle.fire h' c = c.
Proof.
  destruct c as [b [p n] s]. cbn. intros ->. closure_unfold.
  rewrite Nat.eqb_refl. cbn. rewrite ?Nat.eqb_refl. cbn.
  split; [split; reflexivity|]. split; [reflexivity|].
  intros h' Hh. apply Nat.eqb_neq in Hh. rewrite Nat.eqb_sym in Hh.
  rewrite Hh. reflexivity.
Qed.

Lemma throttle_fire_open (c : Throttle.Closure St) (h : nat) :
  Throttle.open c -> Throttle.fire h c = c.
Proof.
  destruct c as [b [p n] s]. unfold Throttle.open. cbn.
  intros [_ ->]. reflexivity.
Qed.

Lemma throttle_step (c : Throttle.Closure St) (ev : TimedEvent Args) :
  Throttle.open c \/ Throttle.closed limit c ->
  Throttle.open (Throttle.step func limit c ev)
  \/ Throttle.closed limit (Throttle.step func limit c ev).
Proof.
  intros [H|H]; destruct ev as [a|h]; cbn [Throttle.step].
  - destruct (throttled_open a H) as [_ T].
    destruct (fst (func a (Throttle.state c))); [right|left]; exact T.
  - rewrite (throttle_fire_open h H). left. exact H.
  - rewrite (throttled_closed a H). right. exact H.
  - destruct H as [Hb [h0 Hp]].
    destruct (Nat.eq_dec h h0) as [->|Hn].
    + left. apply (throttle_fire_closed c Hp).
    + destruct (throttle_fire_closed c Hp) as (_ & _ & F).
      rewrite (F h Hn). right. split; [exact Hb|]. exists h0. exact Hp.
Qed.

Lemma throttle_run (evs : list (TimedEvent Args)) (c : Throttle.Closure St) :
  Throttle.open c \/ Throttle.closed limit c ->
  Throttle.open (Throttle.run func limit evs c)
  \/ Throttle.closed limit (Throttle.run func limit evs c).
Proof.
  revert c. induction evs as [|ev evs IH]; intros c H; [exact H|].
  apply IH, throttle_step, H.
Qed.

Lemma throttle_burst_closed (burst : list Args) (c : Throttle.Closure St) :
  Throttle.closed limit c ->
  Throttle.run func limit (map (@Invoke Args) burst) c = c.
Proof.
  intros H. unfold Throttle.run.
  induction burst as [|b burst IH]; [reflexivity|].
  cbn [map fold_left Throttle.step]. rewrite (throttled_closed b H).
  exact IH.
Qed.

End ThrottleFacts.

(** X14.  After any history a throttled function is either open (no
    timer pending) or closed (exactly one timer pending).  When open, a
    call runs [func] at once; if [func] returns, the function closes, all
    further calls do nothing at all (their arguments are lost, also those
    of the last one) until the timer runs, and the timer only reopens it,
    without running [func]; if [func] throws, the function stays open. *)
Theorem throttle_runs_first_call_and_drops_rest :
  forall (Args St : Type) (func : Args -> Js St unit) (limit : nat)
         (s0 : St) (history : list (TimedEvent Args)),
    let c := Throttle.run func limit history (Throttle.initial s0) in
    (Throttle.open c \/ Throttle.closed limit c)
    /\ (Throttle.open c ->
        forall (a : Args) (burst : list Args),
          let c1 := snd (Throttle.throttled func limit a c) in
          Throttle.state c1 = snd (func a (Throttle.state c))
          /\ match fst (func a (Throttle.state c)) with
             | Done _ =>
                 Throttle.run func limit (map (@Invoke Args) burst) c1 = c1
                 /\ exists h,
                      pending (Throttle.timers c1) = [(h, limit, tt)]
                      /\ Throttle.open (Throttle.fire h c1)
                      /\ Throttle.state (Throttle.fire h c1)
                         = Throttle.state c1
             | Thrown _ => Throttle.open c1
             end)
    /\ (Throttle.closed limit c ->
        forall a : Args, Throttle.throttled func limit a c = (Done tt, c)).
Proof.
  intros Args St func limit s0 history c.
  split; [|split].
  - apply throttle_run. left. split; reflexivity.
  - intros H a burst c1. destruct (throttled_open func limit a H) as [E T].
    fold c1 in E, T. split; [exact E|].
    destruct (fst (func a (Throttle.state c))); [|exact T].
    split; [apply throttle_burst_closed, T|].
    destruct T as [_ [h Hp]]. exists h. split; [exact Hp|].
    destruct (throttle_fire_closed c1 Hp) as (O & E' & _).
    split; assumption.
  - intros H a. apply throttled_closed, H.
Qed.

Lemma throttle_runs_first_call_and_drops_rest_witness :
  Throttle.state
    (Throttle.run (fun a : nat => modify (cons a)) 100%nat
       (map (@Invoke nat) [2; 3]%nat)
       (snd (Throttle.throttled (fun a : nat => modify (cons a)) 100%nat 1%nat
               (Throttle.initial []))))
  = [1%nat].
Proof.
  destruct (throttle_runs_first_call_and_drops_rest
              (fun a : nat => modify (cons a)) 100%nat [] [])
    as (_ & H & _).
  destruct (H (conj eq_refl eq_refl) 1%nat [2; 3]%nat) as (E & R & _).
  exact (eq_trans (f_equal (@Throttle.state (list nat)) R) E).
Defined.

(** ** Scroll handlers *)

Lemma last_cons (X : Type) (l : list X) :
  forall a d : X, last (a :: l) d = last l a.
Proof.
  induction l as [|b l IH]; intros a d; [reflexivity|].
  change (last (a :: b :: l) d) with (last (b :: l) d).
  rewrite (IH b d), (IH b a). reflexivity.
Qed.

Section ScrollFacts.
Variable func : unit -> Js Scrolling.Page unit.

(** While the handler is closed, scrolling only moves the window. *)
Lemma scrolls_closed (ys : list B64.float) :
  forall (y : B64.float) (c : Throttle.Closure Scrolling.Page),
    Throttle.inThrottle c = Some true ->
    Scrolling.scrolls func ys (Scrolling.at_position y c)
    = Scrolling.at_position (last ys y) c.
Proof.
  induction ys as [|y' ys IH]; intros y c H; [reflexivity|].
  unfold Scrolling.scrolls. cbn [fold_left].
  change (fold_left _ ys ?x) with (Scrolling.scrolls func ys x).
  assert (E : Scrolling.scroll func y' (Scrolling.at_position y c)
              = Scrolling.at_position y' c).
  { unfold Scrolling.scroll, Scrolling.at_position. closure_unfold.
    rewrite H. reflexivity. }
  rewrite E, (IH y' c H), last_cons. reflexivity.
Qed.

End ScrollFacts.

Lemma first_scroll_header (c : Throttle.Closure Scrolling.Page)
      (h : DOMTokenList) (y : B64.float) :
  Throttle.open c ->
  Scrolling.header (Throttle.state c) = Some h ->
  Scrolling.scroll Scrolling.header_handler y c
  = Throttle.mkClosure (Some true)
      (mkTimers [(next_handle (Throttle.timers c), Scrolling.limit, tt)]
         (S (next_handle (Throttle.timers c))))
      (Scrolling.mkPage y
         (Some (if B64.ltb (B64.of_Z 50) y
                then token_add "scrolled" h
                else token_remove "scrolled" h))
         (Scrolling.button (Throttle.state c))).
Proof.
  destruct c as [b [p n] [sy hd bt]]. unfold Throttle.open. cbn.
  intros [Hb ->] ->.
  unfold Scrolling.scroll, Scrolling.at_position,
    Scrolling.header_handler, Scrolling.get.
  closure_unfold. rewrite Hb. cbn.
  destruct (B64.ltb _ y); reflexivity.
Qed.

Lemma first_scroll_button (c : Throttle.Closure Scrolling.Page)
      (b : DOMTokenList) (y : B64.float) :
  Throttle.open c ->
  Scrolling.button (Throttle.state c) = Some b ->
  Scrolling.scroll Scrolling.button_handler y c
  = Throttle.mkClosure (Some true)
      (mkTimers [(next_handle (Throttle.timers c), Scrolling.limit, tt)]
         (S (next_handle (Throttle.timers c))))
      (Scrolling.mkPage y (Scrolling.header (Throttle.state c))
         (Some (if B64.ltb (B64.of_Z 300) y
                then token_add "visible" b
                else token_remove "visible" b))).
Proof.
  destruct c as [t [p n] [sy hd bt]]. unfold Throttle.open. cbn.
  intros [Hb ->] ->.
  unfold Scrolling.scroll, Scrolling.at_position,
    Scrolling.button_handler, Scrolling.get.
  closure_unfold. rewrite Hb. cbn.
  destruct (B64.ltb _ y); reflexivity.
Qed.

(** X15.  The header and the back-to-top button follow the first scroll
    event of each window of the throttle, not the last: when the handler
    is open and the window scrolls to [y] and then, before the timer
    runs, to any further positions, the class [scrolled] of the header
    (and [visible] of the button) is the one for [y], whatever the
    position the window ends at; the timer running changes neither. *)
Theorem scroll_handlers_follow_first_scroll_of_window :
  (forall (c : Throttle.Closure Scrolling.Page) (h : DOMTokenList)
          (y : B64.float) (ys : list B64.float),
      Throttle.open c ->
      Scrolling.header (Throttle.state c) = Some h ->
      let c' := Scrolling.scrolls Scrolling.header_handler (y :: ys) c in
      Scrolling.header (Throttle.state c')
      = Some (if B64.ltb (B64.of_Z 50) y
              then token_add "scrolled" h
              else token_remove "scrolled" h)
      /\ Scrolling.scrollY (Throttle.state c') = last ys y
      /\ exists t,
           pending (Throttle.timers c') = [(t, Scrolling.limit, tt)]
           /\ Throttle.state (Throttle.fire t c') = Throttle.state c')
  /\ (forall (c : Throttle.Closure Scrolling.Page) (b : DOMTokenList)
             (y : B64.float) (ys : list B64.float),
        Throttle.open c ->
        Scrolling.button (Throttle.state c) = Some b ->
        let c' := Scrolling.scrolls Scrolling.button_handler (y :: ys) c in
        Scrolling.button (Throttle.state c')
        = Some (if B64.ltb (B64.of_Z 300) y
                then token_add "visible" b
                else token_remove "visible" b)
        /\ Scrolling.scrollY (Throttle.state c') = last ys y
        /\ exists t,
             pending (Throttle.timers c') = [(t, Scrolling.limit, tt)]
             /\ Throttle.state (Throttle.fire t c') = Throttle.state c').
Proof.
  split.
  - intros c h y ys Ho Hh c'. unfold c', Scrolling.scrolls.
    cbn [fold_left].
    change (fold_left _ ys ?x)
      with (Scrolling.scrolls Scrolling.header_handler ys x).
    rewrite (first_scroll_header y Ho Hh).
    match goal with
    | |- context [Scrolling.scrolls _ ys ?x] =>
        change x with (Scrolling.at_position y x);
        rewrite (scrolls_closed Scrolling.header_handler ys y x eq_refl)
    end.
    cbn. split; [reflexivity|]. split; [reflexivity|].
    eexists. split; [reflexivity|].
    closure_unfold. rewrite Nat.eqb_refl. reflexivity.
  - intros c b y ys Ho Hb c'. unfold c', Scrolling.scrolls.
    cbn [fold_left].
    change (fold_left _ ys ?x)
      with (Scrolling.scrolls Scrolling.button_handler ys x).
    rewrite (first_scroll_button y Ho Hb).
    match goal with
    | |- context [Scrolling.scrolls _ ys ?x] =>
        change x with (Scrolling.at_position y x);
        rewrite (scrolls_closed Scrolling.button_handler ys y x eq_refl)
    end.
    cbn. split; [reflexivity|]. split; [reflexivity|].
    eexists. split; [reflexivity|].
    closure_unfold. rewrite Nat.eqb_refl. reflexivity.
Qed.

(** Scrolling from 120 to the top within one window: the header keeps
    [scrolled] at position 0. *)
Lemma scroll_handlers_follow_first_scroll_of_window_witness :
  Scrolling.header
    (Throttle.state
       (Scrolling.scrolls Scrolling.header_handler
          [B64.of_Z 120; B64.of_Z 40; B64.of_Z 0]
          (Throttle.initial (Scrolling.mkPage (B64.of_Z 0) (Some []) None))))
  = Some ["scrolled"%string]
  /\ Scrolling.scrollY
       (Throttle.state
          (Scrolling.scrolls Scrolling.header_handler
             [B64.of_Z 120; B64.of_Z 40; B64.of_Z 0]
             (Throttle.initial
                (Scrolling.mkPage (B64.of_Z 0) (Some []) None))))
     = B64.of_Z 0.
Proof.
  destruct scroll_handlers_follow_first_scroll_of_window as [H _].
  destruct (H (Throttle.initial
                 (Scrolling.mkPage (B64.of_Z 0) (Some []) None))
              [] (B64.of_Z 120) [B64.of_Z 40; B64.of_Z 0]
              (conj eq_refl eq_refl) eq_refl) as (E & Y & _).
  split; [exact E | exact Y].
Defined.

(** ** Search box *)

(** X16.  Typing never searches at once.  After any history, when
    values are typed one after the other and the pending timer then
    runs, exactly one search is logged, for the value typed last; the
    values typed before it are never searched for. *)
Theorem search_runs_once_for_last_value :
  forall (history : list (TimedEvent jsstring)) (values : list jsstring)
         (query : jsstring),
    let c := Search.run history (Debounce.initial jsstring []) in
    let c' := Search.run (Search.typed (values ++ [query])) c in
    Debounce.state c' = Debounce.state c
    /\ exists h,
         pending (Debounce.timers c') = [(h, Search.wait, query)]
         /\ Debounce.state (Debounce.fire Search.performSearch h c')
            = Debounce.state c ++ [query].
Proof.
  intros history values query c c'.
  assert (Hc : Debounce.settled Search.wait c).
  { apply settled_run. left. reflexivity. }
  destruct (burst_effect Search.performSearch values query Hc)
    as (h & n & E).
  unfold c', Search.run, Search.typed. rewrite E. cbn.
  split; [reflexivity|]. exists h. split; [reflexivity|].
  closure_unfold. rewrite Nat.eqb_refl. reflexivity.
Qed.

(** ** External links *)

Section ExternalLinkFacts.
Import ExternalLinksHandler.

Lemma secure_has_icon (a : Anchor) : has_icon (secure a) = true.
Proof.
  unfold secure.
  assert (H : has_icon (if negb (has_icon a) then appendChild icon a else a)
              = true).
  { destruct (has_icon a) eqn:E; cbn; [exact E|].
    unfold has_icon, appendChild. cbn [descendants].
    rewrite existsb_app. apply orb_true_iff. right. reflexivity. }
  revert H. generalize (if negb (has_icon a) then appendChild icon a else a).
  intros b H. cbv zeta.
  destruct (negb (present (rel b))); destruct (negb (present (target _)));
    exact H.
Qed.

Lemma secure_attributes (a : Anchor) :
  href (secure a) = href a
  /\ rel (secure a)
     = Some (match rel a with
             | Some v => v
             | None => lit "noopener noreferrer"
             end)
  /\ target (secure a)
     = Some (match target a with Some v => v | None => lit "_blank" end)
  /\ descendants (secure a)
     = descendants a ++ (if has_icon a then [] else [icon]).
Proof.
  destruct a as [h d r t]. unfold secure.
  destruct (has_icon (mkAnchor h d r t)) eqn:E; cbn [negb];
    destruct r, t; cbn; rewrite ?app_nil_r; repeat split; reflexivity.
Qed.

Lemma secure_fixed (a : Anchor) :
  has_icon a = true -> present (rel a) = true ->
  present (target a) = true -> secure a = a.
Proof.
  destruct a as [h d r t]. unfold secure. cbn [rel target].
  intros -> Hr Ht. cbn. rewrite Hr. cbn. rewrite Ht. reflexivity.
Qed.

Lemma secure_secure (a : Anchor) : secure (secure a) = secure a.
Proof.
  destruct (secure_attributes a) as (_ & Hr & Ht & _).
  apply secure_fixed; [apply secure_has_icon | rewrite Hr | rewrite Ht];
    reflexivity.
Qed.

Lemma secure_external (a : Anchor) :
  is_external (secure a) = is_external a.
Proof.
  unfold is_external. destruct (secure_attributes a) as (-> & _).
  reflexivity.
Qed.

End ExternalLinkFacts.

(** X17.  Running the external-link handler again changes nothing: no
    second icon is added and no attribute is changed. *)
Theorem external_links_init_idempotent :
  forall anchors : list ExternalLinksHandler.Anchor,
    ExternalLinksHandler.init (ExternalLinksHandler.init anchors)
    = ExternalLinksHandler.init anchors.
Proof.
  intros anchors. unfold ExternalLinksHandler.init. rewrite map_map.
  apply map_ext. intros a.
  destruct (ExternalLinksHandler.is_external a) eqn:E.
  - rewrite secure_external, E. apply secure_secure.
  - rewrite E. reflexivity.
Qed.

(** X18.  After the handler, the links are the same in number and
    order, with the same [href].  A link whose [href] does not start with
    [http] is untouched.  A link whose [href] does has an icon (one was
    appended at the end only if it had none), a [rel] and a [target]; a
    [rel] or [target] it already had is kept as it was, so a link with its
    own [rel] gets [target="_blank"] without [noopener]. *)
Theorem external_links_get_icon_rel_and_target :
  forall anchors : list ExternalLinksHandler.Anchor,
    List.length (ExternalLinksHandler.init anchors) = List.length anchors
    /\ forall (i : nat) (a : ExternalLinksHandler.Anchor),
         nth_error anchors i = Some a ->
         exists a',
           nth_error (ExternalLinksHandler.init anchors) i = Some a'
           /\ ExternalLinksHandler.href a' = ExternalLinksHandler.href a
           /\ if ExternalLinksHandler.is_external a
              then
                ExternalLinksHandler.has_icon a' = true
                /\ ExternalLinksHandler.descendants a'
                   = ExternalLinksHandler.descendants a
                     ++ (if ExternalLinksHandler.has_icon a
                         then [] else [ExternalLinksHandler.icon])
                /\ ExternalLinksHandler.rel a'
                   = Some (match ExternalLinksHandler.rel a with
                           | Some v => v
                           | None => lit "noopener noreferrer"
                           end)
                /\ ExternalLinksHandler.target a'
                   = Some (match ExternalLinksHandler.target a with
                           | Some v => v
                           | None => lit "_blank"
                           end)
              else a' = a.
Proof.
  intros anchors. unfold ExternalLinksHandler.init.
  split; [apply length_map|].
  intros i a H. rewrite nth_error_map, H. cbn [option_map].
  eexists. split; [reflexivity|].
  destruct (ExternalLinksHandler.is_external a).
  - destruct (secure_attributes a) as (Hh & Hr & Ht & Hd).
    split; [exact Hh|]. split; [apply secure_has_icon|].
    split; [exact Hd|]. split; [exact Hr | exact Ht].
  - split; reflexivity.
Qed.

Lemma external_links_get_icon_rel_and_target_witness :
  exists a',
    nth_error
      (ExternalLinksHandler.init
         [ExternalLinksHandler.mkAnchor (Some (lit "https://www.smrt.com.sg"))
            [] (Some (lit "nofollow")) None]) 0
    = Some a'
    /\ ExternalLinksHandler.rel a' = Some (lit "nofollow")
    /\ ExternalLinksHandler.target a' = Some (lit "_blank").
Proof.
  destruct (external_links_get_icon_rel_and_target
              [ExternalLinksHandler.mkAnchor
                 (Some (lit "https://www.smrt.com.sg"))
                 [] (Some (lit "nofollow")) None]) as [_ H].
  destruct (H 0%nat _ eq_refl) as (a' & E & _ & _ & _ & R & T).
  exists a'. split; [exact E|]. split; [exact R | exact T].
Defined.

(** ** Navigation menu *)

Section NavigationFacts.
Import Navigation.

Lemma contains_token_toggle (t : string) (l : DOMTokenList) :
  contains t (token_toggle t l) = negb (contains t l).
Proof.
  unfold token_toggle. destruct (contains t l) eqn:E; cbn.
  - apply contains_token_remove.
  - pose proof (contains_token_add t l) as H. unfold token_add in H.
    rewrite E in H. exact H.
Qed.

Lemma token_toggle_twice (t : string) (l : DOMTokenList) :
  contains t l = false -> token_toggle t (token_toggle t l) = l.
Proof.
  intros E.
  pose proof (contains_token_toggle t l) as C. rewrite E in C. cbn in C.
  unfold token_toggle at 1. rewrite C.
  unfold token_toggle. rewrite E.
  pose proof (token_remove_token_add t l E) as H. unfold token_add in H.
  rewrite E in H. exact H.
Qed.

Lemma toggleMenu_effect (n : Nav) (menu : DOMTokenList)
      (aria : option string) :
  navMenu n = Some menu ->
  navToggle n = Some aria ->
  toggleMenu n
  = (Done tt,
     mkNav (Some (token_toggle "active" menu))
       (Some (Some (String_of_bool
                      (contains "active" (token_toggle "active" menu)))))
       (navLinks n)).
Proof.
  destruct n as [m t ls]. cbn. intros -> ->. reflexivity.
Qed.

Lemma nth_error_update_nth (X : Type) (f : X -> X) (l : list X) :
  forall i j : nat,
    nth_error (update_nth i f l) j
    = if Nat.eqb j i then option_map f (nth_error l j) else nth_error l j.
Proof.
  induction l as [|x l IH]; intros i j.
  - destruct j, i; cbn; try reflexivity; destruct (Nat.eqb _ _); reflexivity.
  - destruct i, j; cbn; try reflexivity. apply IH.
Qed.

Lemma length_update_nth (X : Type) (f : X -> X) (l : list X) :
  forall i : nat, List.length (update_nth i f l) = List.length l.
Proof.
  induction l as [|x l IH]; intros [|i]; cbn; try reflexivity.
  rewrite IH. reflexivity.
Qed.

Lemma setActiveLink_effect (i : nat) (n : Nav) :
  setActiveLink i n
  = (Done tt,
     set_navLinks
       (update_nth i (token_add "active")
          (map (token_remove "active") (navLinks n))) n).
Proof. reflexivity. Qed.

Lemma token_remove_app (t : string) (l l' : DOMTokenList) :
  token_remove t (l ++ l') = token_remove t l ++ token_remove t l'.
Proof. apply filter_app. Qed.

(** The links after [setActiveLink]. *)
Lemma active_links (i : nat) (links : list DOMTokenList) :
  forall (j : nat) (l' : DOMTokenList),
    nth_error
      (update_nth i (token_add "active")
         (map (token_remove "active") links)) j = Some l' ->
    contains "active" l' = Nat.eqb j i
    /\ option_map (token_remove "active") (nth_error links j)
       = Some (token_remove "active" l').
Proof.
  intros j l'. rewrite nth_error_update_nth, nth_error_map.
  destruct (nth_error links j) as [l|]; cbn;
    [|destruct (Nat.eqb j i); discriminate].
  destruct (Nat.eqb j i); cbn; intros H; injection H as <-.
  - split; [apply contains_token_add|].
    unfold token_add. rewrite contains_token_remove.
    rewrite token_remove_app, token_remove_idempotent. cbn.
    rewrite app_nil_r. reflexivity.
  - split; [apply contains_token_remove|].
    rewrite token_remove_idempotent. reflexivity.
Qed.

End NavigationFacts.

(** X19.  With the menu and its toggle button on the page,
    [toggleMenu] returns normally, flips the class [active] of the menu
    and leaves [aria-expanded] saying whether the menu now has it;
    toggling twice gives back the menu's state, and its class list when
    [active] was not on it, and leaves the links alone. *)
Theorem toggleMenu_keeps_aria_expanded_in_step :
  forall (n : Navigation.Nav) (menu : DOMTokenList) (aria : option string),
    Navigation.navMenu n = Some menu ->
    Navigation.navToggle n = Some aria ->
    let n1 := snd (Navigation.toggleMenu n) in
    let n2 := snd (Navigation.toggleMenu n1) in
    fst (Navigation.toggleMenu n) = Done tt
    /\ fst (Navigation.toggleMenu n1) = Done tt
    /\ (exists menu1,
           Navigation.navMenu n1 = Some menu1
           /\ contains "active" menu1 = negb (contains "active" menu)
           /\ Navigation.navToggle n1
              = Some (Some (Navigation.String_of_bool
                              (contains "active" menu1))))
    /\ (exists menu2,
           Navigation.navMenu n2 = Some menu2
           /\ contains "active" menu2 = contains "active" menu
           /\ (contains "active" menu = false -> menu2 = menu)
           /\ Navigation.navToggle n2
              = Some (Some (Navigation.String_of_bool
                              (contains "active" menu))))
    /\ Navigation.navLinks n2 = Navigation.navLinks n.
Proof.
  intros n menu aria Hm Ht n1 n2.
  pose proof (toggleMenu_effect n Hm Ht) as E1.
  assert (E2 := toggleMenu_effect n1
                  (menu := Navigation.token_toggle "active" menu)
                  (aria := Some (Navigation.String_of_bool
                     (contains "active"
                        (Navigation.token_toggle "active" menu))))).
  unfold n2, n1 in *. rewrite E1 in *. cbn [snd fst] in *.
  specialize (E2 eq_refl eq_refl). rewrite E2. cbn [snd fst].
  split; [reflexivity|]. split; [reflexivity|].
  split; [|split].
  - eexists. split; [reflexivity|].
    split; [apply contains_token_toggle | reflexivity].
  - eexists. split; [reflexivity|].
    rewrite !contains_token_toggle, negb_involutive.
    split; [reflexivity|]. split; [apply token_toggle_twice | reflexivity].
  - reflexivity.
Qed.

Lemma toggleMenu_keeps_aria_expanded_in_step_witness :
  exists menu1,
    Navigation.navMenu
      (snd (Navigation.toggleMenu
              (Navigation.mkNav (Some ["nav-menu"%string]) (Some None) [])))
    = Some menu1
    /\ contains "active" menu1 = true
    /\ Navigation.navToggle
         (snd (Navigation.toggleMenu
                 (Navigation.mkNav (Some ["nav-menu"%string]) (Some None)
                    [])))
       = Some (Some "true"%string).
Proof.
  destruct (toggleMenu_keeps_aria_expanded_in_step
              (Navigation.mkNav (Some ["nav-menu"%string]) (Some None) [])
              eq_refl eq_refl)
    as (_ & _ & (menu1 & E & C & T) & _).
  exists menu1. split; [exact E|]. split; [exact C|].
  rewrite T, C. reflexivity.
Defined.

(** X20.  A click on a navigation link, with the menu and its toggle
    button on the page, returns normally and leaves the menu closed and
    exactly the clicked link marked [active], every link keeping its other
    classes.  On a page without the menu element the listener throws a
    TypeError before it marks anything; with an open menu but no toggle
    button it closes the menu and throws before it marks the link. *)
Theorem link_click_marks_only_the_clicked_link :
  forall (n : Navigation.Nav) (i : nat),
    (forall (menu : DOMTokenList) (aria : option string),
        Navigation.navMenu n = Some menu ->
        Navigation.navToggle n = Some aria ->
        let n' := snd (Navigation.link_click i n) in
        fst (Navigation.link_click i n) = Done tt
        /\ (exists menu',
               Navigation.navMenu n' = Some menu'
               /\ contains "active" menu' = false)
        /\ List.length (Navigation.navLinks n')
           = List.length (Navigation.navLinks n)
        /\ forall (j : nat) (l' : DOMTokenList),
             nth_error (Navigation.navLinks n') j = Some l' ->
             contains "active" l' = Nat.eqb j i
             /\ option_map (token_remove "active")
                  (nth_error (Navigation.navLinks n) j)
                = Some (token_remove "active" l'))
    /\ (Navigation.navMenu n = None ->
        Navigation.link_click i n = (Thrown TypeError, n))
    /\ (forall menu : DOMTokenList,
           Navigation.navMenu n = Some menu ->
           contains "active" menu = true ->
           Navigation.navToggle n = None ->
           Navigation.link_click i n
           = (Thrown TypeError,
              Navigation.set_navMenu (token_remove "active" menu) n)).
Proof.
  intros [m t ls] i. split; [|split].
  - intros menu aria Hm Ht n'. cbn in Hm, Ht. subst m t.
    unfold n', Navigation.link_click.
    cbv beta iota delta [bind Navigation.get deref ret]. cbn [Navigation.navMenu].
    destruct (contains "active" menu) eqn:C.
    + rewrite (toggleMenu_effect
                 (Navigation.mkNav (Some menu) (Some aria) ls)
                 eq_refl eq_refl).
      rewrite setActiveLink_effect. cbn.
      split; [reflexivity|]. split.
      * eexists. split; [reflexivity|].
        rewrite contains_token_toggle, C. reflexivity.
      * split; [rewrite length_update_nth; apply length_map|].
        apply active_links.
    + rewrite setActiveLink_effect. cbn.
      split; [reflexivity|]. split.
      * eexists. split; [reflexivity | exact C].
      * split; [rewrite length_update_nth; apply length_map|].
        apply active_links.
  - cbn. intros ->. reflexivity.
  - cbn. intros menu -> C ->.
    unfold Navigation.link_click, Navigation.toggleMenu.
    cbv beta iota delta [bind Navigation.get deref ret throw modify].
    cbn. rewrite C. cbn. unfold Navigation.token_toggle. rewrite C.
    reflexivity.
Qed.

Lemma link_click_marks_only_the_clicked_link_witness :
  fst (Navigation.link_click 1
         (Navigation.mkNav (Some ["nav-menu"; "active"]%string)
            (Some (Some "true"%string))
            [["nav-link"; "active"]%string; ["nav-link"%string]]))
  = Done tt
  /\ Navigation.link_click 1 (Navigation.mkNav None None [])
     = (Thrown TypeError, Navigation.mkNav None None []).
Proof.
  split.
  - destruct (link_click_marks_only_the_clicked_link
                (Navigation.mkNav (Some ["nav-menu"; "active"]%string)
                   (Some (Some "true"%string))
                   [["nav-link"; "active"]%string; ["nav-link"%string]])
                1) as (H & _).
    destruct (H _ _ eq_refl eq_refl) as (E & _). exact E.
  - destruct (link_click_marks_only_the_clicked_link
                (Navigation.mkNav None None []) 1) as (_ & H & _).
    exact (H eq_refl).
Defined.

(** ** The active link follows the scroll position *)

Section ScrollSpyFacts.
Import ScrollSpy.

Lemma mark_mark (a b : jsstring) (link : Link) :
  mark b (mark a link) = mark b link.
Proof.
  unfold mark at 1 3. f_equal.
  assert (E : token_remove "active" (classList (mark a link))
              = token_remove "active" (classList link)).
  { unfold mark. cbn [classList]. destruct (points_to a link).
    - apply token_remove_token_add, contains_token_remove.
    - apply token_remove_idempotent. }
  rewrite E. reflexivity.
Qed.

Lemma mark_active (s : jsstring) (link : Link) :
  contains "active" (classList (mark s link)) = points_to s link.
Proof.
  unfold mark. cbn [classList]. destruct (points_to s link) eqn:E.
  - apply contains_token_add.
  - apply contains_token_remove.
Qed.

Lemma forEach_section_effect (pos : B64.float) (todo : list Section_) :
  forall (p : Page) (links : list Link) (found : option Section_),
    navLinks p = marked_for found links ->
    forEach_section pos todo p
    = (Done tt,
       set_navLinks
         (marked_for
            (fold_left
               (fun found section =>
                  if around pos section then Some section else found)
               todo found)
            links) p).
Proof.
  induction todo as [|s todo IH]; intros p links found H.
  - cbn. rewrite <- H. destruct p; reflexivity.
  - cbn [forEach_section fold_left].
    cbv beta iota delta [bind modify ret].
    destruct (around pos s).
    + rewrite (IH _ links (Some s)).
      * destruct p; reflexivity.
      * cbn [set_navLinks navLinks marked_for]. rewrite H.
        destruct found; cbn [marked_for]; [|reflexivity].
        rewrite map_map. apply map_ext. intros l. apply mark_mark.
    + apply (IH _ links found H).
Qed.

End ScrollSpyFacts.

(** X21.  The scroll handler of the navigation marks the links by the
    last section, in tree order, that lies around the line
    [scrollY + header height + 100]: every link loses [active] and the
    links whose [href] is [#] followed by the [id] of that section get it.
    When no section lies around the line, the links stay as they were.
    On a page without [.header] the handler throws and changes
    nothing. *)
Theorem scroll_spy_marks_links_of_last_section_around :
  forall p : ScrollSpy.Page,
    match ScrollSpy.header p with
    | None => ScrollSpy.scrollHandler tt p = (Thrown TypeError, p)
    | Some h =>
        let scrollPosition :=
          B64.add (B64.add (ScrollSpy.scrollY p) h) (B64.of_Z 100) in
        let found :=
          ScrollSpy.last_around scrollPosition (ScrollSpy.sections p) in
        ScrollSpy.scrollHandler tt p
        = (Done tt,
           ScrollSpy.set_navLinks
             (ScrollSpy.marked_for found (ScrollSpy.navLinks p)) p)
        /\ forall section,
             found = Some section ->
             Forall
               (fun link =>
                  contains "active" (ScrollSpy.classList link)
                  = ScrollSpy.points_to (ScrollSpy.id section) link)
               (ScrollSpy.navLinks (snd (ScrollSpy.scrollHandler tt p)))
    end.
Proof.
  intros p. destruct (ScrollSpy.header p) as [h|] eqn:Eh.
  - intros pos found.
    assert (E : ScrollSpy.scrollHandler tt p
                = (Done tt,
                   ScrollSpy.set_navLinks
                     (ScrollSpy.marked_for found (ScrollSpy.navLinks p)) p)).
    { unfold ScrollSpy.scrollHandler.
      cbv beta iota delta [bind ScrollSpy.get deref ret]. rewrite Eh.
      cbv beta iota.
      apply (forEach_section_effect _ (ScrollSpy.sections p) p
               (ScrollSpy.navLinks p) None eq_refl). }
    split; [exact E|]. intros s Hs. rewrite E, Hs. cbn.
    apply Forall_forall. intros l Hl. apply in_map_iff in Hl.
    destruct Hl as (l0 & <- & _). rewrite mark_active.
    unfold ScrollSpy.mark, ScrollSpy.points_to. reflexivity.
  - unfold ScrollSpy.scrollHandler.
    cbv beta iota delta [bind ScrollSpy.get deref ret throw]. rewrite Eh.
    reflexivity.
Qed.

(** ** Regular expressions *)

Section RegexFacts.
Import Regex.

Lemma nullable_matches (r : regex) : nullable r = true <-> matches r [].
Proof.
  split.
  - induction r as [| |p|r1 IH1 r2 IH2|r1 IH1 r2 IH2|r IH]; cbn; intros H;
      try discriminate.
    + constructor.
    + apply andb_true_iff in H. destruct H as [H1 H2].
      apply (matches_Cat (IH1 H1) (IH2 H2)).
    + apply orb_true_iff in H. destruct H as [H|H];
        [apply matches_Alt_l, IH1, H | apply matches_Alt_r, IH2, H].
    + apply matches_Plus_one, IH, H.
  - intros H. remember [] as s eqn:Es.
    induction H as [|p c Hp|r1 r2 s1 s2 _ IH1 _ IH2|r1 r2 s _ IH
                    |r1 r2 s _ IH|r s _ IH|r s1 s2 _ IH1 _ IH2]; cbn.
    + reflexivity.
    + discriminate.
    + apply app_eq_nil in Es. destruct Es as [-> ->].
      rewrite IH1, IH2; reflexivity.
    + rewrite (IH Es). reflexivity.
    + rewrite (IH Es). apply orb_true_r.
    + exact (IH Es).
    + apply app_eq_nil in Es. destruct Es as [-> ->].
      exact (IH1 eq_refl).
Qed.

Lemma derive_sound (c : N) (r : regex) :
  forall s, matches (derive c r) s -> matches r (c :: s).
Proof.
  induction r as [| |p|r1 IH1 r2 IH2|r1 IH1 r2 IH2|r IH]; cbn; intros s H.
  - inversion H.
  - inversion H.
  - destruct (p c) eqn:E; inversion H; subst. constructor. exact E.
  - destruct (nullable r1) eqn:E.
    + inversion H as [| | | ? ? ? H1| ? ? ? H2| |]; subst.
      * inversion H1 as [| |? ? s1 s2 Ha Hb| | | |]; subst.
        apply (matches_Cat (IH1 _ Ha) Hb).
      * apply nullable_matches in E.
        apply (matches_Cat E (IH2 _ H2)).
    + inversion H as [| |? ? s1 s2 Ha Hb| | | |]; subst.
      apply (matches_Cat (IH1 _ Ha) Hb).
  - inversion H; subst;
      [apply matches_Alt_l, IH1 | apply matches_Alt_r, IH2]; assumption.
  - inversion H as [| |? ? s1 s2 Ha Hb| | | |]; subst.
    inversion Hb as [| | | ? ? ? He| ? ? ? Hp| |]; subst.
    + inversion He; subst. rewrite app_nil_r.
      apply matches_Plus_one, IH, Ha.
    + apply (matches_Plus_more (IH _ Ha) Hp).
Qed.

Lemma derive_complete (r : regex) (s' : jsstring) :
  matches r s' ->
  forall c s, s' = c :: s -> matches (derive c r) s.
Proof.
  induction 1 as [|p c' Hp|r1 r2 s1 s2 H1 IH1 H2 IH2|r1 r2 s0 _ IH
                  |r1 r2 s0 _ IH|r s0 _ IH|r s1 s2 H1 IH1 H2 IH2];
    intros c s E; cbn.
  - discriminate.
  - injection E as -> <-. rewrite Hp. constructor.
  - destruct s1 as [|c1 s1]; cbn in E.
    + apply nullable_matches in H1. rewrite H1.
      apply matches_Alt_r, IH2, E.
    + injection E as -> <-.
      pose proof (matches_Cat (IH1 _ _ eq_refl) H2) as M.
      destruct (nullable r1); [apply matches_Alt_l|]; exact M.
  - apply matches_Alt_l, IH, E.
  - apply matches_Alt_r, IH, E.
  - rewrite <- (app_nil_r s).
    apply (matches_Cat (IH _ _ E)). apply matches_Alt_l. constructor.
  - destruct s1 as [|c1 s1]; cbn in E.
    + exact (IH2 _ _ E).
    + injection E as -> <-.
      apply (matches_Cat (IH1 _ _ eq_refl)). apply matches_Alt_r, H2.
Qed.

(** The test decides the language. *)
Lemma test_matches (s : jsstring) :
  forall r : regex, test r s = true <-> matches r s.
Proof.
  unfold test. induction s as [|c s IH]; intros r; cbn [fold_left].
  - apply nullable_matches.
  - rewrite IH. split; [apply derive_sound|].
    intros H. apply (derive_complete H eq_refl).
Qed.

Lemma matches_Plus_Class (p : N -> bool) (s : jsstring) :
  matches (Plus (Class p)) s <-> s <> [] /\ forallb p s = true.
Proof.
  split.
  - intros H. remember (Plus (Class p)) as r eqn:Er.
    induction H as [| | | | |r s M _|r s1 s2 M _ _ IH]; try discriminate;
      injection Er as ->.
    + inversion M; subst. split; [discriminate|]. cbn.
      rewrite H0. reflexivity.
    + inversion M; subst. split; [discriminate|]. cbn.
      destruct (IH eq_refl) as [_ F]. rewrite H0, F. reflexivity.
  - intros [Hn F]. induction s as [|c s IH]; [contradiction|].
    cbn in F. apply andb_true_iff in F. destruct F as [Fc Fs].
    destruct s as [|c' s].
    + apply matches_Plus_one. constructor. exact Fc.
    + apply (matches_Plus_more (s1 := [c])); [constructor; exact Fc|].
      apply IH; [discriminate | exact Fs].
Qed.

Lemma matches_Class_eqb (k : N) (s : jsstring) :
  matches (Class (N.eqb k)) s <-> s = [k].
Proof.
  split.
  - intros H. inversion H; subst. apply N.eqb_eq in H1. subst. reflexivity.
  - intros ->. constructor. apply N.eqb_refl.
Qed.

Lemma matches_Cat_inv (r1 r2 : regex) (s : jsstring) :
  matches (Cat r1 r2) s <->
  exists s1 s2, s = s1 ++ s2 /\ matches r1 s1 /\ matches r2 s2.
Proof.
  split.
  - intros H. inversion H; subst. eexists _, _. repeat split; eassumption.
  - intros (s1 & s2 & -> & H1 & H2). constructor; assumption.
Qed.

End RegexFacts.

(** ** E-mail addresses *)

(** X22.  [isValidEmail] accepts exactly the strings [a@b.c] in which
    [a], [b] and [c] are not empty and contain neither white space nor
    [@]: so exactly one [@], something before it, and after it a dot that
    is neither the first nor the last character.  Dots elsewhere, also
    next to each other, are accepted. *)
Theorem isValidEmail_accepts_local_at_domain_dot_tld :
  forall email : jsstring,
    FormValidator.isValidEmail email = true
    <-> exists a b c : jsstring,
          email = a ++ [64%N] ++ b ++ [46%N] ++ c
          /\ a <> [] /\ b <> [] /\ c <> []
          /\ forallb FormValidator.not_space_or_at (a ++ b ++ c) = true.
Proof.
  intros email. unfold FormValidator.isValidEmail, FormValidator.regex.
  rewrite test_matches. split.
  - intros H.
    apply matches_Cat_inv in H. destruct H as (a & s1 & -> & Ha & H).
    apply matches_Cat_inv in H. destruct H as (x & s2 & -> & Hx & H).
    apply matches_Cat_inv in H. destruct H as (b & s3 & -> & Hb & H).
    apply matches_Cat_inv in H. destruct H as (y & c & -> & Hy & Hc).
    apply matches_Class_eqb in Hx, Hy. subst x y.
    apply matches_Plus_Class in Ha, Hb, Hc.
    destruct Ha as [Na Fa], Hb as [Nb Fb], Hc as [Nc Fc].
    exists a, b, c. repeat split; try assumption.
    rewrite !forallb_app, Fa, Fb, Fc. reflexivity.
  - intros (a & b & c & -> & Na & Nb & Nc & F).
    rewrite !forallb_app in F.
    apply andb_true_iff in F. destruct F as [Fa F].
    apply andb_true_iff in F. destruct F as [Fb Fc].
    apply Regex.matches_Cat; [apply matches_Plus_Class; split; assumption|].
    apply Regex.matches_Cat; [apply matches_Class_eqb; reflexivity|].
    apply Regex.matches_Cat; [apply matches_Plus_Class; split; assumption|].
    apply Regex.matches_Cat; [apply matches_Class_eqb; reflexivity|].
    apply matches_Plus_Class; split; assumption.
Qed.

(** ** Validation of a form *)

Section FormFacts.
Import FormValidator.

Lemma nth_error_middle (X : Type) (l l' : list X) (x : X) :
  nth_error (l ++ x :: l') (List.length l) = Some x.
Proof. induction l as [|y l IH]; [reflexivity | exact IH]. Qed.

Lemma update_nth_middle (X : Type) (f : X -> X) (l l' : list X) (x : X) :
  Navigation.update_nth (List.length l) f (l ++ x :: l') = l ++ f x :: l'.
Proof.
  induction l as [|y l IH]; [reflexivity|]. cbn. rewrite IH. reflexivity.
Qed.

Lemma update_nth_ext_at (X : Type) (f g : X -> X) (l : list X) :
  forall (k : nat) (a : X),
    nth_error l k = Some a -> f a = g a ->
    Navigation.update_nth k f l = Navigation.update_nth k g l.
Proof.
  induction l as [|x l IH]; intros [|k] a H E; cbn in *; try discriminate.
  - injection H as ->. rewrite E. reflexivity.
  - rewrite (IH k a H E). reflexivity.
Qed.

Lemma field_ok_marked (x : Input) : field_ok (marked x) = field_ok x.
Proof. reflexivity. Qed.

Lemma marked_error (x : Input) :
  contains "error" (classList (marked x)) = negb (field_ok x).
Proof.
  unfold marked. cbn. destruct (field_ok x); cbn;
    [apply contains_token_remove | apply contains_token_add].
Qed.

Lemma showError_effect (done rest : list Input) (x : Input)
      (ps : list (list ErrorElement)) (cs : list string)
      (message : jsstring) (errors : list ErrorElement) :
  nth_error ps (parentElement x) = Some errors ->
  showError (List.length done) message (mkForm (done ++ x :: rest) ps cs)
  = (Done tt,
     mkForm
       (done
        ++ set_input_classList (token_add "error" (classList x)) x :: rest)
       (Navigation.update_nth (parentElement x)
          (fun _ =>
             tl errors
             ++ [match errors with
                 | e :: _ => e
                 | [] => createErrorElement message
                 end]) ps) cs).
Proof.
  intros Ep. unfold showError, parent_of.
  cbv beta iota delta [bind get deref ret modify]. cbn [inputs parents].
  rewrite nth_error_middle. cbv beta iota. rewrite Ep. cbv beta iota.
  unfold update_parent, update_input. cbn [inputs parents console fst snd].
  rewrite update_nth_middle. f_equal. f_equal.
  apply (update_nth_ext_at _ _ _ _ Ep). reflexivity.
Qed.

Lemma clearError_effect (done rest : list Input) (x : Input)
      (ps : list (list ErrorElement)) (cs : list string)
      (errors : list ErrorElement) :
  nth_error ps (parentElement x) = Some errors ->
  clearError (List.length done) (mkForm (done ++ x :: rest) ps cs)
  = (Done tt,
     mkForm
       (done
        ++ set_input_classList (token_remove "error" (classList x)) x
           :: rest)
       (Navigation.update_nth (parentElement x) (fun _ => tl errors) ps)
       cs).
Proof.
  intros Ep. unfold clearError, parent_of.
  cbv beta iota delta [bind get deref ret modify]. cbn [inputs parents].
  rewrite nth_error_middle. cbv beta iota. rewrite Ep. cbv beta iota.
  unfold update_parent, update_input. cbn [inputs parents console fst snd].
  rewrite update_nth_middle. f_equal. f_equal.
  apply (update_nth_ext_at _ _ _ _ Ep). reflexivity.
Qed.

(** One round of the loop, on the field [x] of index [length done]. *)
Lemma forEach_input_step (done rest : list Input) (x : Input)
      (ps : list (list ErrorElement)) (cs : list string)
      (indices : list nat) (isValid : bool) :
  (parentElement x < List.length ps)%nat ->
  forEach_input (List.length done :: indices) isValid
    (mkForm (done ++ x :: rest) ps cs)
  = forEach_input indices (isValid && field_ok x)
      (mkForm (done ++ marked x :: rest)
         (Navigation.update_nth (parentElement x) (errors_after x) ps) cs).
Proof.
  intros Hp.
  destruct (nth_error ps (parentElement x)) as [errors|] eqn:Ep;
    [|apply nth_error_None in Ep; lia].
  cbn [forEach_input].
  cbv beta iota delta [bind get deref ret]. cbn [inputs].
  rewrite nth_error_middle. cbv beta iota.
  unfold marked, errors_after, field_ok, message_for.
  destruct (required x && is_empty (trim (value x))) eqn:C1; cbn [negb andb].
  - rewrite (showError_effect _ _ _ _ _ _ Ep). cbv beta iota.
    rewrite andb_false_r. f_equal. f_equal.
    apply (update_nth_ext_at _ _ _ _ Ep). reflexivity.
  - destruct (String.eqb (type x) "email" && negb (isValidEmail (value x)))
      eqn:C2; cbn [negb].
    + rewrite (showError_effect _ _ _ _ _ _ Ep). cbv beta iota.
      rewrite andb_false_r. f_equal. f_equal.
      apply (update_nth_ext_at _ _ _ _ Ep). reflexivity.
    + rewrite (clearError_effect _ _ _ _ _ Ep). cbv beta iota.
      rewrite andb_true_r. f_equal. f_equal.
      apply (update_nth_ext_at _ _ _ _ Ep). reflexivity.
Qed.

Lemma length_parents_step (x : Input) (ps : list (list ErrorElement)) :
  List.length (Navigation.update_nth (parentElement x) (errors_after x) ps)
  = List.length ps.
Proof. apply length_update_nth. Qed.

(** The loop over the fields that are left. *)
Lemma forEach_input_seq (todo : list Input) :
  forall (done : list Input) (ps : list (list ErrorElement))
         (cs : list string) (isValid : bool),
    Forall (fun input => parentElement input < List.length ps)%nat todo ->
    forEach_input (seq (List.length done) (List.length todo)) isValid
      (mkForm (done ++ todo) ps cs)
    = (Done (isValid && forallb field_ok todo),
       mkForm (done ++ map marked todo) (parents_after todo ps) cs).
Proof.
  induction todo as [|x rest IH]; intros done ps cs isValid H.
  - cbn. rewrite andb_true_r. reflexivity.
  - inversion H as [|? ? Hx Hrest]; subst.
    cbn [List.length seq]. rewrite (@forEach_input_step _ _ _ _ _ _ _ Hx).
    replace (done ++ marked x :: rest) with ((done ++ [marked x]) ++ rest)
      by (rewrite <- app_assoc; reflexivity).
    replace (S (List.length done)) with (List.length (done ++ [marked x]))
      by (rewrite length_app; cbn; lia).
    rewrite IH.
    + cbn [forallb map parents_after fold_left].
      rewrite <- app_assoc, andb_assoc. reflexivity.
    + rewrite length_parents_step. exact Hrest.
Qed.

Lemma validateForm_effect (form : Form) :
  well_formed form ->
  validateForm form
  = (Done (forallb field_ok (inputs form)),
     mkForm (map marked (inputs form))
       (parents_after (inputs form) (parents form)) (console form)).
Proof.
  intros H. destruct form as [xs ps cs]. unfold validateForm.
  cbv beta iota delta [bind get]. cbn [inputs].
  exact (@forEach_input_seq xs [] ps cs true H).
Qed.

End FormFacts.

Section FormParents.
Import FormValidator.





Lemma parents_after_length (fields : list Input) :
  forall ps, List.length (parents_after fields ps) = List.length ps.
Proof.
  induction fields as [|y fields IH]; intros ps; [reflexivity|].
  cbn [parents_after fold_left]. fold (parents_after fields).
  rewrite IH. apply length_update_nth.
Qed.

End FormParents.

(** X23.  When every field has a parent, [validateForm] returns
    normally, and returns [true] exactly when no required field is blank
    and no field of type [email] holds a value [isValidEmail] rejects;
    afterwards a field carries the class [error] exactly when it failed;
    fields are otherwise unchanged and nothing is logged. *)
Theorem validateForm_marks_the_fields_that_fail :
  forall form : FormValidator.Form,
    FormValidator.well_formed form ->
    let form' := snd (FormValidator.validateForm form) in
    fst (FormValidator.validateForm form)
    = Done (forallb FormValidator.field_ok (FormValidator.inputs form))
    /\ FormValidator.inputs form'
       = map FormValidator.marked (FormValidator.inputs form)
    /\ Forall (fun input =>
                 contains "error" (FormValidator.classList input)
                 = negb (FormValidator.field_ok input))
         (FormValidator.inputs form')
    /\ FormValidator.console form' = FormValidator.console form
    /\ List.length (FormValidator.parents form')
       = List.length (FormValidator.parents form).
Proof.
  intros form H form'. unfold form'. rewrite (validateForm_effect H).
  cbn [fst snd FormValidator.inputs FormValidator.console
       FormValidator.parents].
  split; [reflexivity|]. split; [reflexivity|].
  split; [|split; [reflexivity | apply parents_after_length]].
  apply Forall_forall. intros y Hy. apply in_map_iff in Hy.
  destruct Hy as (x & <- & _).
  rewrite field_ok_marked. apply marked_error.
Qed.

Lemma validateForm_marks_the_fields_that_fail_witness :
  fst (FormValidator.validateForm
         (FormValidator.mkForm
            [FormValidator.mkInput true "email" (lit "a@b.c") [] 0;
             FormValidator.mkInput false "text" [] [] 0]
            [[]] []))
  = Done true.
Proof.
  assert (W : FormValidator.well_formed
                (FormValidator.mkForm
                   [FormValidator.mkInput true "email" (lit "a@b.c") [] 0;
                    FormValidator.mkInput false "text" [] [] 0]
                   [[]] [])).
  { repeat constructor. }
  destruct (validateForm_marks_the_fields_that_fail W) as (E & _).
  exact E.
Defined.

(** X24.  A field of type [email] that is left empty makes the form
    fail, also when the field is not required: [validateForm] returns
    [false] and the submit listener does not submit. *)
Theorem empty_email_field_blocks_submission :
  forall (form : FormValidator.Form) (input : FormValidator.Input),
    FormValidator.well_formed form ->
    In input (FormValidator.inputs form) ->
    FormValidator.type input = "email"%string ->
    FormValidator.value input = [] ->
    fst (FormValidator.validateForm form) = Done false
    /\ fst (FormValidator.on_submit form) = Done tt
    /\ FormValidator.console (snd (FormValidator.on_submit form))
       = FormValidator.console form.
Proof.
  intros form input Hw Hi Ht Hv.
  assert (F : forallb FormValidator.field_ok (FormValidator.inputs form)
              = false).
  { apply not_true_is_false. intros H. rewrite forallb_forall in H.
    specialize (H _ Hi). unfold FormValidator.field_ok in H.
    rewrite Ht, Hv in H. cbn in H. rewrite andb_false_r in H.
    discriminate. }
  pose proof (validateForm_effect Hw) as E. rewrite F in E.
  unfold FormValidator.on_submit, bind. rewrite E. cbn.
  repeat split; reflexivity.
Qed.

Lemma empty_email_field_blocks_submission_witness :
  fst (FormValidator.validateForm
         (FormValidator.mkForm
            [FormValidator.mkInput false "email" [] [] 0] [[]] []))
  = Done false.
Proof.
  assert (W : FormValidator.well_formed
                (FormValidator.mkForm
                   [FormValidator.mkInput false "email" [] [] 0] [[]] [])).
  { repeat constructor. }
  destruct (empty_email_field_blocks_submission
              (FormValidator.mkInput false "email" [] [] 0)
              W (or_introl eq_refl) eq_refl eq_refl) as (E & _).
  exact E.
Defined.

Section StickyMessage.
Import FormValidator.






End StickyMessage.


